(** * DroidClaw: skills, screen capture, voice sessions, goal admission, pairing

    A shallow embedding of the parts of the repository that carry its
    behavioural contract, followed by the properties proved about them:

    - [Js]       the JavaScript string, regular-expression, sorting and
                 number primitives the TypeScript sources rely on;
    - [Skills]   the multi-step skills of the CLI agent (skills.ts);
    - [A11y]     [getScreenTree] of the Android accessibility service;
    - [Voice]    the voice capture sessions of the server (ws/voice.ts);
    - [Goals]    goal submission and its admission registry (routes/goals.ts);
    - [Pairing]  pairing codes (routes/pairing.ts) behind the session
                 middleware (middleware/auth.ts).

    Conventions.  Strings are byte strings; the case mappings and the
    white space that is trimmed are the ASCII ones.  JavaScript numbers
    that hold screen coordinates, byte counts, ordinals and counters
    are integers of [Z]; the embedding is exact as long as they stay
    below 2^53, where a double is an exact integer, and [Js.parseInt],
    which reads numbers of any length, gives the nearest double.
    Console output is left out of the skills' device trace. *)

From Stdlib Require Import ZArith List String Ascii Bool Lia DecimalString.
From Stdlib Require Import Sorted Permutation DecimalPos DecimalFacts.
From stdpp Require Import gmap strings list.
Import ListNotations.

Local Open Scope string_scope.
Local Open Scope list_scope.
Local Open Scope Z_scope.

(* ===================================================================== *)
(** ** JavaScript primitives                                              *)
(* ===================================================================== *)

Module Js.

(** *** Characters and strings *)

Definition code (c : ascii) : nat := nat_of_ascii c.

Definition is_upper (c : ascii) : bool := (65 <=? code c)%nat && (code c <=? 90)%nat.
Definition is_lower (c : ascii) : bool := (97 <=? code c)%nat && (code c <=? 122)%nat.
Definition is_digit (c : ascii) : bool := (48 <=? code c)%nat && (code c <=? 57)%nat.

(** [\w]: letters, digits and the underscore. *)
Definition is_word (c : ascii) : bool :=
  is_upper c || is_lower c || is_digit c || (code c =? 95)%nat.

(** White space removed by [String.prototype.trim]. *)
Definition is_space (c : ascii) : bool :=
  ((9 <=? code c)%nat && (code c <=? 13)%nat) || (code c =? 32)%nat.

(** Line terminators, which [.] does not match. *)
Definition is_newline (c : ascii) : bool := (code c =? 10)%nat || (code c =? 13)%nat.

Definition lower_char (c : ascii) : ascii :=
  if is_upper c then ascii_of_nat (code c + 32) else c.

Fixpoint toLowerCase (s : string) : string :=
  match s with
  | EmptyString => EmptyString
  | String c s' => String (lower_char c) (toLowerCase s')
  end.

Definition chars (s : string) : list ascii := list_ascii_of_string s.
Definition str (l : list ascii) : string := string_of_list_ascii l.

(** A string is truthy when it is not empty. *)
Definition truthy (s : string) : bool :=
  match s with EmptyString => false | _ => true end.

Fixpoint starts_with (p s : list ascii) : bool :=
  match p, s with
  | [], _ => true
  | _ :: _, [] => false
  | a :: p', b :: s' => Ascii.eqb a b && starts_with p' s'
  end.

Fixpoint includes_chars (s p : list ascii) : bool :=
  starts_with p s ||
  match s with
  | [] => false
  | _ :: s' => includes_chars s' p
  end.

(** [s.includes(p)] *)
Definition includes (s p : string) : bool := includes_chars (chars s) (chars p).

Fixpoint drop_spaces (l : list ascii) : list ascii :=
  match l with
  | c :: l' => if is_space c then drop_spaces l' else l
  | [] => []
  end.

(** [s.trim()] *)
Definition trim (s : string) : string :=
  str (rev (drop_spaces (rev (drop_spaces (chars s))))).

(** [s.replaceAll(a, b)] for a one-character pattern [a]. *)
Fixpoint replaceAll_char (a : ascii) (b : string) (s : string) : string :=
  match s with
  | EmptyString => EmptyString
  | String c s' =>
      if Ascii.eqb c a then b +:+ replaceAll_char a b s'
      else String c (replaceAll_char a b s')
  end.

(** [arr.join(sep)] *)
Fixpoint join (sep : string) (l : list string) : string :=
  match l with
  | [] => EmptyString
  | [x] => x
  | x :: l' => x +:+ sep +:+ join sep l'
  end.

(** [arr.slice(0, n)] *)
Definition slice0 {A} (n : nat) (l : list A) : list A := firstn n l.

(** The double quote, for messages that quote a text. *)
Definition dq : string := String "034"%char EmptyString.

(** *** Numbers *)

(** [String(n)] and [`${n}`] for an integer. *)
Definition num_to_string (n : Z) : string := NilZero.string_of_int (Z.to_int n).

Definition digit_val (c : ascii) : Z := Z.of_nat (code c) - 48.

(** The integer that the longest prefix of digits of a text writes. *)
Fixpoint parse_digits (acc : Z) (l : list ascii) : Z :=
  match l with
  | c :: l' => if is_digit c then parse_digits (10 * acc + digit_val c) l' else acc
  | [] => acc
  end.

(** The number value of a non-negative integer: the nearest double, and
    of two that are equally near the one with the even significand.  The
    integers below [2^53] are doubles; those from [2^1024 - 2^970] on
    give [Infinity], for which [2^1024] stands. *)
Definition to_number (n : Z) : Z :=
  if n <? 2 ^ 53 then n
  else if 2 ^ 1024 - 2 ^ 970 <=? n then 2 ^ 1024
  else
    let e := Z.log2 n - 52 in
    let q := n / 2 ^ e in
    let r := n mod 2 ^ e in
    let half := 2 ^ (e - 1) in
    if (r <? half) || ((r =? half) && Z.even q) then q * 2 ^ e else (q + 1) * 2 ^ e.

(** [Number.parseInt(s, 10)] on a string that starts with a digit: the
    number value of the integer its longest prefix of digits writes. *)
Definition parseInt (s : string) : Z := to_number (parse_digits 0 (chars s)).

(** *** Sorting *)

(** [Array.prototype.sort] with a comparator: a stable sort (an element
    stays before the later elements it compares equal to). *)
Fixpoint insert_by {A} (cmp : A -> A -> Z) (x : A) (l : list A) : list A :=
  match l with
  | [] => [x]
  | y :: l' => if cmp x y <=? 0 then x :: l else y :: insert_by cmp x l'
  end.

Fixpoint sort_by {A} (cmp : A -> A -> Z) (l : list A) : list A :=
  match l with
  | [] => []
  | x :: l' => insert_by cmp x (sort_by cmp l')
  end.

(** [a || b] on numbers: [b] when [a] is zero. *)
Definition or_num (a b : Z) : Z := if a =? 0 then b else a.

(** [arr.find(p)] and [arr.findIndex(p)] *)
Definition find_first {A} (p : A -> bool) (l : list A) : option A := List.find p l.

Fixpoint findIndex {A} (p : A -> bool) (l : list A) : option nat :=
  match l with
  | [] => None
  | x :: l' => if p x then Some O else option_map S (findIndex p l')
  end.

(** *** Regular expressions *)

(** The fragment of the regular-expression language the sources use.
    Matching follows the backtracking order of the language: alternatives
    left to right, greedy repetition, the first success wins. *)
Inductive re : Type :=
| Eps                                  (* the empty pattern *)
| Sym (p : ascii -> bool)              (* one character satisfying [p] *)
| Seq (r1 r2 : re)
| Alt (r1 r2 : re)
| Star (r : re)                        (* [r*], greedy *)
| Bol                                  (* [^] *)
| Eol                                  (* [$] *)
| WordB.                               (* [\b] *)

Definition Opt (r : re) : re := Alt r Eps.           (* [r?] *)
Definition Plus (r : re) : re := Seq r (Star r).     (* [r+] *)
Definition Dot : re := Sym (fun c => negb (is_newline c)).
Definition Chr (c : ascii) : re := Sym (Ascii.eqb c).
(** A character under the [i] flag. *)
Definition ChrI (c : ascii) : re := Sym (fun x => Ascii.eqb (lower_char x) (lower_char c)).

Fixpoint Lit (s : string) : re :=
  match s with
  | EmptyString => Eps
  | String c s' => Seq (Chr c) (Lit s')
  end.

Fixpoint LitI (s : string) : re :=
  match s with
  | EmptyString => Eps
  | String c s' => Seq (ChrI c) (LitI s')
  end.

Fixpoint Alts (l : list re) : re :=
  match l with
  | [] => Sym (fun _ => false)
  | [r] => r
  | r :: l' => Alt r (Alts l')
  end.

Definition word_opt (c : option ascii) : bool :=
  match c with Some c => is_word c | None => false end.

(** [run r prev s k]: match [r] at the front of [s], where [prev] is the
    character before the current position, and hand the position reached
    to the continuation [k]; the first successful path is returned. *)
Fixpoint run {A} (r : re) (prev : option ascii) (s : list ascii)
    (k : option ascii -> list ascii -> option A) {struct r} : option A :=
  match r with
  | Eps => k prev s
  | Sym p =>
      match s with
      | c :: s' => if p c then k (Some c) s' else None
      | [] => None
      end
  | Seq r1 r2 => run r1 prev s (fun prev' s' => run r2 prev' s' k)
  | Alt r1 r2 =>
      match run r1 prev s k with
      | Some x => Some x
      | None => run r2 prev s k
      end
  | Star r1 =>
      (fix loop (n : nat) (prev : option ascii) (s : list ascii) {struct n} : option A :=
         let again :=
           match n with
           | O => None
           | S n' =>
               run r1 prev s (fun prev' s' =>
                 if (length s' <? length s)%nat then loop n' prev' s' else None)
           end in
         match again with
         | Some x => Some x
         | None => k prev s
         end) (length s) prev s
  | Bol => match prev with None => k prev s | Some _ => None end
  | Eol => match s with [] => k prev s | _ :: _ => None end
  | WordB => if xorb (word_opt prev) (word_opt (head s)) then k prev s else None
  end.

(** Try every start position from the left. *)
Fixpoint search {A} (r : re) (prev : option ascii) (s : list ascii)
    (k : list ascii -> list ascii -> option A) : option A :=
  match run r prev s (fun _ rest => k s rest) with
  | Some x => Some x
  | None =>
      match s with
      | [] => None
      | c :: s' => search r (Some c) s' k
      end
  end.

(** [re.test(s)] *)
Definition test (r : re) (s : string) : bool :=
  match search r None (chars s) (fun _ _ => Some tt) with
  | Some _ => true
  | None => false
  end.

(** [s.match(re)[0]] for a pattern without the [g] flag: the text of the
    leftmost match, or [None] when there is none. *)
Definition match0 (r : re) (s : string) : option string :=
  search r None (chars s)
    (fun from rest => Some (str (firstn (length from - length rest) from))).

End Js.

(* ===================================================================== *)
(** ** The skills of the CLI agent (skills.ts)                            *)
(* ===================================================================== *)

Module Skills.
Import Js.

(** *** Data *)

(** A screen element as the sanitizer reports it (the fields the skills
    read).  [el_center] is [(x, y)] and [el_size] is [(width, height)]. *)
Record UIElement : Type := {
  el_id : string;
  el_text : string;
  el_hint : string;
  el_center : Z * Z;
  el_size : Z * Z;
  el_enabled : bool;
  el_clickable : bool;
  el_longClickable : bool;
  el_editable : bool;
  el_checked : bool;
  el_selected : bool;
  el_action : string
}.

Definition cx (el : UIElement) : Z := fst (el_center el).
Definition cy (el : UIElement) : Z := snd (el_center el).

(** The decision of the reasoning service; [None] is an absent field. *)
Record ActionDecision : Type := {
  d_action : string;
  d_skill : option string;
  d_query : option string;
  d_text : option string
}.

Record ActionResult : Type := {
  success : bool;
  message : string;
  data : option string
}.

(** The last like attempt, a variable of the module. *)
Record LikeAttempt : Type := {
  la_index : Z;
  la_y : Z;
  la_x : Z;
  la_countBefore : option Z
}.

(** Values of config.js, constants.js and actions.js that the skills
    read: the two dump paths, the swipe duration and the coordinates
    [getSwipeCoords()["up"]]. *)
Record Config : Type := {
  SCREEN_DUMP_PATH : string;
  LOCAL_DUMP_PATH : string;
  SWIPE_DURATION_MS : string;
  swipeUp : Z * Z * Z * Z
}.

(** *** The device and the effects of a skill *)

(** What a skill does to the outside: an adb invocation with its
    arguments, or a blocking sleep. *)
Inductive effect : Type :=
| Adb (args : list string)
| Sleep (ms : Z).

(** The device as a skill sees it.  [faults] tells, for the coming adb
    invocations in order, whether each one throws (none does once the
    list is used up); [screens] holds what the coming screen captures
    find in the pulled dump, already parsed by [getInteractiveElements]
    ([None]: no dump file); [trace] records the effects so far. *)
Record World : Type := {
  faults : list bool;
  screens : list (option (list UIElement));
  trace : list effect;
  lastCommentLikeAttempt : option LikeAttempt
}.

Inductive outcome (A : Type) : Type :=
| Ok (a : A)
| Throw.
Arguments Ok {A} a.
Arguments Throw {A}.

(** Computations that read and change the device and may throw. *)
Definition M (A : Type) : Type := World -> outcome A * World.

Definition ret {A} (a : A) : M A := fun w => (Ok a, w).

Definition bind {A B} (m : M A) (f : A -> M B) : M B :=
  fun w =>
    match m w with
    | (Ok a, w') => f a w'
    | (Throw, w') => (Throw, w')
    end.

Notation "x <- m ;; k" := (bind m (fun x => k))
  (at level 100, m at next level, right associativity).
Notation "m ;;; k" := (bind m (fun _ => k))
  (at level 100, right associativity).

(** [try { m } catch { return a }] *)
Definition catch {A} (m : M A) (a : A) : M A :=
  fun w =>
    match m w with
    | (Ok x, w') => (Ok x, w')
    | (Throw, w') => (Ok a, w')
    end.

Definition emit (e : effect) (w : World) : World :=
  {| faults := faults w; screens := screens w; trace := trace w ++ [e];
     lastCommentLikeAttempt := lastCommentLikeAttempt w |}.

Definition runAdbCommand (args : list string) : M unit :=
  fun w =>
    let w1 := emit (Adb args) w in
    match faults w1 with
    | true :: fs =>
        (Throw, {| faults := fs; screens := screens w1; trace := trace w1;
                   lastCommentLikeAttempt := lastCommentLikeAttempt w1 |})
    | false :: fs =>
        (Ok tt, {| faults := fs; screens := screens w1; trace := trace w1;
                   lastCommentLikeAttempt := lastCommentLikeAttempt w1 |})
    | [] => (Ok tt, w1)
    end.

Definition sleepSync (ms : Z) : M unit := fun w => (Ok tt, emit (Sleep ms) w).

(** Read the pulled dump: the next entry of [screens]. *)
Definition readDump : M (option (list UIElement)) :=
  fun w =>
    match screens w with
    | [] => (Ok None, w)
    | o :: rest =>
        (Ok o, {| faults := faults w; screens := rest; trace := trace w;
                  lastCommentLikeAttempt := lastCommentLikeAttempt w |})
    end.

Definition setLastAttempt (a : LikeAttempt) : M unit :=
  fun w =>
    (Ok tt, {| faults := faults w; screens := screens w; trace := trace w;
               lastCommentLikeAttempt := Some a |}).

Definition getLastAttempt : M (option LikeAttempt) :=
  fun w => (Ok (lastCommentLikeAttempt w), w).

Section WithConfig.
Variable cfg : Config.

(** *** Helpers *)

Definition safeClipboardSet (text : string) : M unit :=
  let escaped := replaceAll_char "'"%char "'\''" text in
  runAdbCommand ["shell"; "cmd clipboard set-text '" +:+ escaped +:+ "'"].

Definition rescanScreen : M (list UIElement) :=
  captured <- catch
      (runAdbCommand ["shell"; "uiautomator"; "dump"; SCREEN_DUMP_PATH cfg] ;;;
       runAdbCommand ["pull"; SCREEN_DUMP_PATH cfg; LOCAL_DUMP_PATH cfg] ;;;
       ret true)
      false ;;
  if captured : bool then
    dump <- readDump ;;
    match dump with
    | None => ret []
    | Some els => ret els
    end
  else ret [].

Definition swipe_up : M unit :=
  let '(x1, y1, x2, y2) := swipeUp cfg in
  runAdbCommand ["shell"; "input"; "swipe";
                 num_to_string x1; num_to_string y1;
                 num_to_string x2; num_to_string y2;
                 SWIPE_DURATION_MS cfg].

Definition tap (x y : Z) : M unit :=
  runAdbCommand ["shell"; "input"; "tap"; num_to_string x; num_to_string y].

Definition has_text (l : list string) (t : string) : bool :=
  existsb (String.eqb t) l.

Definition len (s : string) : Z := Z.of_nat (String.length s).
Definition count {A} (l : list A) : Z := Z.of_nat (length l).

(** *** Skill 0: read_screen *)

(** [collectTexts]: the texts not seen before, in order; [seenTexts]
    holds exactly the texts of [allTexts] at every moment. *)
Fixpoint collectTexts (allTexts : list string) (els : list UIElement)
  : list string * Z :=
  match els with
  | [] => (allTexts, 0)
  | el :: els' =>
      if truthy (el_text el) && negb (has_text allTexts (el_text el)) then
        let '(all', added) := collectTexts (allTexts ++ [el_text el]) els' in
        (all', added + 1)
      else collectTexts allTexts els'
  end.

Fixpoint readScreen_loop (n : nat) (allTexts : list string) (scrollsDone : Z)
  : M (list string * Z) :=
  match n with
  | O => ret (allTexts, scrollsDone)
  | S n' =>
      swipe_up ;;;
      sleepSync 1500 ;;;
      newElements <- rescanScreen ;;
      let '(all', added) := collectTexts allTexts newElements in
      if added =? 0 then ret (all', scrollsDone + 1)
      else readScreen_loop n' all' (scrollsDone + 1)
  end.

Definition readScreen (elements : list UIElement) : M ActionResult :=
  let '(all0, _) := collectTexts [] elements in
  r <- readScreen_loop 5 all0 0 ;;
  let '(allTexts, scrollsDone) := r in
  let combinedText := join (String "010"%char "") allTexts in
  (if 0 <? len combinedText then safeClipboardSet combinedText else ret tt) ;;;
  ret {| success := true;
         message := "Read " +:+ num_to_string (count allTexts)
                    +:+ " text elements across " +:+ num_to_string scrollsDone
                    +:+ " scrolls (" +:+ num_to_string (len combinedText)
                    +:+ " chars), copied to clipboard";
         data := Some combinedText |}.

(** *** Skill 1: submit_message *)

(** [/send|submit|post|arrow|paper.?plane/i] *)
Definition SEND_BUTTON_PATTERN : re :=
  Alts [LitI "send"; LitI "submit"; LitI "post"; LitI "arrow";
        Seq (LitI "paper") (Seq (Opt Dot) (LitI "plane"))].

Definition is_send_candidate (el : UIElement) : bool :=
  el_enabled el &&
  (el_clickable el || String.eqb (el_action el) "tap") &&
  (test SEND_BUTTON_PATTERN (el_text el) || test SEND_BUTTON_PATTERN (el_id el)).

(** The texts of [newElements] that are not empty and not in [elements]. *)
Definition newTexts_of (elements newElements : list UIElement) : list string :=
  let originalTexts := List.filter truthy (List.map el_text elements) in
  List.filter (fun t => truthy t && negb (has_text originalTexts t))
              (List.map el_text newElements).

(** The candidates of [submitMessage], best first.  The comparison
    [y >= maxY * 0.8] is [5 * y >= 4 * maxY] on integers. *)
Definition submit_candidates (elements : list UIElement) : list UIElement :=
  let candidates := List.filter is_send_candidate elements in
  match candidates with
  | _ :: _ => candidates
  | [] =>
      let screenBottom :=
        sort_by (fun a b => cy b - cy a)
                (List.filter (fun el => el_enabled el && el_clickable el) elements) in
      match screenBottom with
      | [] => []
      | top :: _ =>
          let maxY := cy top in
          sort_by (fun a b => cx b - cx a)
                  (List.filter (fun el => 4 * maxY <=? 5 * cy el) screenBottom)
      end
  end.

Definition submitMessage (elements : list UIElement) : M ActionResult :=
  match submit_candidates elements with
  | [] =>
      ret {| success := false;
             message := "Could not find a Send/Submit button on screen";
             data := None |}
  | target :: _ =>
      let x := cx target in
      let y := cy target in
      tap x y ;;;
      sleepSync 6000 ;;;
      newElements <- rescanScreen ;;
      let newTexts := newTexts_of elements newElements in
      match newTexts with
      | _ :: _ =>
          let summary := join "; " (slice0 3 newTexts) in
          ret {| success := true;
                 message := "Tapped " +:+ dq +:+ el_text target +:+ dq
                            +:+ " and new content appeared: " +:+ summary;
                 data := Some summary |}
      | [] =>
          ret {| success := true;
                 message := "Tapped " +:+ dq +:+ el_text target +:+ dq +:+ " at ("
                            +:+ num_to_string x +:+ ", " +:+ num_to_string y
                            +:+ "). No new content yet — may still be loading.";
                 data := None |}
      end
  end.

(** *** Skill 2: copy_visible_text *)

Definition query_filter (query : option string) (l : list UIElement) : list UIElement :=
  match query with
  | Some q =>
      if truthy q then
        List.filter (fun el => includes (toLowerCase (el_text el)) (toLowerCase q)) l
      else l
  | None => l
  end.

Definition query_given (query : option string) : bool :=
  match query with Some q => truthy q | None => false end.

Definition copyVisibleText (decision : ActionDecision) (elements : list UIElement)
  : M ActionResult :=
  let readable :=
    query_filter (d_query decision)
      (List.filter (fun el => truthy (el_text el) && String.eqb (el_action el) "read")
                   elements) in
  let textElements :=
    match readable with
    | _ :: _ => readable
    | [] => query_filter (d_query decision)
              (List.filter (fun el => truthy (el_text el)) elements)
    end in
  match textElements with
  | [] =>
      ret {| success := false;
             message :=
               if query_given (d_query decision) then
                 "No text matching " +:+ dq +:+ default "" (d_query decision) +:+ dq
                 +:+ " found on screen"
               else "No readable text found on screen";
             data := None |}
  | _ :: _ =>
      let sorted := sort_by (fun a b => cy a - cy b) textElements in
      let combinedText := join (String "010"%char "") (List.map el_text sorted) in
      safeClipboardSet combinedText ;;;
      ret {| success := true;
             message := "Copied " +:+ num_to_string (count sorted)
                        +:+ " text elements to clipboard ("
                        +:+ num_to_string (len combinedText) +:+ " chars)";
             data := Some combinedText |}
  end.

(** *** Skill 3: wait_for_content *)

Fixpoint waitForContent_loop (n : nat) (i : Z) (elements : list UIElement)
  : M ActionResult :=
  match n with
  | O =>
      ret {| success := false;
             message := "No new content appeared after 15s";
             data := None |}
  | S n' =>
      sleepSync 3000 ;;;
      newElements <- rescanScreen ;;
      let newTexts := newTexts_of elements newElements in
      let totalNewChars := fold_left (fun sum t => sum + len t) newTexts 0 in
      if 20 <? totalNewChars then
        let summary := join "; " (slice0 5 newTexts) in
        ret {| success := true;
               message := "New content appeared after "
                          +:+ num_to_string ((i + 1) * 3) +:+ "s: " +:+ summary;
               data := Some summary |}
      else waitForContent_loop n' (i + 1) elements
  end.

Definition waitForContent (elements : list UIElement) : M ActionResult :=
  waitForContent_loop 5 0 elements.

(** *** Skill 4: find_and_tap *)

Definition match_score (queryLower : string) (el : UIElement) : Z :=
  (if el_enabled el then 10 else 0)
  + (if el_clickable el || el_longClickable el then 5 else 0)
  + (if String.eqb (toLowerCase (el_text el)) queryLower then 20 else 5).

Definition text_matches (queryLower : string) (el : UIElement) : bool :=
  truthy (el_text el) && includes (toLowerCase (el_text el)) queryLower.

(** Searches visible elements for a match; the best match or [None]. *)
Definition findMatch (elements : list UIElement) (queryLower : string)
  : option UIElement :=
  let matches := List.filter (text_matches queryLower) elements in
  let scored := List.map (fun el => (el, match_score queryLower el)) matches in
  match sort_by (fun a b => snd b - snd a) scored with
  | [] => None
  | best :: _ => Some (fst best)
  end.

Fixpoint findAndTap_scroll (n : nat) (queryLower : string) : M (option UIElement) :=
  match n with
  | O => ret None
  | S n' =>
      swipe_up ;;;
      sleepSync 1500 ;;;
      freshElements <- rescanScreen ;;
      match findMatch freshElements queryLower with
      | Some best => ret (Some best)
      | None => findAndTap_scroll n' queryLower
      end
  end.

Definition findAndTap (decision : ActionDecision) (elements : list UIElement)
  : M ActionResult :=
  if negb (query_given (d_query decision)) then
    ret {| success := false; message := "find_and_tap requires a query"; data := None |}
  else
    let query := default "" (d_query decision) in
    let queryLower := toLowerCase query in
    found <- match findMatch elements queryLower with
             | Some best => ret (Some best)
             | None => findAndTap_scroll 10 queryLower
             end ;;
    match found with
    | None =>
        let available :=
          slice0 15 (List.map el_text (List.filter (fun el => truthy (el_text el)) elements)) in
        ret {| success := false;
               message := "No element matching " +:+ dq +:+ query +:+ dq
                          +:+ " found after scrolling. Available: "
                          +:+ join ", " available;
               data := None |}
    | Some best =>
        let x := cx best in
        let y := cy best in
        tap x y ;;;
        ret {| success := true;
               message := "Found and tapped " +:+ dq +:+ el_text best +:+ dq +:+ " at ("
                          +:+ num_to_string x +:+ ", " +:+ num_to_string y +:+ ")";
               data := Some (el_text best) |}
    end.

(** *** Skill 5: compose_email *)

Definition TO_FIELD_PATTERN : re := Alts [LitI "to"; LitI "recipient"].
Definition SUBJECT_FIELD_PATTERN : re := LitI "subject".
Definition BODY_FIELD_PATTERN : re :=
  Alts [LitI "body"; LitI "compose_area"; LitI "compose_edit"; LitI "message_content"].

Definition TO_HINT_PATTERN : re :=
  Alts [Seq Bol (Seq (LitI "to") Eol); LitI "recipient";
        Seq (LitI "email") (Seq (Opt Dot) (LitI "address"))].
Definition SUBJECT_HINT_PATTERN : re := LitI "subject".
Definition BODY_HINT_PATTERN : re :=
  Alts [LitI "compose"; LitI "body"; LitI "message"; LitI "write"].

Definition findEmailField (editables : list UIElement) (idPattern hintPattern : re)
  : option UIElement :=
  match find_first (fun el => test idPattern (el_id el)) editables with
  | Some byId => Some byId
  | None =>
      match find_first (fun el => truthy (el_hint el) && test hintPattern (el_hint el))
                       editables with
      | Some byHint => Some byHint
      | None => find_first (fun el => test idPattern (el_text el)) editables
      end
  end.

Definition email_local (c : ascii) : bool :=
  is_word c || Ascii.eqb c "."%char || Ascii.eqb c "+"%char || Ascii.eqb c "-"%char.
Definition email_host (c : ascii) : bool :=
  is_word c || Ascii.eqb c "."%char || Ascii.eqb c "-"%char.

(** [/[\w.+-]+@[\w.-]+\.\w{2,}/] *)
Definition EMAIL_PATTERN : re :=
  Seq (Plus (Sym email_local))
      (Seq (Chr "@"%char)
           (Seq (Plus (Sym email_host))
                (Seq (Chr "."%char)
                     (Seq (Sym is_word) (Seq (Sym is_word) (Star (Sym is_word))))))).

Definition extractEmail (text : string) : option string := match0 EMAIL_PATTERN text.

Definition composeEmail (decision : ActionDecision) (elements : list UIElement)
  : M ActionResult :=
  let bodyContent := d_text decision in
  let emailAddress :=
    if negb (query_given (d_query decision)) && query_given bodyContent then
      match extractEmail (default "" bodyContent) with
      | Some extracted => Some extracted
      | None => d_query decision
      end
    else d_query decision in
  if negb (query_given emailAddress) then
    ret {| success := false;
           message := "compose_email requires query (email address). Example: {"
                      +:+ dq +:+ "action" +:+ dq +:+ ": " +:+ dq +:+ "compose_email" +:+ dq
                      +:+ ", " +:+ dq +:+ "query" +:+ dq +:+ ": " +:+ dq
                      +:+ "user@example.com" +:+ dq +:+ "}";
           data := None |}
  else
    let address := default "" emailAddress in
    runAdbCommand ["shell"; "am"; "start"; "-a"; "android.intent.action.SENDTO";
                   "-d"; "mailto:" +:+ address] ;;;
    sleepSync 2500 ;;;
    freshElements <- rescanScreen ;;
    let editables :=
      sort_by (fun a b => cy a - cy b)
              (List.filter (fun el => el_editable el && el_enabled el) freshElements) in
    match editables with
    | [] =>
        ret {| success := false;
               message := "Launched email compose but no editable fields appeared";
               data := None |}
    | first :: _ =>
        let bodyField :=
          match findEmailField editables BODY_FIELD_PATTERN BODY_HINT_PATTERN with
          | Some f => f
          | None => List.last editables first
          end in
        tap (cx bodyField) (cy bodyField) ;;;
        sleepSync 300 ;;;
        (if query_given bodyContent then
           safeClipboardSet (default "" bodyContent) ;;; sleepSync 200
         else ret tt) ;;;
        runAdbCommand ["shell"; "input"; "keyevent"; "279"] ;;;
        ret {| success := true;
               message := "Email compose opened to " +:+ address +:+ ", body pasted";
               data := None |}
    end.

(** *** Skill 6: like_nth_comment / verify_nth_comment_like *)

(** Integers from this bound on are not finite as doubles. *)
Definition NOT_FINITE_FROM : Z := 2 ^ 1024 - 2 ^ 970.

Definition parseNthCommentIndex (decision : ActionDecision) : Z :=
  let raw :=
    match d_query decision with
    | Some q => q
    | None => default "" (d_text decision)
    end in
  match match0 (Plus (Sym is_digit)) raw with
  | Some digits =>
      let n := parseInt digits in
      if (n <? NOT_FINITE_FROM) && (0 <? n) then n else 3
  | None => 3
  end.

(** [/\b\d[\d,]*\b/] *)
Definition FIRST_INT_PATTERN : re :=
  Seq WordB
      (Seq (Sym is_digit)
           (Seq (Star (Sym (fun c => is_digit c || Ascii.eqb c ","%char))) WordB)).

Definition parseFirstInt (text : string) : option Z :=
  match match0 FIRST_INT_PATTERN text with
  | None => None
  | Some m => Some (parseInt (replaceAll_char ","%char "" m))
  end.

(** The screen width and height, approximated from the elements. *)
Definition getScreenApprox (elements : list UIElement) : Z * Z :=
  fold_left
    (fun '(maxX, maxY) el =>
       let '(x, y) := el_center el in
       let '(w, h) := el_size el in
       (Z.max maxX (x + Z.max 0 (w / 2)), Z.max maxY (y + Z.max 0 (h / 2))))
    elements (1080, 2400).

Definition like_hay (el : UIElement) : string :=
  toLowerCase (el_text el +:+ " " +:+ el_id el +:+ " " +:+ el_hint el).

(** The comparison [x < screenWidth * 0.72] is [25 * x < 18 * screenWidth]
    on integers. *)
Definition isCommentLikeButton (el : UIElement) (screenWidth : Z) : bool :=
  let hay := like_hay el in
  if negb (includes hay "like") then false
  else if includes hay "video like" || includes hay "like video" || includes hay "repost"
  then false
  else if 25 * cx el <? 18 * screenWidth then false
  else if cy el <? 900 then false
  else if 2300 <? cy el then false
  else el_clickable el || String.eqb (el_action el) "tap"
       || test (LitI "like or undo like") (el_text el).

(** One pass of the row loop: a candidate joins the first row within 24
    px of it, replacing it when it lies further right, or opens a row. *)
Definition add_row (rows : list UIElement) (el : UIElement) : list UIElement :=
  match findIndex (fun r => Z.abs (cy r - cy el) <=? 24) rows with
  | None => rows ++ [el]
  | Some existingIdx =>
      match rows !! existingIdx with
      | Some r => if cx r <? cx el then <[existingIdx := el]> rows else rows
      | None => rows
      end
  end.

Definition collectCommentLikeRows (elements : list UIElement) : list UIElement :=
  let '(width, _) := getScreenApprox elements in
  let candidates :=
    sort_by (fun a b => or_num (cy a - cy b) (cx b - cx a))
            (List.filter (fun el => isCommentLikeButton el width) elements) in
  let rows := fold_left add_row candidates [] in
  sort_by (fun a b => cy a - cy b) rows.

Definition is_nearby (target el : UIElement) : bool :=
  if negb (truthy (el_text el)) then false
  else if 70 <? Z.abs (cy el - cy target) then false
  else if cx el <? cx target - 180 then false
  else if cx target + 40 <? cx el then false
  else true.

Fixpoint first_count (l : list UIElement) : option Z :=
  match l with
  | [] => None
  | el :: l' =>
      match parseFirstInt (el_text el) with
      | Some n => Some n
      | None => first_count l'
      end
  end.

Definition findNearbyCommentCount (elements : list UIElement) (target : UIElement)
  : option Z :=
  first_count (List.filter (is_nearby target) elements).

Definition json_num (o : option Z) : string :=
  match o with Some n => num_to_string n | None => "null" end.

Definition json_bool (b : bool) : string := if b then "true" else "false".

Definition key (name : string) : string := dq +:+ name +:+ dq +:+ ":".

Definition likeNthComment (decision : ActionDecision) (elements : list UIElement)
  : M ActionResult :=
  let index := parseNthCommentIndex decision in
  let rows := collectCommentLikeRows elements in
  if count rows <? index then
    ret {| success := false;
           message := "Only found " +:+ num_to_string (count rows)
                      +:+ " visible comment-like buttons; need " +:+ num_to_string index;
           data := None |}
  else
    match rows !! Z.to_nat (index - 1) with
    | None => fun w => (Throw, w)
    | Some target =>
        let x := cx target in
        let y := cy target in
        let countBefore := findNearbyCommentCount elements target in
        tap x y ;;;
        setLastAttempt {| la_index := index; la_y := y; la_x := x;
                          la_countBefore := countBefore |} ;;;
        ret {| success := true;
               message := "Tapped heart for visible comment #" +:+ num_to_string index
                          +:+ " at (" +:+ num_to_string x +:+ ", " +:+ num_to_string y +:+ ")";
               data := Some ("{" +:+ key "x" +:+ num_to_string x +:+ ","
                             +:+ key "y" +:+ num_to_string y +:+ ","
                             +:+ key "countBefore" +:+ json_num countBefore +:+ "}") |}
    end.

(** The row nearest to the y of the last attempt: the head of the rows
    sorted by distance. *)
Definition nearest_row (rows : list UIElement) (y : Z) : option (UIElement * Z) :=
  head (sort_by (fun a b => snd a - snd b)
                (List.map (fun row => (row, Z.abs (cy row - y))) rows)).

Definition attempt_for (last : option LikeAttempt) (index : Z) : option LikeAttempt :=
  match last with
  | Some a => if la_index a =? index then Some a else None
  | None => None
  end.

Definition verify_target (last : option LikeAttempt) (index : Z)
    (rows : list UIElement) (ordinal : UIElement) : UIElement :=
  match attempt_for last index with
  | Some a =>
      match nearest_row rows (la_y a) with
      | Some (row, dy) => if dy <=? 80 then row else ordinal
      | None => ordinal
      end
  | None => ordinal
  end.

Definition selectedLike_of (target : UIElement) : bool :=
  el_selected target || el_checked target
  || includes (like_hay target) "undo like" || includes (like_hay target) "liked".

Definition countChanged_of (last : option LikeAttempt) (index : Z) (countNow : option Z)
  : bool :=
  match attempt_for last index with
  | Some a =>
      match la_countBefore a, countNow with
      | Some before, Some now => negb (now =? before)
      | _, _ => false
      end
  | None => false
  end.

Definition verifyNthCommentLike (decision : ActionDecision) (elements : list UIElement)
  : M ActionResult :=
  let index := parseNthCommentIndex decision in
  let rows := collectCommentLikeRows elements in
  if count rows <? index then
    ret {| success := false;
           message := "Could not verify: only found " +:+ num_to_string (count rows)
                      +:+ " visible comment-like buttons; need " +:+ num_to_string index;
           data := None |}
  else
    match rows !! Z.to_nat (index - 1) with
    | None => fun w => (Throw, w)
    | Some ordinal =>
        last <- getLastAttempt ;;
        let target := verify_target last index rows ordinal in
        let countNow := findNearbyCommentCount elements target in
        let selectedLike := selectedLike_of target in
        let countChanged := countChanged_of last index countNow in
        let payload :=
          "{" +:+ key "selectedLike" +:+ json_bool selectedLike +:+ ","
          +:+ key "countNow" +:+ json_num countNow +:+ "}" in
        if selectedLike || countChanged then
          ret {| success := true;
                 message := "Comment #" +:+ num_to_string index +:+ " like verified ("
                            +:+ (if selectedLike then "selected" else "count changed") +:+ ")";
                 data := Some payload |}
        else
          ret {| success := false;
                 message := "Comment #" +:+ num_to_string index +:+ " like not confirmed yet";
                 data := Some payload |}
    end.

(** *** The dispatcher *)

Definition skill_of (decision : ActionDecision) : string :=
  match d_skill decision with
  | Some s => s
  | None => d_action decision
  end.

(** Routes a skill action to the appropriate skill function. *)
Definition executeSkill (decision : ActionDecision) (elements : list UIElement)
  : M ActionResult :=
  let skill := skill_of decision in
  if String.eqb skill "read_screen" then readScreen elements
  else if String.eqb skill "submit_message" then submitMessage elements
  else if String.eqb skill "copy_visible_text" then copyVisibleText decision elements
  else if String.eqb skill "wait_for_content" then waitForContent elements
  else if String.eqb skill "find_and_tap" then findAndTap decision elements
  else if String.eqb skill "compose_email" then composeEmail decision elements
  else if String.eqb skill "like_nth_comment" then likeNthComment decision elements
  else if String.eqb skill "verify_nth_comment_like" then verifyNthCommentLike decision elements
  else ret {| success := false; message := "Unknown skill: " +:+ skill; data := None |}.

End WithConfig.

(** The names [executeSkill] recognizes. *)
Definition skill_names : list string :=
  ["read_screen"; "submit_message"; "copy_visible_text"; "wait_for_content";
   "find_and_tap"; "compose_email"; "like_nth_comment"; "verify_nth_comment_like"].

End Skills.

(* ===================================================================== *)
(** ** Screen capture of the accessibility service (getScreenTree)        *)
(* ===================================================================== *)

Module A11y.

Section Capture.
(** The element type of the Android side. *)
Variable UIElement : Type.

(** The service and its window.  [windows] holds what the coming reads
    of [rootInActiveWindow] give, in order: [None] for a null root,
    [Some els] for a root on which [ScreenTreeBuilder.capture] yields
    [els]; the root is null once the list is used up.  [slept] records
    the delays waited, in order.  Recycling a root is not recorded. *)
Record Service : Type := {
  windows : list (option (list UIElement));
  lastScreenTree : list UIElement;
  slept : list Z
}.

Definition delays : list Z := [50; 100; 200; 300; 500].

Definition rootInActiveWindow (s : Service) : option (list UIElement) * Service :=
  match windows s with
  | [] => (None, s)
  | o :: rest =>
      (o, {| windows := rest; lastScreenTree := lastScreenTree s; slept := slept s |})
  end.

Definition delay (ms : Z) (s : Service) : Service :=
  {| windows := windows s; lastScreenTree := lastScreenTree s; slept := slept s ++ [ms] |}.

Definition set_last (els : list UIElement) (s : Service) : Service :=
  {| windows := windows s; lastScreenTree := els; slept := slept s |}.

Definition is_empty (els : list UIElement) : bool :=
  match els with [] => true | _ :: _ => false end.

(** The loop [for (delayMs in delays)] over the delays still to come;
    [lastDelay] is [delays.last()]. *)
Fixpoint getScreenTree_from (ds : list Z) (lastDelay : Z) (s : Service)
  : list UIElement * Service :=
  match ds with
  | [] => ([], s)
  | delayMs :: ds' =>
      match rootInActiveWindow s with
      | (Some elements, s1) =>
          if is_empty elements && (delayMs <? lastDelay) then
            getScreenTree_from ds' lastDelay (delay delayMs s1)
          else (elements, set_last elements s1)
      | (None, s1) => getScreenTree_from ds' lastDelay (delay delayMs s1)
      end
  end.

Definition getScreenTree (s : Service) : list UIElement * Service :=
  getScreenTree_from delays (List.last delays 0) s.

End Capture.

Arguments windows {UIElement} _.
Arguments lastScreenTree {UIElement} _.
Arguments slept {UIElement} _.
Arguments getScreenTree {UIElement} _.
Arguments getScreenTree_from {UIElement} _ _ _.

End A11y.

(* ===================================================================== *)
(** ** Voice capture sessions (ws/voice.ts)                               *)
(* ===================================================================== *)

Module Voice.

Definition Buffer : Type := list Byte.byte.

Definition byteLength (b : Buffer) : Z := Z.of_nat (length b).

(** A session object.  [partialTimer] is the handle of its interval
    timer, [None] for null. *)
Record VoiceSession : Type := {
  chunks : list Buffer;
  totalBytes : Z;
  partialTimer : option nat;
  lastPartialOffset : Z
}.

Definition PARTIAL_INTERVAL_MS : Z := 2000.
(** Minimum bytes before attempting first transcription. *)
Definition MIN_AUDIO_BYTES : Z := 3200.

(** Messages sent to a device socket. *)
Inductive message : Type :=
| transcript_partial (text : string)
| transcript_final (text : string).

(** What the callback of an interval timer has captured. *)
Record Closure : Type := {
  c_session : nat;
  c_ws : nat;
  c_deviceId : string;
  c_apiKey : string
}.

(** A handler suspended at [await transcribeAudio(pcm, key)], with the
    audio it sent: the timer callback of a session, or [handleVoiceSend]. *)
Inductive waiter : Type :=
| AwaitPartial (session : nat) (ws : nat) (deviceId : string) (pcm : Buffer)
| AwaitFinal (ws : nat) (deviceId : string) (pcm : Buffer).

(** The state of the module and of the runtime around it: the session
    objects by reference, the map [activeSessions] from device id to
    session, the interval timers that are set, the suspended handlers,
    the messages passed to [ws.send] (with the socket), and the console.
    [next_ref] and [next_timer] number the session objects and the timer
    handles created so far; neither is ever reused. *)
Record State : Type := {
  heap : gmap nat VoiceSession;
  next_ref : nat;
  activeSessions : gmap string nat;
  timers : gmap nat Closure;
  next_timer : nat;
  pending : list waiter;
  sent : list (nat * message);
  console : list string
}.

Definition init : State :=
  {| heap := ∅; next_ref := 0; activeSessions := ∅; timers := ∅; next_timer := 0;
     pending := []; sent := []; console := [] |}.

Definition set_heap (h : gmap nat VoiceSession) (s : State) : State :=
  {| heap := h; next_ref := next_ref s; activeSessions := activeSessions s;
     timers := timers s; next_timer := next_timer s;
     pending := pending s; sent := sent s; console := console s |}.
Definition set_active (a : gmap string nat) (s : State) : State :=
  {| heap := heap s; next_ref := next_ref s; activeSessions := a;
     timers := timers s; next_timer := next_timer s;
     pending := pending s; sent := sent s; console := console s |}.
Definition set_timers (t : gmap nat Closure) (s : State) : State :=
  {| heap := heap s; next_ref := next_ref s; activeSessions := activeSessions s;
     timers := t; next_timer := next_timer s;
     pending := pending s; sent := sent s; console := console s |}.
Definition set_pending (p : list waiter) (s : State) : State :=
  {| heap := heap s; next_ref := next_ref s; activeSessions := activeSessions s;
     timers := timers s; next_timer := next_timer s;
     pending := p; sent := sent s; console := console s |}.

(** A new session object. *)
Definition alloc (session : VoiceSession) (s : State) : nat * State :=
  (next_ref s,
   {| heap := <[next_ref s := session]> (heap s); next_ref := S (next_ref s);
      activeSessions := activeSessions s; timers := timers s;
      next_timer := next_timer s;
      pending := pending s; sent := sent s; console := console s |}).

(** [setInterval(callback, PARTIAL_INTERVAL_MS)] *)
Definition setInterval (c : Closure) (s : State) : nat * State :=
  (next_timer s,
   {| heap := heap s; next_ref := next_ref s; activeSessions := activeSessions s;
      timers := <[next_timer s := c]> (timers s); next_timer := S (next_timer s);
      pending := pending s; sent := sent s; console := console s |}).

(** [sendToDevice(ws, msg)] *)
Definition sendToDevice (ws : nat) (msg : message) (s : State) : State :=
  {| heap := heap s; next_ref := next_ref s; activeSessions := activeSessions s;
     timers := timers s; next_timer := next_timer s;
     pending := pending s; sent := sent s ++ [(ws, msg)]; console := console s |}.

Definition log (line : string) (s : State) : State :=
  {| heap := heap s; next_ref := next_ref s; activeSessions := activeSessions s;
     timers := timers s; next_timer := next_timer s;
     pending := pending s; sent := sent s; console := console s ++ [line] |}.

Definition clearInterval (t : nat) (s : State) : State := set_timers (delete t (timers s)) s.

(** The session registered for a device, with its reference. *)
Definition session_of (deviceId : string) (s : State) : option (nat * VoiceSession) :=
  match activeSessions s !! deviceId with
  | Some r =>
      match heap s !! r with
      | Some session => Some (r, session)
      | None => None
      end
  | None => None
  end.

Definition concatChunks (cs : list Buffer) : Buffer := concat cs.

(** Clean up and remove a voice session. *)
Definition cleanupSession (deviceId : string) (s : State) : State :=
  match session_of deviceId s with
  | None => s
  | Some (_, session) =>
      let s1 := match partialTimer session with
                | Some t => clearInterval t s
                | None => s
                end in
      set_active (delete deviceId (activeSessions s1)) s1
  end.

(** Start a voice session for a device: a new session object, registered
    for the device, and an interval timer whose callback holds on to it. *)
Definition handleVoiceStart (ws : nat) (deviceId groqApiKey : string) (s : State) : State :=
  let s1 := cleanupSession deviceId s in
  let '(r, s2) := alloc {| chunks := []; totalBytes := 0; partialTimer := None;
                           lastPartialOffset := 0 |} s1 in
  let s3 := set_active (<[deviceId := r]> (activeSessions s2)) s2 in
  let '(t, s4) := setInterval {| c_session := r; c_ws := ws; c_deviceId := deviceId;
                                 c_apiKey := groqApiKey |} s3 in
  set_heap (<[r := {| chunks := []; totalBytes := 0; partialTimer := Some t;
                      lastPartialOffset := 0 |}]> (heap s4)) s4.

(** The interval timer [t] fires: the callback up to its [await]. *)
Definition partialTick (t : nat) (s : State) : State :=
  match timers s !! t with
  | None => s
  | Some c =>
      match heap s !! c_session c with
      | None => s
      | Some session =>
          if totalBytes session <=? lastPartialOffset session then s
          else if totalBytes session <? MIN_AUDIO_BYTES then s
          else
            set_pending
              (pending s ++ [AwaitPartial (c_session c) (c_ws c) (c_deviceId c)
                                          (concatChunks (chunks session))]) s
      end
  end.

(** Append a decoded audio chunk to the session buffer. *)
Definition handleVoiceChunk (deviceId : string) (decoded : Buffer) (s : State) : State :=
  match session_of deviceId s with
  | None => log ("[Voice] Chunk received for unknown session: " +:+ deviceId) s
  | Some (r, session) =>
      set_heap
        (<[r := {| chunks := chunks session ++ [decoded];
                   totalBytes := totalBytes session + byteLength decoded;
                   partialTimer := partialTimer session;
                   lastPartialOffset := lastPartialOffset session |}]> (heap s)) s
  end.

(** [handleVoiceSend] up to its [await], or to its end when the audio is
    too short to transcribe. *)
Definition handleVoiceSend (ws : nat) (deviceId groqApiKey : string) (s : State) : State :=
  match session_of deviceId s with
  | None => log ("[Voice] Send requested for unknown session: " +:+ deviceId) s
  | Some (r, session) =>
      let s1 :=
        match partialTimer session with
        | Some t =>
            set_heap
              (<[r := {| chunks := chunks session; totalBytes := totalBytes session;
                         partialTimer := None;
                         lastPartialOffset := lastPartialOffset session |}]> (heap s))
              (clearInterval t s)
        | None => s
        end in
      if MIN_AUDIO_BYTES <=? totalBytes session then
        set_pending (pending s1 ++ [AwaitFinal ws deviceId (concatChunks (chunks session))]) s1
      else
        let s2 := sendToDevice ws (transcript_final "") s1 in
        set_active (delete deviceId (activeSessions s2)) s2
  end.

(** Cancel a voice session: stop the timer and discard all audio. *)
Definition handleVoiceCancel (deviceId : string) (s : State) : State :=
  cleanupSession deviceId s.

(** A suspended handler goes on with the outcome of [transcribeAudio]:
    [Some text], or [None] when the call failed. *)
Definition resume (k : waiter) (r : option string) (s : State) : State :=
  match k with
  | AwaitPartial ref ws deviceId _ =>
      match r with
      | Some text =>
          let s1 :=
            match heap s !! ref with
            | Some session =>
                set_heap
                  (<[ref := {| chunks := chunks session; totalBytes := totalBytes session;
                               partialTimer := partialTimer session;
                               lastPartialOffset := totalBytes session |}]> (heap s)) s
            | None => s
            end in
          if Js.truthy text then sendToDevice ws (transcript_partial text) s1 else s1
      | None => log ("[Voice] Partial transcription failed for " +:+ deviceId) s
      end
  | AwaitFinal ws deviceId _ =>
      let '(transcript, s1) :=
        match r with
        | Some text => (text, s)
        | None => ("", log ("[Voice] Final transcription failed for " +:+ deviceId) s)
        end in
      let s2 := sendToDevice ws (transcript_final transcript) s1 in
      set_active (delete deviceId (activeSessions s2)) s2
  end.

(** What can happen to the module: a message of a device is handled, a
    timer fires, or the [i]-th awaited transcription completes. *)
Inductive event : Type :=
| VoiceStart (ws : nat) (deviceId groqApiKey : string)
| VoiceChunk (deviceId : string) (decoded : Buffer)
| VoiceSend (ws : nat) (deviceId groqApiKey : string)
| VoiceCancel (deviceId : string)
| Tick (timer : nat)
| Resolve (i : nat) (r : option string).

Definition step (s : State) (e : event) : State :=
  match e with
  | VoiceStart ws d key => handleVoiceStart ws d key s
  | VoiceChunk d decoded => handleVoiceChunk d decoded s
  | VoiceSend ws d key => handleVoiceSend ws d key s
  | VoiceCancel d => handleVoiceCancel d s
  | Tick t => partialTick t s
  | Resolve i r =>
      match pending s !! i with
      | Some k => resume k r (set_pending (take i (pending s) ++ drop (S i) (pending s)) s)
      | None => s
      end
  end.

Definition run (s : State) (es : list event) : State := fold_left step es s.



End Voice.

(* ===================================================================== *)
(** ** Goal submission and admission (routes/goals.ts)                    *)
(* ===================================================================== *)

Module Goals.

(** A connected device of the session registry (ws/sessions.js): its
    connection id, its persistent id when it has one, and its owner. *)
Record Device : Type := {
  deviceId : string;
  persistentDeviceId : option string;
  userId : string
}.

(** The body of a submission; an empty [b_deviceId] or [b_goal] stands
    for a missing one, [None] for an absent optional field. *)
Record Body : Type := {
  b_deviceId : string;
  b_goal : string;
  llmProvider : option string;
  llmApiKey : option string;
  llmModel : option string;
  maxSteps : option Z
}.

Record LLMConfig : Type := {
  provider : string;
  apiKey : string;
  model : option string
}.

(** A row of the table [llm_config], as the query returns it. *)
Record LlmConfigRow : Type := {
  cfg_provider : string;
  cfg_apiKey : string;
  cfg_model : option string
}.

Record AgentLoopOptions : Type := {
  o_deviceId : string;
  o_persistentDeviceId : option string;
  o_userId : string;
  o_goal : string;
  o_llmConfig : LLMConfig;
  o_maxSteps : option Z;
  o_signal : nat
}.

(** An entry of [activeSessions]; [abort] names its AbortController. *)
Record Entry : Type := {
  sessionId : string;
  goal : string;
  abort : nat
}.

(** A running agent loop, that is the promise [runAgentLoop] returned:
    its options, the tracking key and connection id its completion
    handlers hold, and the session id the loop created for itself. *)
Record Loop : Type := {
  l_options : AgentLoopOptions;
  l_trackingKey : string;
  l_deviceId : string;
  l_sessionId : string
}.

(** A submission suspended at the query for the user's LLM config. *)
Record Suspended : Type := {
  p_rid : nat;
  p_user : string;
  p_body : Body;
  p_device : Device;
  p_trackingKey : string;
  p_sid : string
}.

Inductive response : Type :=
| Error (status : Z) (error : string)
| Conflict (status : Z) (error : string) (sessionId : string) (goal : string)
| Started (deviceId : string) (goal : string)
| Stopping.

(** The state of the route and of what surrounds it.  [connected] is the
    session registry; [responses] pairs each response with the number of
    the request it answers. *)
Record State : Type := {
  connected : list Device;
  LLM_PROVIDER : option string;
  LLM_API_KEY : option string;
  activeSessions : gmap string Entry;
  aborted : list nat;
  next_abort : nat;
  suspended : list Suspended;
  loops : list Loop;
  responses : list (nat * response);
  console : list string
}.

Definition init (devices : list Device) (envProvider envKey : option string) : State :=
  {| connected := devices; LLM_PROVIDER := envProvider; LLM_API_KEY := envKey;
     activeSessions := ∅; aborted := []; next_abort := 0; suspended := [];
     loops := []; responses := []; console := [] |}.

(** Modelled from the spec: the registry lookups of ws/sessions.js,
    lookup-by-connection-id and lookup-by-stable-id. *)
Definition getDevice (s : State) (id : string) : option Device :=
  List.find (fun d => String.eqb (deviceId d) id) (connected s).

Definition getDeviceByPersistentId (s : State) (id : string) : option Device :=
  List.find (fun d => match persistentDeviceId d with
                      | Some p => String.eqb p id
                      | None => false
                      end) (connected s).

(** Look up by connection ID first, then by persistent DB ID. *)
Definition lookup_device (s : State) (id : string) : option Device :=
  match getDevice s id with
  | Some d => Some d
  | None => getDeviceByPersistentId s id
  end.

Definition trackingKey (device : Device) : string :=
  default (deviceId device) (persistentDeviceId device).

Definition given (o : option string) : bool :=
  match o with Some x => Js.truthy x | None => false end.

Definition respond (rid : nat) (r : response) (s : State) : State :=
  {| connected := connected s; LLM_PROVIDER := LLM_PROVIDER s; LLM_API_KEY := LLM_API_KEY s;
     activeSessions := activeSessions s; aborted := aborted s; next_abort := next_abort s;
     suspended := suspended s; loops := loops s;
     responses := responses s ++ [(rid, r)]; console := console s |}.

Definition log (line : string) (s : State) : State :=
  {| connected := connected s; LLM_PROVIDER := LLM_PROVIDER s; LLM_API_KEY := LLM_API_KEY s;
     activeSessions := activeSessions s; aborted := aborted s; next_abort := next_abort s;
     suspended := suspended s; loops := loops s;
     responses := responses s; console := console s ++ [line] |}.

Definition set_active (a : gmap string Entry) (s : State) : State :=
  {| connected := connected s; LLM_PROVIDER := LLM_PROVIDER s; LLM_API_KEY := LLM_API_KEY s;
     activeSessions := a; aborted := aborted s; next_abort := next_abort s;
     suspended := suspended s; loops := loops s;
     responses := responses s; console := console s |}.

Definition set_suspended (l : list Suspended) (s : State) : State :=
  {| connected := connected s; LLM_PROVIDER := LLM_PROVIDER s; LLM_API_KEY := LLM_API_KEY s;
     activeSessions := activeSessions s; aborted := aborted s; next_abort := next_abort s;
     suspended := l; loops := loops s;
     responses := responses s; console := console s |}.

Definition set_loops (l : list Loop) (s : State) : State :=
  {| connected := connected s; LLM_PROVIDER := LLM_PROVIDER s; LLM_API_KEY := LLM_API_KEY s;
     activeSessions := activeSessions s; aborted := aborted s; next_abort := next_abort s;
     suspended := suspended s; loops := l;
     responses := responses s; console := console s |}.

Definition set_connected (l : list Device) (s : State) : State :=
  {| connected := l; LLM_PROVIDER := LLM_PROVIDER s; LLM_API_KEY := LLM_API_KEY s;
     activeSessions := activeSessions s; aborted := aborted s; next_abort := next_abort s;
     suspended := suspended s; loops := loops s;
     responses := responses s; console := console s |}.

(** [new AbortController()] *)
Definition newAbortController (s : State) : nat * State :=
  (next_abort s,
   {| connected := connected s; LLM_PROVIDER := LLM_PROVIDER s; LLM_API_KEY := LLM_API_KEY s;
      activeSessions := activeSessions s; aborted := aborted s;
      next_abort := S (next_abort s);
      suspended := suspended s; loops := loops s;
      responses := responses s; console := console s |}).

(** [controller.abort()] *)
Definition abort_controller (a : nat) (s : State) : State :=
  {| connected := connected s; LLM_PROVIDER := LLM_PROVIDER s; LLM_API_KEY := LLM_API_KEY s;
     activeSessions := activeSessions s; aborted := aborted s ++ [a];
     next_abort := next_abort s;
     suspended := suspended s; loops := loops s;
     responses := responses s; console := console s |}.

(** The end of [goals.post("/")], from the LLM config on: the loop is
    started, the session is tracked under a placeholder id until the
    loop settles, and the request is answered.  [sid] is the session id
    the started loop creates for itself. *)
Definition start_loop (p : Suspended) (llmCfg : LLMConfig) (s : State) : State :=
  let '(ac, s1) := newAbortController s in
  let options :=
    {| o_deviceId := deviceId (p_device p);
       o_persistentDeviceId := persistentDeviceId (p_device p);
       o_userId := p_user p;
       o_goal := b_goal (p_body p);
       o_llmConfig := llmCfg;
       o_maxSteps := maxSteps (p_body p);
       o_signal := ac |} in
  let s2 :=
    set_loops (loops s1 ++ [{| l_options := options; l_trackingKey := p_trackingKey p;
                               l_deviceId := deviceId (p_device p);
                               l_sessionId := p_sid p |}]) s1 in
  let sessionPlaceholder :=
    {| sessionId := "pending"; goal := b_goal (p_body p); abort := ac |} in
  let s3 := set_active (<[p_trackingKey p := sessionPlaceholder]> (activeSessions s2)) s2 in
  respond (p_rid p) (Started (b_deviceId (p_body p)) (b_goal (p_body p))) s3.

(** [goals.post("/")] up to its [await] on the database, or to its end
    when it answers before or the body carries the API key. *)
Definition post (rid : nat) (user : string) (body : Body) (sid : string) (s : State)
  : State :=
  if negb (Js.truthy (b_deviceId body)) || negb (Js.truthy (b_goal body)) then
    respond rid (Error 400 "deviceId and goal are required") s
  else
    match lookup_device s (b_deviceId body) with
    | None => respond rid (Error 404 "device not connected") s
    | Some device =>
        if negb (String.eqb (userId device) user) then
          respond rid (Error 403 "device does not belong to you") s
        else
          let key := trackingKey device in
          match activeSessions s !! key with
          | Some existing =>
              respond rid (Conflict 409 "agent already running on this device"
                                    (sessionId existing) (goal existing)) s
          | None =>
              let p := {| p_rid := rid; p_user := user; p_body := body;
                          p_device := device; p_trackingKey := key; p_sid := sid |} in
              if given (llmApiKey body) then
                start_loop p
                  {| provider := default (default "openai" (LLM_PROVIDER s))
                                         (llmProvider body);
                     apiKey := default "" (llmApiKey body);
                     model := llmModel body |} s
              else set_suspended (suspended s ++ [p]) s
          end
    end.

(** The suspended submission goes on with the rows of the query. *)
Definition post_resume (p : Suspended) (configs : list LlmConfigRow) (s : State) : State :=
  match configs with
  | cfg :: _ =>
      start_loop p
        {| provider := cfg_provider cfg;
           apiKey := cfg_apiKey cfg;
           model := match llmModel (p_body p) with
                    | Some m => Some m
                    | None => cfg_model cfg
                    end |} s
  | [] =>
      if given (LLM_API_KEY s) then
        start_loop p
          {| provider := default "openai" (LLM_PROVIDER s);
             apiKey := default "" (LLM_API_KEY s);
             model := llmModel (p_body p) |} s
      else
        respond (p_rid p)
          (Error 400 "No LLM provider configured. Set it up in the web dashboard Settings.") s
  end.

(** How a loop ends: its promise resolves with a result, or rejects. *)
Inductive settlement : Type :=
| Resolved (success : bool) (stepsUsed : Z)
| Rejected (err : string).

(** The completion handlers of the loop promise. *)
Definition loop_settled (l : Loop) (r : settlement) (s : State) : State :=
  let s1 := set_active (delete (l_trackingKey l) (activeSessions s)) s in
  match r with
  | Resolved ok steps =>
      log ("[Agent] Completed on " +:+ l_deviceId l +:+ ": "
           +:+ (if ok then "success" else "incomplete") +:+ " in "
           +:+ Js.num_to_string steps +:+ " steps (session " +:+ l_sessionId l +:+ ")") s1
  | Rejected err => log ("[Agent] Error on " +:+ l_deviceId l +:+ ": " +:+ err) s1
  end.

(** [goals.post("/stop")] *)
Definition stop (rid : nat) (user : string) (id : string) (s : State) : State :=
  if negb (Js.truthy id) then respond rid (Error 400 "deviceId is required") s
  else
    match lookup_device s id with
    | None => respond rid (Error 404 "device not connected") s
    | Some device =>
        if negb (String.eqb (userId device) user) then
          respond rid (Error 403 "device does not belong to you") s
        else
          match activeSessions s !! trackingKey device with
          | None => respond rid (Error 404 "no agent running on this device") s
          | Some active =>
              respond rid Stopping
                (log ("[Agent] Stop requested for device " +:+ id)
                     (abort_controller (abort active) s))
          end
    end.

Definition remove_nth {A} (i : nat) (l : list A) : list A := take i l ++ drop (S i) l.

(** What can happen: a request arrives, the database answers the [i]-th
    suspended submission, the [i]-th running loop settles, or the
    registry of connected devices changes. *)
Inductive event : Type :=
| Post (rid : nat) (user : string) (body : Body) (sid : string)
| DbReply (i : nat) (configs : list LlmConfigRow)
| LoopSettled (i : nat) (r : settlement)
| Stop (rid : nat) (user : string) (id : string)
| Registry (devices : list Device).

Definition step (s : State) (e : event) : State :=
  match e with
  | Post rid user body sid => post rid user body sid s
  | DbReply i configs =>
      match suspended s !! i with
      | Some p => post_resume p configs (set_suspended (remove_nth i (suspended s)) s)
      | None => s
      end
  | LoopSettled i r =>
      match loops s !! i with
      | Some l => loop_settled l r (set_loops (remove_nth i (loops s)) s)
      | None => s
      end
  | Stop rid user id => stop rid user id s
  | Registry devices => set_connected devices s
  end.

Definition run (s : State) (es : list event) : State := fold_left step es s.

(** The response to request [rid], if it has been answered. *)
Definition response_to (rid : nat) (s : State) : option response :=
  option_map snd (List.find (fun x => Nat.eqb (fst x) rid) (responses s)).

End Goals.

(* ===================================================================== *)
(** ** Pairing codes (routes/pairing.ts)                                  *)
(* ===================================================================== *)

Module Pairing.

(** A row of the table [pairing_code]; times are milliseconds. *)
Record Row : Type := {
  r_id : string;
  r_code : string;
  r_userId : string;
  r_expiresAt : Z
}.

Record Attempts : Type := {
  a_count : Z;
  a_resetAt : Z
}.

(** The table, the rate limiter's map and the environment. *)
Record State : Type := {
  pairingCode : list Row;
  claimAttempts : gmap string Attempts;
  WS_URL : option string
}.

Definition init (wsUrl : option string) : State :=
  {| pairingCode := []; claimAttempts := ∅; WS_URL := wsUrl |}.

Definition set_table (t : list Row) (s : State) : State :=
  {| pairingCode := t; claimAttempts := claimAttempts s; WS_URL := WS_URL s |}.

Definition set_attempts (m : gmap string Attempts) (s : State) : State :=
  {| pairingCode := pairingCode s; claimAttempts := m; WS_URL := WS_URL s |}.

Inductive response : Type :=
| Created (code : string) (expiresAt : Z)
| Status (paired : bool) (expired : option bool)
| Claimed (apiKey : string) (wsUrl : string)
| Error (status : Z) (error : string)
| Uncaught.                    (* the handler threw: status 500 *)

Definition isRateLimited (ip : string) (now : Z) (s : State) : bool * State :=
  match claimAttempts s !! ip with
  | Some entry =>
      if a_resetAt entry <? now then
        (false, set_attempts (<[ip := {| a_count := 1; a_resetAt := now + 60000 |}]>
                                (claimAttempts s)) s)
      else
        (5 <? a_count entry + 1,
         set_attempts (<[ip := {| a_count := a_count entry + 1;
                                  a_resetAt := a_resetAt entry |}]> (claimAttempts s)) s)
  | None =>
      (false, set_attempts (<[ip := {| a_count := 1; a_resetAt := now + 60000 |}]>
                              (claimAttempts s)) s)
  end.

(** The periodic clean-up of stale entries. *)
Definition cleanup (now : Z) (s : State) : State :=
  set_attempts (filter (fun kv => ¬ (a_resetAt (snd kv) < now)) (claimAttempts s)) s.

(** Modelled from the spec: the constraints of the table [pairing_code]
    (schema.ts), which the design document gives as [id] PRIMARY KEY and
    [code] UNIQUE; an insert that breaks one of them fails. *)
Definition insert_allowed (row : Row) (t : list Row) : bool :=
  forallb (fun r => negb (String.eqb (r_id r) (r_id row))
                    && negb (String.eqb (r_code r) (r_code row))) t.

(** The handler of [POST /pairing/create], run to its end; [n] is the
    six-digit number drawn and [uuid] the identifier drawn for the row. *)
Definition create (user : string) (now : Z) (n : Z) (uuid : string) (s : State)
  : response * State :=
  let t := List.filter (fun r => negb (String.eqb (r_userId r) user)) (pairingCode s) in
  let code := Js.num_to_string n in
  let expiresAt := now + 5 * 60000 in
  let row := {| r_id := uuid; r_code := code; r_userId := user; r_expiresAt := expiresAt |} in
  if insert_allowed row t then (Created code expiresAt, set_table (t ++ [row]) s)
  else (Uncaught, set_table t s).

(** The handler of [GET /pairing/status]. *)
Definition status (user : string) (now : Z) (s : State) : response :=
  match List.filter (fun r => String.eqb (r_userId r) user) (pairingCode s) with
  | [] => Status true None
  | row :: _ =>
      if r_expiresAt row <? now then Status false (Some true)
      else Status false (Some false)
  end.

(** [/^\d{6}$/] *)
Definition SIX_DIGITS : Js.re :=
  let d := Js.Sym Js.is_digit in
  Js.Seq Js.Bol (Js.Seq d (Js.Seq d (Js.Seq d (Js.Seq d (Js.Seq d (Js.Seq d Js.Eol)))))).

Definition valid_code (code : option string) : bool :=
  match code with
  | Some c => Js.truthy c && Js.test SIX_DIGITS c
  | None => false
  end.

(** The handler of [POST /pairing/claim], run to its end; [xff] and
    [xreal] are the two address headers, [code] the field of the body,
    and [key] the outcome of [auth.api.createApiKey]: the new key, or
    [None] when the call fails. *)
Definition claim (xff xreal : option string) (code : option string) (now : Z)
    (key : option string) (s : State) : response * State :=
  let ip := match xff with
            | Some a => a
            | None => default "unknown" xreal
            end in
  let '(limited, s1) := isRateLimited ip now s in
  if limited then (Error 429 "Too many attempts. Try again in a minute.", s1)
  else
    let code := option_map Js.trim code in
    if negb (valid_code code) then (Error 400 "Invalid code format", s1)
    else
      let c := default "" code in
      match List.filter (fun r => String.eqb (r_code r) c && (now <? r_expiresAt r))
                        (pairingCode s1) with
      | [] => (Error 400 "Invalid or expired code", s1)
      | row :: _ =>
          match key with
          | None => (Uncaught, s1)
          | Some k =>
              (Claimed k (default "wss://tunnel.droidclaw.ai" (WS_URL s1)),
               set_table (List.filter (fun r => negb (String.eqb (r_id r) (r_id row)))
                                      (pairingCode s1)) s1)
          end
      end.

(** [sessionMiddleware] (middleware/auth.ts).  [session] is what
    [auth.api.getSession] finds for the headers of the request: the id
    of the user of the session, or [None].  Without a session the answer
    is 401 and the handler is not run. *)
Definition sessionMiddleware (session : option string)
    (next : string -> State -> response * State) (s : State) : response * State :=
  match session with
  | None => (Error 401 "unauthorized", s)
  | Some user => next user s
  end.

(** A request to one of the three routes, with what its handler reads
    from outside: the clock, the number and the identifier that are
    drawn, the address headers and the body, the outcome of the key
    service. *)
Inductive request : Type :=
| PostCreate (now : Z) (n : Z) (uuid : string)
| GetStatus (now : Z)
| PostClaim (xff xreal : option string) (code : option string) (now : Z)
            (key : option string).

(** The router [pairing].  [authed] registers the middleware for every
    path, [authed.use("*", sessionMiddleware)], and is mounted at the
    root before [pub]: the middleware runs in front of the route of
    [pub] as well, and the claim handler is reached only by a request
    with a session. *)
Definition pairing (session : option string) (req : request) (s : State)
  : response * State :=
  sessionMiddleware session
    (fun user s =>
       match req with
       | PostCreate now n uuid => create user now n uuid s
       | GetStatus now => (status user now s, s)
       | PostClaim xff xreal code now key => claim xff xreal code now key s
       end) s.

(** What happens to the module when each request is handled to its end
    before the next one starts: a request, or the periodic clean-up. *)
Inductive event : Type :=
| Request (session : option string) (req : request)
| Cleanup (now : Z).

Definition step (s : State) (e : event) : State :=
  match e with
  | Request session req => snd (pairing session req s)
  | Cleanup now => cleanup now s
  end.

Definition run (s : State) (es : list event) : State := fold_left step es s.

(** *** Requests that overlap *)

(** A handler suspended at an [await] on the database or on the key
    service, with what it holds on to: [create] before its delete and
    before its insert, [status] before its select, [claim] before its
    select, before the creation of the key and before its delete. *)
Inductive waiter : Type :=
| AwaitCreateDelete (user : string) (now n : Z) (uuid : string)
| AwaitCreateInsert (row : Row)
| AwaitStatusSelect (user : string) (now : Z)
| AwaitClaimSelect (code : string) (now : Z) (key : option string)
| AwaitClaimKey (row : Row) (key : option string)
| AwaitClaimDelete (row : Row) (k : string).

(** The module with the handlers that are under way, each with the
    number of its request, and the answers given so far. *)
Record Server : Type := {
  db : State;
  waiting : list (nat * waiter);
  answers : list (nat * response)
}.

Definition serve_init (wsUrl : option string) : Server :=
  {| db := init wsUrl; waiting := []; answers := [] |}.

Definition answer (rid : nat) (r : response) (s : State) (srv : Server) : Server :=
  {| db := s; waiting := waiting srv; answers := answers srv ++ [(rid, r)] |}.

Definition suspend (rid : nat) (k : waiter) (s : State) (srv : Server) : Server :=
  {| db := s; waiting := waiting srv ++ [(rid, k)]; answers := answers srv |}.

(** A request arrives: the middleware, and the handler up to its first
    statement on the database. *)
Definition arrive (rid : nat) (session : option string) (req : request) (srv : Server)
  : Server :=
  match session with
  | None => answer rid (Error 401 "unauthorized") (db srv) srv
  | Some user =>
      match req with
      | PostCreate now n uuid =>
          suspend rid (AwaitCreateDelete user now n uuid) (db srv) srv
      | GetStatus now => suspend rid (AwaitStatusSelect user now) (db srv) srv
      | PostClaim xff xreal code now key =>
          let ip := match xff with
                    | Some a => a
                    | None => default "unknown" xreal
                    end in
          let '(limited, s1) := isRateLimited ip now (db srv) in
          if limited
          then answer rid (Error 429 "Too many attempts. Try again in a minute.") s1 srv
          else
            let code := option_map Js.trim code in
            if negb (valid_code code)
            then answer rid (Error 400 "Invalid code format") s1 srv
            else suspend rid (AwaitClaimSelect (default "" code) now key) s1 srv
      end
  end.

(** The statement a handler waits for is executed, and the handler goes
    on to its next statement or to its answer. *)
Definition proceed (rid : nat) (k : waiter) (srv : Server) : Server :=
  let s := db srv in
  match k with
  | AwaitCreateDelete user now n uuid =>
      let t := List.filter (fun r => negb (String.eqb (r_userId r) user)) (pairingCode s) in
      let row := {| r_id := uuid; r_code := Js.num_to_string n; r_userId := user;
                    r_expiresAt := now + 5 * 60000 |} in
      suspend rid (AwaitCreateInsert row) (set_table t s) srv
  | AwaitCreateInsert row =>
      if insert_allowed row (pairingCode s)
      then answer rid (Created (r_code row) (r_expiresAt row))
                  (set_table (pairingCode s ++ [row]) s) srv
      else answer rid Uncaught s srv
  | AwaitStatusSelect user now => answer rid (status user now s) s srv
  | AwaitClaimSelect c now key =>
      match List.filter (fun r => String.eqb (r_code r) c && (now <? r_expiresAt r))
                        (pairingCode s) with
      | [] => answer rid (Error 400 "Invalid or expired code") s srv
      | row :: _ => suspend rid (AwaitClaimKey row key) s srv
      end
  | AwaitClaimKey row key =>
      match key with
      | None => answer rid Uncaught s srv
      | Some k => suspend rid (AwaitClaimDelete row k) s srv
      end
  | AwaitClaimDelete row k =>
      answer rid (Claimed k (default "wss://tunnel.droidclaw.ai" (WS_URL s)))
             (set_table (List.filter (fun r => negb (String.eqb (r_id r) (r_id row)))
                                     (pairingCode s)) s) srv
  end.

(** What happens to the module when requests overlap: a request
    arrives, the [i]-th handler under way goes on by one statement, or
    the periodic clean-up runs. *)
Inductive activity : Type :=
| Arrive (rid : nat) (session : option string) (req : request)
| Proceed (i : nat)
| Sweep (now : Z).

Definition act (srv : Server) (a : activity) : Server :=
  match a with
  | Arrive rid session req => arrive rid session req srv
  | Proceed i =>
      match waiting srv !! i with
      | Some (rid, k) =>
          proceed rid k {| db := db srv;
                           waiting := take i (waiting srv) ++ drop (S i) (waiting srv);
                           answers := answers srv |}
      | None => srv
      end
  | Sweep now =>
      {| db := cleanup now (db srv); waiting := waiting srv; answers := answers srv |}
  end.

Definition serve (srv : Server) (acts : list activity) : Server := fold_left act acts srv.

End Pairing.

(* ===================================================================== *)
(** ** Concrete inputs for the examples                                   *)
(* ===================================================================== *)

(** A configuration and a device for the examples. *)
Definition cfg0 : Skills.Config :=
  {| Skills.SCREEN_DUMP_PATH := "/sdcard/window_dump.xml";
     Skills.LOCAL_DUMP_PATH := "window_dump.xml";
     Skills.SWIPE_DURATION_MS := "300";
     Skills.swipeUp := (540, 1800, 540, 600) |}.

Definition device0 (scr : list (option (list Skills.UIElement))) : Skills.World :=
  {| Skills.faults := []; Skills.screens := scr; Skills.trace := [];
     Skills.lastCommentLikeAttempt := None |}.

Definition element (id text : string) (x y : Z) (clickable : bool) (action : string)
  : Skills.UIElement :=
  {| Skills.el_id := id; Skills.el_text := text; Skills.el_hint := "";
     Skills.el_center := (x, y); Skills.el_size := (100, 60);
     Skills.el_enabled := true; Skills.el_clickable := clickable;
     Skills.el_longClickable := false; Skills.el_editable := false;
     Skills.el_checked := false; Skills.el_selected := false;
     Skills.el_action := action |}.

Definition decide_kind (kind : string) (query : option string) : Skills.ActionDecision :=
  {| Skills.d_action := kind; Skills.d_skill := None; Skills.d_query := query;
     Skills.d_text := None |}.

(** The device throws at none of the coming adb invocations. *)
Definition no_faults (w : Skills.World) : Prop :=
  Forall (fun b => b = false) (Skills.faults w).

(** The effects of one scroll step of a skill: the swipe, the settle
    delay, and the capture of the new screen. *)
Definition swipe_effect (cfg : Skills.Config) : Skills.effect :=
  let '(x1, y1, x2, y2) := Skills.swipeUp cfg in
  Skills.Adb ["shell"; "input"; "swipe";
              Js.num_to_string x1; Js.num_to_string y1;
              Js.num_to_string x2; Js.num_to_string y2;
              Skills.SWIPE_DURATION_MS cfg].

Definition capture_effects (cfg : Skills.Config) : list Skills.effect :=
  [Skills.Adb ["shell"; "uiautomator"; "dump"; Skills.SCREEN_DUMP_PATH cfg];
   Skills.Adb ["pull"; Skills.SCREEN_DUMP_PATH cfg; Skills.LOCAL_DUMP_PATH cfg]].

Definition scroll_effects (cfg : Skills.Config) : list Skills.effect :=
  swipe_effect cfg :: Skills.Sleep 1500 :: capture_effects cfg.

Definition tap_effect (x y : Z) : Skills.effect :=
  Skills.Adb ["shell"; "input"; "tap"; Js.num_to_string x; Js.num_to_string y].

Definition is_swipe (e : Skills.effect) : bool :=
  match e with
  | Skills.Adb (a :: b :: c :: _) =>
      String.eqb a "shell" && String.eqb b "input" && String.eqb c "swipe"
  | _ => false
  end.

(** *** Like verification, in the words of the specification *)

(** The row that verification examines.  When a like attempt with the
    same ordinal is recorded and the row nearest to the y-position it
    tapped lies within 80 px of it, that nearest row; otherwise the row
    at the ordinal. *)
Inductive relocated (last : option Skills.LikeAttempt) (index : Z)
    (rows : list Skills.UIElement) (target : Skills.UIElement) : Prop :=
| relocated_nearest (a : Skills.LikeAttempt) :
    last = Some a -> Skills.la_index a = index ->
    In target rows ->
    Z.abs (Skills.cy target - Skills.la_y a) <= 80 ->
    (forall row, In row rows ->
       Z.abs (Skills.cy target - Skills.la_y a) <= Z.abs (Skills.cy row - Skills.la_y a)) ->
    relocated last index rows target
| relocated_ordinal :
    rows !! Z.to_nat (index - 1) = Some target ->
    (forall a, last = Some a -> Skills.la_index a = index ->
       forall row, In row rows -> 80 < Z.abs (Skills.cy row - Skills.la_y a)) ->
    relocated last index rows target.

(** The element shows the like as set. *)
Definition liked_signal (target : Skills.UIElement) : Prop :=
  Skills.el_selected target = true
  \/ Skills.el_checked target = true
  \/ Js.includes (Skills.like_hay target) "undo like" = true
  \/ Js.includes (Skills.like_hay target) "liked" = true.

(** The numeric label near the element differs from the count recorded
    before the like, for that ordinal. *)
Definition count_differs (last : option Skills.LikeAttempt) (index : Z)
    (elements : list Skills.UIElement) (target : Skills.UIElement) : Prop :=
  exists a before now,
    last = Some a /\ Skills.la_index a = index
    /\ Skills.la_countBefore a = Some before
    /\ Skills.findNearbyCommentCount elements target = Some now
    /\ now <> before.

(** *** Screen capture: what an attempt finds *)

(** What the [i]-th read of the root gives: [None] for a null root. *)
Definition attempt {E} (s : A11y.Service E) (i : nat) : option (list E) :=
  match A11y.windows s !! i with
  | Some o => o
  | None => None
  end.

(** The attempt finds no element: a null root, or a root without
    elements. *)
Definition yields_nothing {E} (o : option (list E)) : Prop :=
  o = None \/ o = Some [].

(** *** Voice sessions: reachable states and their invariant *)

Definition voice_reachable (s : Voice.State) : Prop :=
  exists es, s = Voice.run Voice.init es.

(** The registry and the timers fit together: a registered session is
    an object of the heap, no object is registered for two devices, no
    timer handle is held by two objects, handles and references are
    below the counters, and the timer of a registered session is set
    and holds that session. *)
Record voice_wf (s : Voice.State) : Prop := {
  wf_registered : forall d r,
    Voice.activeSessions s !! d = Some r -> is_Some (Voice.heap s !! r);
  wf_refs : forall r session,
    Voice.heap s !! r = Some session -> (r < Voice.next_ref s)%nat;
  wf_handles : forall r session t,
    Voice.heap s !! r = Some session -> Voice.partialTimer session = Some t ->
    (t < Voice.next_timer s)%nat;
  wf_timers : forall t c,
    Voice.timers s !! t = Some c -> (t < Voice.next_timer s)%nat;
  wf_injective : forall d1 d2 r,
    Voice.activeSessions s !! d1 = Some r -> Voice.activeSessions s !! d2 = Some r ->
    d1 = d2;
  wf_own : forall r1 r2 session1 session2 t,
    Voice.heap s !! r1 = Some session1 -> Voice.heap s !! r2 = Some session2 ->
    Voice.partialTimer session1 = Some t -> Voice.partialTimer session2 = Some t ->
    r1 = r2;
  wf_live : forall d r session t,
    Voice.activeSessions s !! d = Some r -> Voice.heap s !! r = Some session ->
    Voice.partialTimer session = Some t ->
    exists c, Voice.timers s !! t = Some c /\ Voice.c_session c = r
}.


(** *** Voice sessions: a capture, interval by interval *)

(** The bytes of a list of chunks. *)
Definition bytes (cs : list Voice.Buffer) : Z :=
  fold_right (fun c n => Voice.byteLength c + n) 0 cs.




(** A chunk of 800 zero bytes. *)
Definition chunk800 : Voice.Buffer := repeat Byte.x00 800.

(** *** Goal submission: requests and their handling in one piece *)

(** The request names a connected device of the user, and carries a
    goal. *)
Definition targets (s : Goals.State) (body : Goals.Body) (user : string)
    (device : Goals.Device) : Prop :=
  Js.truthy (Goals.b_deviceId body) = true
  /\ Js.truthy (Goals.b_goal body) = true
  /\ Goals.lookup_device s (Goals.b_deviceId body) = Some device
  /\ Goals.userId device = user.

(** An LLM config can be built: from the body, from the rows the
    database returns, or from the environment. *)
Definition resolvable (s : Goals.State) (body : Goals.Body)
    (configs : list Goals.LlmConfigRow) : Prop :=
  Goals.given (Goals.llmApiKey body) = true
  \/ configs <> []
  \/ Goals.given (Goals.LLM_API_KEY s) = true.

(** A submission handled without another event in between: the request
    arrives and, when the handler waits for the database, the answer
    [configs] comes next. *)
Definition submission (s : Goals.State) (rid : nat) (user : string) (body : Goals.Body)
    (sid : string) (configs : list Goals.LlmConfigRow) : list Goals.event :=
  [Goals.Post rid user body sid; Goals.DbReply (length (Goals.suspended s)) configs].

(** What the registry holds for a started submission. *)
Definition placeholder (body : Goals.Body) (ac : nat) : Goals.Entry :=
  {| Goals.sessionId := "pending"; Goals.goal := Goals.b_goal body; Goals.abort := ac |}.

(** The event leaves the registration under [key] alone: it is not the
    settling of a loop tracked under [key], and not the answer of the
    database to a submission that passed the check for [key]. *)
Definition leaves_alone (key : string) (s : Goals.State) (e : Goals.event) : Prop :=
  match e with
  | Goals.LoopSettled i _ =>
      forall l, Goals.loops s !! i = Some l -> Goals.l_trackingKey l <> key
  | Goals.DbReply i _ =>
      forall p, Goals.suspended s !! i = Some p -> Goals.p_trackingKey p <> key
  | _ => True
  end.

Fixpoint leave_alone (key : string) (s : Goals.State) (es : list Goals.event) : Prop :=
  match es with
  | [] => True
  | e :: es' => leaves_alone key s e /\ leave_alone key (Goals.step s e) es'
  end.

(** *** Concrete requests *)

Definition pixel : Goals.Device :=
  {| Goals.deviceId := "conn-1"; Goals.persistentDeviceId := Some "dev-42";
     Goals.userId := "alice" |}.

Definition tablet : Goals.Device :=
  {| Goals.deviceId := "conn-2"; Goals.persistentDeviceId := None;
     Goals.userId := "bob" |}.

Definition goal_request (id goal : string) (key : option string) : Goals.Body :=
  {| Goals.b_deviceId := id; Goals.b_goal := goal; Goals.llmProvider := None;
     Goals.llmApiKey := key; Goals.llmModel := None; Goals.maxSteps := None |}.

(** *** Pairing: reachable states *)

(** The states of the table and of the rate limiter that the routes can
    reach, with requests that overlap or not. *)
Definition pairing_reachable (s : Pairing.State) : Prop :=
  exists wsUrl acts, s = Pairing.db (Pairing.serve (Pairing.serve_init wsUrl) acts).


(** The user has a row in the table. *)
Definition has_code (s : Pairing.State) (user : string) : Prop :=
  exists row, In row (Pairing.pairingCode s) /\ Pairing.r_userId row = user.

(** The event is a creation of a code by the user. *)
Definition creates_for (user : string) (e : Pairing.event) : Prop :=
  match e with
  | Pairing.Request (Some u) (Pairing.PostCreate _ _ _) => u = user
  | _ => False
  end.

(** The address the rate limiter counts a claim under. *)
Definition claim_ip (xff xreal : option string) : string :=
  match xff with
  | Some a => a
  | None => default "unknown" xreal
  end.


(** *** Concrete screens with like buttons *)

Definition heart (y : Z) : Skills.UIElement :=
  {| Skills.el_id := "com.app:id/like_btn"; Skills.el_text := "Like"; Skills.el_hint := "";
     Skills.el_center := (1000, y); Skills.el_size := (80, 80);
     Skills.el_enabled := true; Skills.el_clickable := true;
     Skills.el_longClickable := false; Skills.el_editable := false;
     Skills.el_checked := false; Skills.el_selected := false;
     Skills.el_action := "tap" |}.

Definition counter (y : Z) (text : string) : Skills.UIElement :=
  element "com.app:id/count" text 990 y false "read".

(** Three comment rows before the like, and the same rows, moved down
    by 10 px, after it: the count of the third row went from 7 to 8. *)
Definition comments_before : list Skills.UIElement :=
  [heart 1000; counter 1060 "12"; heart 1300; counter 1360 "1,204";
   heart 1600; counter 1660 "7"].

Definition comments_after : list Skills.UIElement :=
  [heart 1010; counter 1070 "12"; heart 1310; counter 1370 "1,204";
   heart 1610; counter 1670 "8"].

(** *** Skills: the order of the texts read_screen collects *)

(** The place at which a text first occurs in a list of texts: the
    length of the list when it does not occur. *)
Fixpoint first_place (t : string) (l : list string) : nat :=
  match l with
  | [] => 0
  | x :: l' => if String.eqb x t then 0 else S (first_place t l')
  end.

(** *** Skills: what a skill waited, and what copy_visible_text copies *)

(** The time slept in a trace, in milliseconds. *)
Definition slept_ms (t : list Skills.effect) : Z :=
  fold_right (fun e n => match e with
                         | Skills.Sleep ms => ms + n
                         | Skills.Adb _ => n
                         end) 0 t.

(** The text of the element holds the query, when one is given. *)
Definition holds_query (query : option string) (el : Skills.UIElement) : bool :=
  match query with
  | Some q =>
      if Js.truthy q
      then Js.includes (Js.toLowerCase (Skills.el_text el)) (Js.toLowerCase q)
      else true
  | None => true
  end.

(** What the next capture finds on a device without faults: nothing
    when no dump is left. *)
Definition next_screen (w : Skills.World) : list Skills.UIElement :=
  match Skills.screens w with
  | Some els :: _ => els
  | _ => []
  end.

(** The command that sets the clipboard. *)
Definition clipboard_effect (text : string) : Skills.effect :=
  Skills.Adb ["shell";
              "cmd clipboard set-text '" +:+ Js.replaceAll_char "'"%char "'\''" text +:+ "'"].


(** *** Voice sessions: the counters of a session *)

(** The counters of a session fit its buffer: [totalBytes] is the size
    of the chunks, and the offset of the last partial transcription
    lies within it. *)
Definition session_counts (session : Voice.VoiceSession) : Prop :=
  Voice.totalBytes session = bytes (Voice.chunks session)
  /\ 0 <= Voice.lastPartialOffset session <= Voice.totalBytes session.

(** The audio a suspended handler has sent for transcription. *)
Definition audio_of (k : Voice.waiter) : Voice.Buffer :=
  match k with
  | Voice.AwaitPartial _ _ _ pcm => pcm
  | Voice.AwaitFinal _ _ pcm => pcm
  end.

(** Every session object has fitting counters, and no transcription
    under way got less than the minimum of audio. *)
Definition voice_counts (s : Voice.State) : Prop :=
  (forall r session, Voice.heap s !! r = Some session -> session_counts session)
  /\ Forall (fun k => Voice.MIN_AUDIO_BYTES <= Voice.byteLength (audio_of k))
            (Voice.pending s).


(* ===================================================================== *)
(** ** The WAV container of the audio sent for transcription (ws/voice.ts) *)
(* ===================================================================== *)

Module Wav.

Definition Buffer : Type := Voice.Buffer.

Definition SAMPLE_RATE : Z := 16000.
Definition CHANNELS : Z := 1.
Definition BITS_PER_SAMPLE : Z := 16.

(** The byte of value [n mod 256]. *)
Definition byte_of (n : Z) : Byte.byte :=
  match Byte.of_N (Z.to_N (n mod 256)) with
  | Some b => b
  | None => Byte.x00
  end.

Definition value_of (b : Byte.byte) : Z := Z.of_N (Byte.to_N b).

(** The [k] low bytes of [v], the lowest first. *)
Fixpoint le_bytes (k : nat) (v : Z) : list Byte.byte :=
  match k with
  | O => []
  | S k' => byte_of v :: le_bytes k' (v / 256)
  end.

(** [Buffer.alloc(n)] *)
Definition alloc (n : nat) : Buffer := repeat Byte.x00 n.

(** The bytes of [buf] replaced by those of [bs], from the front and as
    far as both reach. *)
Fixpoint overwrite (bs : list Byte.byte) (buf : Buffer) : Buffer :=
  match bs, buf with
  | x :: bs', _ :: buf' => x :: overwrite bs' buf'
  | _, _ => buf
  end.

Fixpoint write_at (off : nat) (bs : list Byte.byte) (buf : Buffer) : Buffer :=
  match off, buf with
  | O, _ => overwrite bs buf
  | S off', b :: buf' => b :: write_at off' bs buf'
  | S _, [] => []
  end.

(** [buf.write(s, off)] for an ASCII string. *)
Definition write (s : string) (off : nat) (buf : Buffer) : Buffer :=
  write_at off (list_byte_of_string s) buf.

(** [buf.writeUInt32LE(value, off)] and [buf.writeUInt16LE(value, off)]:
    [None] stands for the RangeError thrown when the value or the
    offset is out of range. *)
Definition writeUIntLE (k : nat) (value : Z) (off : nat) (buf : Buffer) : option Buffer :=
  if (0 <=? value) && (value <? 256 ^ Z.of_nat k) && (off + k <=? length buf)%nat
  then Some (write_at off (le_bytes k value) buf)
  else None.

Definition writeUInt32LE : Z -> nat -> Buffer -> option Buffer := writeUIntLE 4.
Definition writeUInt16LE : Z -> nat -> Buffer -> option Buffer := writeUIntLE 2.

(** [source.copy(target, off)] *)
Definition copy (source : Buffer) (off : nat) (target : Buffer) : Buffer :=
  write_at off source target.

(** Create a 44-byte WAV header + PCM data buffer.  The two quotients
    are those of whole numbers of bytes for the sample formats in use,
    where the integer division is the division of the source. *)
Definition pcmToWav (pcm : Buffer) (sampleRate channels bitsPerSample : Z)
  : option Buffer :=
  let byteRate := (sampleRate * channels * bitsPerSample) / 8 in
  let blockAlign := (channels * bitsPerSample) / 8 in
  let dataSize := Z.of_nat (length pcm) in
  let headerSize := 44%nat in
  let buffer := alloc (headerSize + length pcm) in
  let buffer := write "RIFF" 0 buffer in
  buffer ← writeUInt32LE (36 + dataSize) 4 buffer;
  let buffer := write "WAVE" 8 buffer in
  let buffer := write "fmt " 12 buffer in
  buffer ← writeUInt32LE 16 16 buffer;
  buffer ← writeUInt16LE 1 20 buffer;
  buffer ← writeUInt16LE channels 22 buffer;
  buffer ← writeUInt32LE sampleRate 24 buffer;
  buffer ← writeUInt32LE byteRate 28 buffer;
  buffer ← writeUInt16LE blockAlign 32 buffer;
  buffer ← writeUInt16LE bitsPerSample 34 buffer;
  let buffer := write "data" 36 buffer in
  buffer ← writeUInt32LE dataSize 40 buffer;
  Some (copy pcm headerSize buffer).

(** The container [transcribeAudio] uploads for the audio [pcm]. *)
Definition wav_of (pcm : Buffer) : option Buffer :=
  pcmToWav pcm SAMPLE_RATE CHANNELS BITS_PER_SAMPLE.

(** Reading a header back: [buf.readUIntLE(off, k)] and
    [buf.toString("latin1", off, off + n)]. *)
Fixpoint le_value (bs : list Byte.byte) : Z :=
  match bs with
  | [] => 0
  | b :: bs' => value_of b + 256 * le_value bs'
  end.

Definition readUIntLE (k : nat) (off : nat) (buf : Buffer) : Z :=
  le_value (firstn k (skipn off buf)).

Definition readString (n : nat) (off : nat) (buf : Buffer) : string :=
  string_of_list_byte (firstn n (skipn off buf)).

End Wav.


(** *** Goal submission: the states the route can reach *)

Definition goals_reachable (s : Goals.State) : Prop :=
  exists devices envProvider envKey es,
    s = Goals.run (Goals.init devices envProvider envKey) es.

(** The abort signal a running loop was started with. *)
Definition signal_of (l : Goals.Loop) : nat := Goals.o_signal (Goals.l_options l).

(** The registry and the running loops fit together: an entry carries
    the placeholder id and belongs to a running loop that is tracked
    under its key, was started with its goal and holds the signal of
    its abort controller; no two running loops hold the same signal,
    and every signal was created. *)
Record goals_tracked (s : Goals.State) : Prop := {
  tracked_entry : forall key entry,
    Goals.activeSessions s !! key = Some entry ->
    Goals.sessionId entry = "pending"
    /\ exists l, In l (Goals.loops s) /\ Goals.l_trackingKey l = key
         /\ signal_of l = Goals.abort entry
         /\ Goals.o_goal (Goals.l_options l) = Goals.goal entry;
  tracked_created : forall l,
    In l (Goals.loops s) -> (signal_of l < Goals.next_abort s)%nat;
  tracked_signals : List.NoDup (List.map signal_of (Goals.loops s))
}.


(** *** Pairing: the rate limiter over several claims *)

(** The verdicts of the rate limiter for claims from one address at the
    given times, one after the other. *)
Fixpoint verdicts (ip : string) (nows : list Z) (s : Pairing.State) : list bool :=
  match nows with
  | [] => []
  | now :: rest =>
      fst (Pairing.isRateLimited ip now s)
      :: verdicts ip rest (snd (Pairing.isRateLimited ip now s))
  end.

(** The rows of a user. *)
Definition rows_of (user : string) (s : Pairing.State) : list Pairing.Row :=
  List.filter (fun r => String.eqb (Pairing.r_userId r) user) (Pairing.pairingCode s).


(* ===================================================================== *)
(** ** Hit testing of the accessibility service (findNodeAt)              *)
(* ===================================================================== *)

Module Nodes.

(** A node of the accessibility tree: its bounds on the screen as
    [(left, top, right, bottom)], the three flags that [findNodeAt]
    reads, and the children that [getChild] gives, in order; a child
    for which it gives null is skipped by the loop and left out here.
    Recycling a node is not recorded. *)
#[warnings="-register-all"] Inductive Node : Type :=
| mkNode (boundsInScreen : Z * Z * Z * Z)
         (isClickable isLongClickable isEditable : bool)
         (children : list Node).

Definition boundsInScreen (n : Node) : Z * Z * Z * Z :=
  match n with mkNode r _ _ _ _ => r end.
Definition isClickable (n : Node) : bool :=
  match n with mkNode _ c _ _ _ => c end.
Definition isLongClickable (n : Node) : bool :=
  match n with mkNode _ _ l _ _ => l end.
Definition isEditable (n : Node) : bool :=
  match n with mkNode _ _ _ e _ => e end.
Definition children (n : Node) : list Node :=
  match n with mkNode _ _ _ _ kids => kids end.

(** [android.graphics.Rect.contains(x, y)]: the rectangle is not empty
    and holds the point, the right and the lower edge excluded. *)
Definition contains (rect : Z * Z * Z * Z) (x y : Z) : bool :=
  let '(x1, y1, x2, y2) := rect in
  (x1 <? x2) && (y1 <? y2) && (x1 <=? x) && (x <? x2) && (y1 <=? y) && (y <? y2).

Fixpoint findNodeAtRecursive (node : Node) (x y : Z) {struct node} : option Node :=
  match node with
  | mkNode rect clickable longClickable editable kids =>
      if negb (contains rect x y) then None
      else
        match
          (fix loop (cs : list Node) : option Node :=
             match cs with
             | [] => None
             | child :: cs' =>
                 match findNodeAtRecursive child x y with
                 | Some found => Some found
                 | None => loop cs'
                 end
             end) kids
        with
        | Some found => Some found
        | None => if clickable || longClickable || editable then Some node else None
        end
  end.

(** [findNodeAt]; [root] is [rootInActiveWindow]. *)
Definition findNodeAt (root : option Node) (x y : Z) : option Node :=
  match root with
  | None => None
  | Some r => findNodeAtRecursive r x y
  end.

End Nodes.

(** *** Hit testing: the nodes under a point *)

(** The node can be tapped, pressed long or edited. *)
Definition actionable (n : Nodes.Node) : bool :=
  Nodes.isClickable n || Nodes.isLongClickable n || Nodes.isEditable n.

(** [under x y root n]: [n] is [root] or a descendant of it, and the
    bounds of every node from [root] down to [n] hold the point. *)
Inductive under (x y : Z) : Nodes.Node -> Nodes.Node -> Prop :=
| under_here (n : Nodes.Node) :
    Nodes.contains (Nodes.boundsInScreen n) x y = true -> under x y n n
| under_child (root child n : Nodes.Node) :
    Nodes.contains (Nodes.boundsInScreen root) x y = true ->
    In child (Nodes.children root) ->
    under x y child n ->
    under x y root n.


(** *** Voice sessions: the audio of one device among other events *)

(** The chunks that the events bring for the device, in order. *)
Fixpoint chunks_for (d : string) (es : list Voice.event) : list Voice.Buffer :=
  match es with
  | [] => []
  | Voice.VoiceChunk d' decoded :: es' =>
      if String.eqb d' d then decoded :: chunks_for d es' else chunks_for d es'
  | _ :: es' => chunks_for d es'
  end.

(** The event is not the start, the end or the cancellation of a
    session of the device. *)
Definition keeps_session (d : string) (e : Voice.event) : Prop :=
  match e with
  | Voice.VoiceStart _ d' _ => d' <> d
  | Voice.VoiceSend _ d' _ => d' <> d
  | Voice.VoiceCancel d' => d' <> d
  | _ => True
  end.

(** The suspended handler is a [voice_send] for the device. *)
Definition awaits_final_for (d : string) (k : Voice.waiter) : Prop :=
  match k with
  | Voice.AwaitFinal _ d' _ => d' = d
  | Voice.AwaitPartial _ _ _ _ => False
  end.

(** The device has a session that holds the chunks [cs], and no
    [voice_send] for the device is under way. *)
Definition recording_chunks (d : string) (cs : list Voice.Buffer) (s : Voice.State) : Prop :=
  voice_wf s
  /\ (exists r session,
        Voice.activeSessions s !! d = Some r /\ Voice.heap s !! r = Some session
        /\ Voice.chunks session = cs)
  /\ Forall (fun k => ~ awaits_final_for d k) (Voice.pending s).


(** *** Voice sessions: a timer left behind *)

(** The timer [t] is set, with the callback [c], and is not the timer
    of a registered session. *)
Definition orphaned (t : nat) (c : Voice.Closure) (s : Voice.State) : Prop :=
  Voice.timers s !! t = Some c
  /\ (t < Voice.next_timer s)%nat
  /\ forall d r session,
       Voice.session_of d s = Some (r, session) -> Voice.partialTimer session <> Some t.


(** *** Pairing: creations that overlap *)

(** The creations of a user that have run their delete and wait for
    their insert. *)
Definition inserting (user : string) (srv : Pairing.Server) : nat :=
  length (List.filter
            (fun w => match snd w with
                      | Pairing.AwaitCreateInsert row =>
                          String.eqb (Pairing.r_userId row) user
                      | _ => false
                      end) (Pairing.waiting srv)).

(** From the next activity on, no more than [k] creations of the user
    wait for their insert at any time. *)
Fixpoint overlap_bounded (user : string) (k : nat) (srv : Pairing.Server)
    (acts : list Pairing.activity) : Prop :=
  match acts with
  | [] => True
  | a :: acts' =>
      (inserting user (Pairing.act srv a) <= k)%nat
      /\ overlap_bounded user k (Pairing.act srv a) acts'
  end.

(** A request handled without anything in between: it arrives, and its
    handler runs through its statements, three at most. *)
Definition handled (rid : nat) (session : option string) (req : Pairing.request)
    (srv : Pairing.Server) : list Pairing.activity :=
  Pairing.Arrive rid session req
  :: repeat (Pairing.Proceed (length (Pairing.waiting srv))) 3.


(* ===================================================================== *)
(** * Properties                                                          *)
(* ===================================================================== *)

(** ** Sorting and filtering *)

Section ListFacts.
Context {A : Type}.
Implicit Types (l : list A) (x y : A).

Lemma insert_by_In cmp x y l : In y (Js.insert_by cmp x l) <-> y = x \/ In y l.
Proof.
  induction l as [|z l IH]; simpl.
  - intuition.
  - destruct (cmp x z <=? 0); simpl; [intuition|].
    rewrite IH. intuition.
Qed.

Lemma sort_by_In cmp y l : In y (Js.sort_by cmp l) <-> In y l.
Proof.
  induction l as [|z l IH]; simpl; [reflexivity|].
  rewrite insert_by_In, IH. intuition.
Qed.

Lemma sort_by_nil cmp l : Js.sort_by cmp l = [] -> l = [].
Proof.
  destruct l as [|z l]; [reflexivity|]. intros H.
  assert (In z (Js.sort_by cmp (z :: l))) as Hin by (apply sort_by_In; left; reflexivity).
  rewrite H in Hin. destruct Hin.
Qed.

Lemma filter_none (p : A -> bool) l :
  (forall x, In x l -> p x = false) -> List.filter p l = [].
Proof.
  induction l as [|z l IH]; simpl; intros H; [reflexivity|].
  rewrite (H z) by (left; reflexivity). apply IH. intros x Hx. apply H. right. exact Hx.
Qed.

Lemma filter_some (p : A -> bool) l x :
  In x l -> p x = true -> List.filter p l <> [].
Proof.
  intros Hin Hp Hnil.
  assert (In x (List.filter p l)) as H by (apply filter_In; split; assumption).
  rewrite Hnil in H. destruct H.
Qed.

End ListFacts.

(** ** The skill dispatcher *)

Section Dispatch.
Import Js Skills.
Variable cfg : Config.

Lemma eqb_name_false (s name : string) :
  ~ In s skill_names -> In name skill_names -> String.eqb s name = false.
Proof.
  intros Hs Hname. destruct (String.eqb_spec s name) as [->|]; [contradiction|reflexivity].
Qed.

(** C8.  A decision whose kind is none of the recognized skill names is
    answered, without any effect on the device and without throwing, by
    a result with [success = false] whose message names the kind. *)
Theorem executeSkill_unknown_kind (decision : ActionDecision)
    (elements : list UIElement) (w : World) :
  ~ In (skill_of decision) skill_names ->
  executeSkill cfg decision elements w =
  (Ok {| success := false;
         message := "Unknown skill: " +:+ skill_of decision;
         data := None |}, w).
Proof.
  intros Hunknown. unfold executeSkill.
  repeat (rewrite eqb_name_false; [|exact Hunknown|simpl; tauto]).
  reflexivity.
Qed.

End Dispatch.

Lemma executeSkill_unknown_kind_witness :
  Skills.executeSkill cfg0 (decide_kind "teleport" None) [] (device0 []) =
  (Skills.Ok {| Skills.success := false;
                Skills.message := "Unknown skill: teleport";
                Skills.data := None |}, device0 []).
Proof.
  apply (executeSkill_unknown_kind cfg0 (decide_kind "teleport" None) [] (device0 [])).
  simpl. intros H. repeat (destruct H as [H|H]; [discriminate H|]). exact H.
Defined.

(** ** submit_message *)

Section SubmitMessage.
Import Js Skills.
Variable cfg : Config.

Lemma submit_candidates_none (elements : list UIElement) :
  (forall el, In el elements -> el_enabled el && el_clickable el = false) ->
  (forall el, In el elements -> is_send_candidate el = false) ->
  submit_candidates elements = [].
Proof.
  intros Hclick Hsend. unfold submit_candidates.
  rewrite (filter_none is_send_candidate) by exact Hsend.
  rewrite (filter_none (fun el => el_enabled el && el_clickable el)) by exact Hclick.
  reflexivity.
Qed.

(** C5, amended.  When no element is both enabled and clickable, and no
    enabled element with action "tap" carries a send-like text or id,
    [submitMessage] issues no command and returns [success = false] with
    a message that names the cause. *)
Theorem submitMessage_no_button (elements : list UIElement) (w : World) :
  (forall el, In el elements -> el_enabled el && el_clickable el = false) ->
  (forall el, In el elements -> is_send_candidate el = false) ->
  submitMessage cfg elements w =
  (Ok {| success := false;
         message := "Could not find a Send/Submit button on screen";
         data := None |}, w).
Proof.
  intros Hclick Hsend. unfold submitMessage.
  rewrite submit_candidates_none by assumption. reflexivity.
Qed.

End SubmitMessage.

(** An enabled element that is not clickable but whose action is "tap". *)
Lemma submitMessage_no_button_witness :
  Skills.submitMessage cfg0
    [element "com.chat:id/title" "Chat" 540 120 false "read";
     element "com.chat:id/attach" "Attach" 80 2200 false "tap"] (device0 []) =
  (Skills.Ok {| Skills.success := false;
                Skills.message := "Could not find a Send/Submit button on screen";
                Skills.data := None |}, device0 []).
Proof.
  apply (submitMessage_no_button cfg0).
  - intros el [<-|[<-|[]]]; reflexivity.
  - intros el [<-|[<-|[]]]; reflexivity.
Defined.

(** C5 as stated fails: a list without any enabled and clickable element,
    on which [submitMessage] taps and reports success. *)
Lemma submitMessage_taps_tap_action :
  let elements := [element "com.chat:id/send" "Send" 1000 2200 false "tap"] in
  List.filter (fun el => Skills.el_enabled el && Skills.el_clickable el) elements = []
  /\ exists r w',
       Skills.submitMessage cfg0 elements (device0 []) = (Skills.Ok r, w')
       /\ Skills.success r = true
       /\ In (Skills.Adb ["shell"; "input"; "tap"; "1000"; "2200"]) (Skills.trace w').
Proof.
  split; [reflexivity|].
  eexists. eexists. split; [vm_compute; reflexivity|]. split; [reflexivity|].
  simpl. left. reflexivity.
Qed.

(** ** The device under a skill *)

Section DeviceSteps.
Import Js Skills.
Variable cfg : Config.

Lemma runAdbCommand_ok (args : list string) (w : World) :
  no_faults w ->
  exists w', runAdbCommand args w = (Ok tt, w')
    /\ trace w' = trace w ++ [Adb args]
    /\ screens w' = screens w
    /\ lastCommentLikeAttempt w' = lastCommentLikeAttempt w
    /\ no_faults w'.
Proof.
  unfold no_faults, runAdbCommand. intros Hok. simpl.
  destruct (faults w) as [|b fs] eqn:Hf.
  - eexists. split; [reflexivity|]. simpl. rewrite Hf. repeat split. constructor.
  - inversion Hok as [|? ? Hb Hfs]; subst b.
    eexists. split; [reflexivity|]. simpl. repeat split. exact Hfs.
Qed.

Lemma sleepSync_ok (ms : Z) (w : World) :
  no_faults w ->
  exists w', sleepSync ms w = (Ok tt, w')
    /\ trace w' = trace w ++ [Sleep ms]
    /\ screens w' = screens w
    /\ lastCommentLikeAttempt w' = lastCommentLikeAttempt w
    /\ no_faults w'.
Proof.
  intros Hok. eexists. split; [reflexivity|]. simpl. repeat split. exact Hok.
Qed.

Lemma swipe_up_ok (w : World) :
  no_faults w ->
  exists w', swipe_up cfg w = (Ok tt, w')
    /\ trace w' = trace w ++ [swipe_effect cfg]
    /\ screens w' = screens w
    /\ lastCommentLikeAttempt w' = lastCommentLikeAttempt w
    /\ no_faults w'.
Proof.
  intros Hok. unfold swipe_up, swipe_effect.
  destruct (swipeUp cfg) as [[[x1 y1] x2] y2]. apply runAdbCommand_ok. exact Hok.
Qed.

(** A capture that no fault disturbs returns the elements of the next
    dump. *)
Lemma rescanScreen_ok (w : World) (o : option (list UIElement))
    (rest : list (option (list UIElement))) :
  no_faults w -> screens w = o :: rest ->
  exists w', rescanScreen cfg w = (Ok (default [] o), w')
    /\ trace w' = trace w ++ capture_effects cfg
    /\ screens w' = rest
    /\ lastCommentLikeAttempt w' = lastCommentLikeAttempt w
    /\ no_faults w'.
Proof.
  intros Hok Hscr. unfold rescanScreen, bind, catch.
  destruct (runAdbCommand_ok ["shell"; "uiautomator"; "dump"; SCREEN_DUMP_PATH cfg] w Hok)
    as (w1 & -> & Ht1 & Hs1 & Hl1 & Hok1).
  destruct (runAdbCommand_ok ["pull"; SCREEN_DUMP_PATH cfg; LOCAL_DUMP_PATH cfg] w1 Hok1)
    as (w2 & -> & Ht2 & Hs2 & Hl2 & Hok2).
  unfold ret, readDump. rewrite Hs2, Hs1, Hscr.
  destruct o as [els|]; (eexists; split; [reflexivity|]); simpl;
    rewrite Ht2, Ht1, Hl2, Hl1, <- app_assoc; repeat split; exact Hok2.
Qed.

End DeviceSteps.

(** ** find_and_tap *)

Section FindAndTap.
Import Js Skills.
Variable cfg : Config.

Lemma findMatch_none (elements : list UIElement) (q : string) :
  (forall el, In el elements -> includes (toLowerCase (el_text el)) q = false) ->
  findMatch elements q = None.
Proof.
  intros Hno. unfold findMatch.
  rewrite (filter_none (text_matches q)); [reflexivity|].
  intros el Hel. unfold text_matches. rewrite (Hno el Hel). apply andb_false_r.
Qed.

Lemma includes_empty_text (q : string) :
  truthy q = true -> includes (toLowerCase "") q = false.
Proof. destruct q; [discriminate|reflexivity]. Qed.

(** The best match is one of the elements and its text holds the query. *)
Lemma findMatch_some (elements : list UIElement) (q : string) :
  truthy q = true ->
  (exists el, In el elements /\ includes (toLowerCase (el_text el)) q = true) ->
  exists best, findMatch elements q = Some best
    /\ In best elements
    /\ includes (toLowerCase (el_text best)) q = true.
Proof.
  intros Hq (el & Hin & Hinc). unfold findMatch.
  set (matches := List.filter (text_matches q) elements).
  set (scored := List.map (fun e => (e, match_score q e)) matches).
  assert (text_matches q el = true) as Hm.
  { unfold text_matches. rewrite Hinc, andb_true_r.
    destruct (el_text el) eqn:Ht; [|reflexivity].
    rewrite includes_empty_text in Hinc by exact Hq. discriminate. }
  destruct (sort_by (fun a b => snd b - snd a) scored) as [|best tl] eqn:Hsort.
  - apply sort_by_nil in Hsort. apply map_eq_nil in Hsort.
    exfalso. exact (filter_some _ _ _ Hin Hm Hsort).
  - exists (fst best). split; [reflexivity|].
    assert (In best scored) as Hb.
    { apply (sort_by_In (fun a b => snd b - snd a)). rewrite Hsort. left. reflexivity. }
    apply in_map_iff in Hb. destruct Hb as (e & <- & He). simpl.
    apply filter_In in He. destruct He as [He Hme]. split; [exact He|].
    unfold text_matches in Hme. apply andb_true_iff in Hme. tauto.
Qed.

(** Scrolling finds the match on the first screen that has one. *)
Lemma findAndTap_scroll_hit (q : string) (misses : list (list UIElement))
    (screen : list UIElement) (best : UIElement)
    (rest : list (option (list UIElement))) :
  forall (n : nat) (w : World),
  (length misses < n)%nat ->
  Forall (fun els => findMatch els q = None) misses ->
  findMatch screen q = Some best ->
  screens w = List.map Some misses ++ Some screen :: rest ->
  no_faults w ->
  exists w', findAndTap_scroll cfg n q w = (Ok (Some best), w')
    /\ trace w' = trace w ++ concat (repeat (scroll_effects cfg) (S (length misses)))
    /\ lastCommentLikeAttempt w' = lastCommentLikeAttempt w
    /\ no_faults w'.
Proof.
  induction misses as [|m misses IH]; intros n w Hn Hmiss Hhit Hscr Hok.
  - destruct n as [|n]; [simpl in Hn; lia|]. simpl in Hscr |- *. unfold bind.
    destruct (swipe_up_ok cfg w Hok) as (w1 & -> & Ht1 & Hs1 & Hl1 & Hok1).
    destruct (sleepSync_ok 1500 w1 Hok1) as (w2 & -> & Ht2 & Hs2 & Hl2 & Hok2).
    rewrite <- Hs1, <- Hs2 in Hscr.
    destruct (rescanScreen_ok cfg w2 _ _ Hok2 Hscr) as (w3 & -> & Ht3 & Hs3 & Hl3 & Hok3).
    simpl. rewrite Hhit. exists w3. split; [reflexivity|].
    rewrite Ht3, Ht2, Ht1, Hl3, Hl2, Hl1. unfold scroll_effects. simpl.
    rewrite <- !app_assoc. repeat split. exact Hok3.
  - destruct n as [|n]; [simpl in Hn; lia|]. simpl in Hscr |- *. unfold bind.
    destruct (swipe_up_ok cfg w Hok) as (w1 & -> & Ht1 & Hs1 & Hl1 & Hok1).
    destruct (sleepSync_ok 1500 w1 Hok1) as (w2 & -> & Ht2 & Hs2 & Hl2 & Hok2).
    rewrite <- Hs1, <- Hs2 in Hscr.
    destruct (rescanScreen_ok cfg w2 _ _ Hok2 Hscr) as (w3 & -> & Ht3 & Hs3 & Hl3 & Hok3).
    pose proof (Forall_inv Hmiss) as Hm. simpl in Hm.
    pose proof (Forall_inv_tail Hmiss) as Hmiss'. simpl. rewrite Hm.
    destruct (IH n w3) as (w4 & -> & Ht4 & Hl4 & Hok4);
      [simpl in Hn; lia|exact Hmiss'|exact Hhit|exact Hs3|exact Hok3|].
    exists w4. split; [reflexivity|].
    rewrite Ht4, Ht3, Ht2, Ht1, Hl4, Hl3, Hl2, Hl1. unfold scroll_effects at 2. simpl.
    rewrite <- !app_assoc. repeat split. exact Hok4.
Qed.

(** C3.  With the query "Settings", when neither the screen handed in
    nor the screen captured after the first scroll holds a text that
    contains "settings" and the screen captured after the second scroll
    does, [findAndTap] succeeds: it taps the centre of the best match of
    that third screen, after exactly two swipes. *)
Theorem findAndTap_settings_third_screen (decision : ActionDecision)
    (obs1 obs2 obs3 : list UIElement) (rest : list (option (list UIElement)))
    (w : World) :
  d_query decision = Some "Settings" ->
  (forall el, In el obs1 -> includes (toLowerCase (el_text el)) "settings" = false) ->
  (forall el, In el obs2 -> includes (toLowerCase (el_text el)) "settings" = false) ->
  (exists el, In el obs3 /\ includes (toLowerCase (el_text el)) "settings" = true) ->
  screens w = Some obs2 :: Some obs3 :: rest ->
  no_faults w ->
  exists best w',
    In best obs3
    /\ includes (toLowerCase (el_text best)) "settings" = true
    /\ findMatch obs3 "settings" = Some best
    /\ findAndTap cfg decision obs1 w =
       (Ok {| success := true;
              message := "Found and tapped " +:+ dq +:+ el_text best +:+ dq +:+ " at ("
                         +:+ num_to_string (cx best) +:+ ", "
                         +:+ num_to_string (cy best) +:+ ")";
              data := Some (el_text best) |}, w')
    /\ trace w' = trace w ++ scroll_effects cfg ++ scroll_effects cfg
                          ++ [tap_effect (cx best) (cy best)]
    /\ length (List.filter is_swipe (scroll_effects cfg ++ scroll_effects cfg)) = 2%nat.
Proof.
  intros Hquery Hobs1 Hobs2 Hobs3 Hscr Hok.
  destruct (findMatch_some obs3 "settings" eq_refl Hobs3) as (best & Hbest & Hin & Hinc).
  destruct (findAndTap_scroll_hit "settings" [obs2] obs3 best rest 10 w)
    as (w1 & Hscroll & Ht1 & Hl1 & Hok1);
    [simpl; lia|constructor; [apply findMatch_none; exact Hobs2|constructor]
    |exact Hbest|exact Hscr|exact Hok|].
  destruct (runAdbCommand_ok
              ["shell"; "input"; "tap"; num_to_string (cx best); num_to_string (cy best)]
              w1 Hok1) as (w2 & Htap & Ht2 & Hs2 & Hl2 & Hok2).
  exists best, w2. repeat split; [exact Hin|exact Hinc|exact Hbest| | |].
  - unfold findAndTap. rewrite Hquery.
    change (negb (query_given (Some "Settings"))) with false. cbv iota.
    change (toLowerCase (default "" (Some "Settings"))) with "settings".
    rewrite (findMatch_none obs1 "settings" Hobs1). unfold bind at 1. cbv beta.
    rewrite Hscroll. unfold bind, tap. rewrite Htap. reflexivity.
  - rewrite Ht2, Ht1.
    change (concat (repeat (scroll_effects cfg) (S (length [obs2]))))
      with (scroll_effects cfg ++ scroll_effects cfg ++ []).
    rewrite app_nil_r, <- !app_assoc. reflexivity.
  - unfold scroll_effects, swipe_effect. destruct (swipeUp cfg) as [[[x1 y1] x2] y2].
    reflexivity.
Qed.

End FindAndTap.

Lemma findAndTap_settings_third_screen_witness :
  exists best w',
    In best [element "android:id/title" "Settings" 540 1400 true "tap"]
    /\ Js.includes (Js.toLowerCase (Skills.el_text best)) "settings" = true
    /\ Skills.findMatch [element "android:id/title" "Settings" 540 1400 true "tap"]
                        "settings" = Some best
    /\ Skills.findAndTap cfg0 (decide_kind "find_and_tap" (Some "Settings"))
         [element "android:id/title" "Wi-Fi" 540 400 true "tap"]
         (device0 [Some [element "android:id/title" "Bluetooth" 540 400 true "tap"];
                   Some [element "android:id/title" "Settings" 540 1400 true "tap"]]) =
       (Skills.Ok {| Skills.success := true;
                     Skills.message :=
                       "Found and tapped " +:+ Js.dq +:+ Skills.el_text best +:+ Js.dq
                       +:+ " at (" +:+ Js.num_to_string (Skills.cx best) +:+ ", "
                       +:+ Js.num_to_string (Skills.cy best) +:+ ")";
                     Skills.data := Some (Skills.el_text best) |}, w')
    /\ Skills.trace w' =
       [] ++ scroll_effects cfg0 ++ scroll_effects cfg0
          ++ [tap_effect (Skills.cx best) (Skills.cy best)]
    /\ length (List.filter is_swipe (scroll_effects cfg0 ++ scroll_effects cfg0)) = 2%nat.
Proof.
  apply (findAndTap_settings_third_screen cfg0
           (decide_kind "find_and_tap" (Some "Settings"))
           [element "android:id/title" "Wi-Fi" 540 400 true "tap"]
           [element "android:id/title" "Bluetooth" 540 400 true "tap"]
           [element "android:id/title" "Settings" 540 1400 true "tap"] []).
  - reflexivity.
  - intros el [<-|[]]; reflexivity.
  - intros el [<-|[]]; reflexivity.
  - eexists. split; [left; reflexivity|reflexivity].
  - reflexivity.
  - constructor.
Defined.

(** ** verify_nth_comment_like *)

Section VerifyLike.
Import Js Skills.

(** The head of a list sorted by a key is a least element of the list. *)
Lemma sort_by_head_least {A} (f : A -> Z) (l : list A) :
  match sort_by (fun a b => f a - f b) l with
  | [] => l = []
  | h :: _ => In h l /\ forall y, In y l -> f h <= f y
  end.
Proof.
  induction l as [|x l IH]; simpl; [reflexivity|].
  destruct (sort_by (fun a b => f a - f b) l) as [|h t] eqn:Hs.
  - subst l. simpl. split; [left; reflexivity|]. intros y [<-|[]]. lia.
  - destruct IH as [Hin Hmin]. simpl.
    destruct (f x - f h <=? 0) eqn:Hc.
    + apply Z.leb_le in Hc. split; [left; reflexivity|].
      intros y [<-|Hy]; [lia|]. specialize (Hmin y Hy). lia.
    + apply Z.leb_gt in Hc. split; [right; exact Hin|].
      intros y [<-|Hy]; [lia|]. exact (Hmin y Hy).
Qed.

Lemma nearest_row_spec (rows : list UIElement) (y : Z) :
  match nearest_row rows y with
  | None => rows = []
  | Some (row, dy) =>
      In row rows /\ dy = Z.abs (cy row - y)
      /\ forall r, In r rows -> dy <= Z.abs (cy r - y)
  end.
Proof.
  unfold nearest_row.
  pose proof (sort_by_head_least (A := UIElement * Z) snd
                (List.map (fun row => (row, Z.abs (cy row - y))) rows)) as H.
  destruct (sort_by _ _) as [|[row dy] t]; simpl.
  - apply map_eq_nil in H. exact H.
  - destruct H as [Hin Hmin]. apply in_map_iff in Hin.
    destruct Hin as (r0 & Heq & Hr0). inversion Heq; subst.
    split; [exact Hr0|]. split; [reflexivity|].
    intros r Hr. apply (Hmin (r, Z.abs (cy r - y))).
    apply in_map_iff. exists r. split; [reflexivity|exact Hr].
Qed.

Lemma parseNthCommentIndex_pos (decision : ActionDecision) :
  0 < parseNthCommentIndex decision.
Proof.
  unfold parseNthCommentIndex.
  destruct (match0 _ _) as [digits|]; [|lia].
  destruct (parseInt digits <? NOT_FINITE_FROM); simpl; [|lia].
  destruct (0 <? parseInt digits) eqn:H; [|lia]. apply Z.ltb_lt. exact H.
Qed.

Lemma verify_target_relocated (last : option LikeAttempt) (index : Z)
    (rows : list UIElement) (ordinal : UIElement) :
  rows !! Z.to_nat (index - 1) = Some ordinal ->
  relocated last index rows (verify_target last index rows ordinal).
Proof.
  intros Hord. unfold verify_target, attempt_for.
  destruct last as [a|].
  2:{ apply relocated_ordinal; [exact Hord|]. intros a Ha. discriminate Ha. }
  destruct (la_index a =? index) eqn:Hidx.
  2:{ apply relocated_ordinal; [exact Hord|]. intros a' Ha' Hi'.
      inversion Ha'; subst a'. apply Z.eqb_neq in Hidx. contradiction. }
  apply Z.eqb_eq in Hidx.
  pose proof (nearest_row_spec rows (la_y a)) as Hn.
  destruct (nearest_row rows (la_y a)) as [[row dy]|].
  - destruct Hn as (Hin & Hdy & Hmin). destruct (dy <=? 80) eqn:Htol.
    + apply Z.leb_le in Htol. subst dy.
      apply (relocated_nearest _ _ _ _ a); auto.
    + apply Z.leb_gt in Htol. apply relocated_ordinal; [exact Hord|].
      intros a' Ha' _ r Hr. inversion Ha'; subst a'. specialize (Hmin r Hr). lia.
  - subst rows. apply relocated_ordinal; [exact Hord|]. intros a' _ _ r [].
Qed.

Lemma selectedLike_of_signal (target : UIElement) :
  selectedLike_of target = true <-> liked_signal target.
Proof.
  unfold selectedLike_of, liked_signal. rewrite !orb_true_iff. tauto.
Qed.

Lemma countChanged_of_differs (last : option LikeAttempt) (index : Z)
    (elements : list UIElement) (target : UIElement) :
  countChanged_of last index (findNearbyCommentCount elements target) = true
  <-> count_differs last index elements target.
Proof.
  unfold countChanged_of, count_differs, attempt_for. split.
  - destruct last as [a|]; [|discriminate].
    destruct (la_index a =? index) eqn:Hidx; [|discriminate].
    destruct (la_countBefore a) as [before|] eqn:Hb; [|discriminate].
    destruct (findNearbyCommentCount elements target) as [now|]; [|discriminate].
    intros H. apply negb_true_iff, Z.eqb_neq in H. apply Z.eqb_eq in Hidx.
    exists a, before, now. auto.
  - intros (a & before & now & -> & Hidx & Hb & -> & Hne).
    apply Z.eqb_eq in Hidx. rewrite Hidx, Hb.
    apply negb_true_iff, Z.eqb_neq. exact Hne.
Qed.

(** C7.  [verifyNthCommentLike] never throws and leaves the device as it
    is.  With fewer rows than the ordinal it reports that it could not
    verify.  Otherwise it examines the relocated row (the row nearest to
    the y-position of a recorded attempt with the same ordinal when that
    row is within 80 px, else the row at the ordinal) and succeeds
    exactly when that row shows the like as set or the number near it
    differs from the recorded count; when it does not succeed it reports
    the like as not confirmed yet. *)
Theorem verifyNthCommentLike_spec (decision : ActionDecision)
    (elements : list UIElement) (w : World) :
  let index := parseNthCommentIndex decision in
  let rows := collectCommentLikeRows elements in
  let last := lastCommentLikeAttempt w in
  exists r,
    verifyNthCommentLike decision elements w = (Ok r, w)
    /\ ((count rows < index
         /\ success r = false
         /\ message r = "Could not verify: only found " +:+ num_to_string (count rows)
                        +:+ " visible comment-like buttons; need " +:+ num_to_string index)
        \/ (index <= count rows
            /\ exists target,
                 relocated last index rows target
                 /\ (success r = true <->
                     liked_signal target \/ count_differs last index elements target)
                 /\ (success r = false ->
                     message r = "Comment #" +:+ num_to_string index
                                 +:+ " like not confirmed yet"))).
Proof.
  intros index rows last. unfold verifyNthCommentLike.
  fold index. fold rows.
  destruct (count rows <? index) eqn:Hfew.
  - apply Z.ltb_lt in Hfew. eexists. split; [reflexivity|]. left. auto.
  - apply Z.ltb_ge in Hfew.
    pose proof (parseNthCommentIndex_pos decision) as Hpos. fold index in Hpos.
    destruct (rows !! Z.to_nat (index - 1)) as [ordinal|] eqn:Hord.
    2:{ apply lookup_ge_None in Hord. unfold count in Hfew. lia. }
    unfold bind, getLastAttempt. fold last.
    set (target := verify_target last index rows ordinal).
    pose proof (verify_target_relocated last index rows ordinal Hord) as Hrel.
    fold target in Hrel.
    pose proof (selectedLike_of_signal target) as Hsel.
    pose proof (countChanged_of_differs last index elements target) as Hcnt.
    destruct (selectedLike_of target || countChanged_of last index
                (findNearbyCommentCount elements target)) eqn:Hany.
    + eexists. split; [reflexivity|]. right. split; [exact Hfew|].
      exists target. split; [exact Hrel|]. simpl. split; [|discriminate].
      split; [|reflexivity]. intros _. apply orb_true_iff in Hany. tauto.
    + eexists. split; [reflexivity|]. right. split; [exact Hfew|].
      exists target. split; [exact Hrel|]. simpl. split; [|reflexivity].
      split; [discriminate|]. intros Hsig. apply orb_false_iff in Hany.
      destruct Hany as [Hs Hc]. destruct Hsig as [Hsig|Hsig].
      * apply Hsel in Hsig. congruence.
      * apply Hcnt in Hsig. congruence.
Qed.

End VerifyLike.

(** ** Screen capture *)

Section ScreenTree.
Import A11y.
Context {E : Type}.
Implicit Types (s : Service E) (ds : list Z).

Lemma attempt_after_read s o s1 i :
  rootInActiveWindow E s = (o, s1) ->
  attempt s 0 = o /\ attempt s1 i = attempt s (S i)
  /\ slept s1 = slept s /\ lastScreenTree s1 = lastScreenTree s.
Proof.
  unfold rootInActiveWindow, attempt.
  destruct (windows s) as [|o' rest] eqn:Hw; intros H; inversion H; subst; simpl.
  - rewrite Hw. simpl. auto.
  - auto.
Qed.

Lemma attempt_delay s ms i : attempt (delay E ms s) i = attempt s i.
Proof. reflexivity. Qed.

(** A null root at every attempt: every delay is waited, then the empty
    list is returned. *)
Lemma getScreenTree_from_null ds lastDelay : forall s,
  (forall i, (i < length ds)%nat -> attempt s i = None) ->
  fst (getScreenTree_from ds lastDelay s) = []
  /\ slept (snd (getScreenTree_from ds lastDelay s)) = slept s ++ ds
  /\ lastScreenTree (snd (getScreenTree_from ds lastDelay s)) = lastScreenTree s.
Proof.
  induction ds as [|d ds IH]; intros s Hnull; simpl.
  - rewrite app_nil_r. auto.
  - destruct (rootInActiveWindow E s) as [o s1] eqn:Hread.
    destruct (attempt_after_read s o s1 0 Hread) as (H0 & _ & Hsl & Hlast).
    rewrite (Hnull 0%nat) in H0 by (simpl; lia). subst o.
    destruct (IH (delay E d s1)) as (Hr & Hs & Hl).
    + intros i Hi. rewrite attempt_delay.
      destruct (attempt_after_read s None s1 i Hread) as (_ & -> & _).
      apply Hnull. simpl. lia.
    + rewrite Hr, Hs, Hl. simpl. rewrite Hsl, Hlast, <- app_assoc. auto.
Qed.

(** The first attempt that finds elements returns them, after the
    delays of the attempts before it. *)
Lemma getScreenTree_from_first ds lastDelay : forall s i els,
  (i < length ds)%nat ->
  attempt s i = Some els -> els <> [] ->
  (forall j, (j < i)%nat -> yields_nothing (attempt s j)) ->
  Forall (fun d => d < lastDelay) (firstn i ds) ->
  fst (getScreenTree_from ds lastDelay s) = els
  /\ slept (snd (getScreenTree_from ds lastDelay s)) = slept s ++ firstn i ds
  /\ lastScreenTree (snd (getScreenTree_from ds lastDelay s)) = els.
Proof.
  induction ds as [|d ds IH]; intros s i els Hi Hat Hne Hbefore Hsmall; simpl in Hi.
  - lia.
  - simpl. destruct (rootInActiveWindow E s) as [o s1] eqn:Hread.
    destruct (attempt_after_read s o s1 0 Hread) as (H0 & _ & Hsl & Hlast).
    destruct i as [|i].
    + rewrite Hat in H0. subst o. destruct els as [|x els]; [contradiction|].
      simpl. rewrite Hsl, app_nil_r. auto.
    + simpl in Hsmall. pose proof (Forall_inv Hsmall) as Hd.
      pose proof (Forall_inv_tail Hsmall) as Hsmall'. simpl in Hd.
      assert (fst (getScreenTree_from ds lastDelay (delay E d s1)) = els
              /\ slept (snd (getScreenTree_from ds lastDelay (delay E d s1)))
                 = slept (delay E d s1) ++ firstn i ds
              /\ lastScreenTree (snd (getScreenTree_from ds lastDelay (delay E d s1))) = els)
        as (Hr & Hs & Hl).
      { apply IH; [lia| |exact Hne| |exact Hsmall'].
        - rewrite attempt_delay.
          destruct (attempt_after_read s o s1 i Hread) as (_ & -> & _). exact Hat.
        - intros j Hj. rewrite attempt_delay.
          destruct (attempt_after_read s o s1 j Hread) as (_ & -> & _).
          apply Hbefore. lia. }
      destruct (Hbefore 0%nat) as [Hnone|Hempty]; [lia| |].
      * rewrite Hnone in H0. subst o. rewrite Hr, Hs, Hl. simpl.
        rewrite Hsl, <- app_assoc. auto.
      * rewrite Hempty in H0. subst o. simpl.
        apply Z.ltb_lt in Hd. rewrite Hd. rewrite Hr, Hs, Hl. simpl.
        rewrite Hsl, <- app_assoc. auto.
Qed.

(** The empty list is returned only when no attempt found an element. *)
Lemma getScreenTree_from_empty ds lastDelay : forall s,
  Forall (fun d => d < lastDelay) (removelast ds) ->
  fst (getScreenTree_from ds lastDelay s) = [] ->
  forall i, (i < length ds)%nat -> yields_nothing (attempt s i).
Proof.
  induction ds as [|d ds IH]; intros s Hsmall Hres i Hi; simpl in Hi; [lia|].
  simpl in Hres. destruct (rootInActiveWindow E s) as [o s1] eqn:Hread.
  destruct (attempt_after_read s o s1 (pred i) Hread) as (H0 & Hshift & _).
  assert (ds <> [] -> d < lastDelay /\ Forall (fun d => d < lastDelay) (removelast ds))
    as Hrest.
  { intros Hne. destruct ds as [|d' ds']; [contradiction|].
    split; [exact (Forall_inv Hsmall)|exact (Forall_inv_tail Hsmall)]. }
  destruct o as [elements|].
  - destruct (is_empty E elements && (d <? lastDelay)) eqn:Hcont.
    + apply andb_true_iff in Hcont. destruct Hcont as [Hemp _].
      destruct elements; [|discriminate].
      destruct i as [|i]; [right; exact H0|].
      simpl in Hshift. rewrite <- Hshift, <- (attempt_delay s1 d).
      destruct ds as [|d' ds']; [simpl in Hi; lia|].
      apply IH; [apply Hrest; discriminate|exact Hres|simpl in Hi |- *; lia].
    + simpl in Hres. subst elements. simpl in Hcont.
      destruct i as [|i]; [right; exact H0|].
      destruct ds as [|d' ds']; [simpl in Hi; lia|].
      destruct Hrest as [Hd _]; [discriminate|].
      apply Z.ltb_lt in Hd. congruence.
  - destruct i as [|i]; [left; exact H0|].
    simpl in Hshift. rewrite <- Hshift, <- (attempt_delay s1 d).
    destruct ds as [|d' ds']; [simpl in Hi; lia|].
    apply IH; [apply Hrest; discriminate|exact Hres|simpl in Hi |- *; lia].
Qed.

(** C6.  [getScreenTree] makes up to five attempts.  While the root is
    null it waits 50, 100, 200, 300 and 500 ms in turn, and after five
    null roots it returns the empty list.  It returns the empty list
    only when none of the five attempts found an element.  The first
    attempt whose root has elements returns them, after the delays of
    the attempts before it. *)
Theorem getScreenTree_retries s :
  ((forall i, (i < 5)%nat -> attempt s i = None) ->
     fst (getScreenTree s) = []
     /\ slept (snd (getScreenTree s)) = slept s ++ [50; 100; 200; 300; 500])
  /\ (fst (getScreenTree s) = [] ->
      forall i, (i < 5)%nat -> yields_nothing (attempt s i))
  /\ (forall i els,
        (i < 5)%nat -> attempt s i = Some els -> els <> [] ->
        (forall j, (j < i)%nat -> yields_nothing (attempt s j)) ->
        fst (getScreenTree s) = els
        /\ slept (snd (getScreenTree s)) = slept s ++ firstn i [50; 100; 200; 300; 500]
        /\ lastScreenTree (snd (getScreenTree s)) = els).
Proof.
  unfold getScreenTree. change (List.last (delays) 0) with 500.
  change delays with [50; 100; 200; 300; 500]. split; [|split].
  - intros Hnull.
    destruct (getScreenTree_from_null [50; 100; 200; 300; 500] 500 s Hnull) as (Hr & Hs & _).
    auto.
  - intros Hres. apply (getScreenTree_from_empty [50; 100; 200; 300; 500] 500 s); [|exact Hres].
    simpl. repeat constructor.
  - intros i els Hi Hat Hne Hbefore.
    apply getScreenTree_from_first; [exact Hi|exact Hat|exact Hne|exact Hbefore|].
    do 5 (destruct i as [|i]; [simpl; repeat constructor|]). simpl in Hi. lia.
Qed.

End ScreenTree.

(** ** Voice sessions: the invariant *)

Section VoiceInvariant.
Import Voice.
Implicit Types (s : State) (d : string).

(** A lookup in a map after a deletion is a lookup in the map. *)
Ltac undelete :=
  repeat match goal with
         | H : delete _ _ !! _ = Some _ |- _ =>
             apply lookup_delete_Some in H; destruct H as [? H]
         end.

Lemma voice_wf_init : voice_wf init.
Proof.
  constructor; simpl; intros; try (rewrite lookup_empty in *; discriminate);
    match goal with H : ∅ !! _ = Some _ |- _ => rewrite lookup_empty in H; discriminate H end.
Qed.

(** The invariant only reads the heap, the registry, the timers and the
    two counters. *)
Lemma voice_wf_same s s' :
  heap s' = heap s -> activeSessions s' = activeSessions s -> timers s' = timers s ->
  next_ref s' = next_ref s -> next_timer s' = next_timer s ->
  voice_wf s -> voice_wf s'.
Proof.
  intros Hh Ha Ht Hr Hn [H1 H2 H3 H4 H5 H6 H7].
  constructor; rewrite ?Hh, ?Ha, ?Ht, ?Hr, ?Hn; assumption.
Qed.

Lemma session_of_Some d s r session :
  session_of d s = Some (r, session) <->
  activeSessions s !! d = Some r /\ heap s !! r = Some session.
Proof.
  unfold session_of. destruct (activeSessions s !! d) as [r0|]; [|split; [discriminate|intros [? _]; discriminate]].
  destruct (heap s !! r0) as [s0|] eqn:Hh.
  - split; [intros H; inversion H; subst; auto|]. intros [H1 H2]. inversion H1; subst.
    rewrite Hh in H2. inversion H2. reflexivity.
  - split; [discriminate|]. intros [H1 H2]. inversion H1; subst. congruence.
Qed.

Lemma session_of_None d s :
  voice_wf s -> session_of d s = None -> activeSessions s !! d = None.
Proof.
  intros Hwf. unfold session_of.
  destruct (activeSessions s !! d) as [r|] eqn:Ha; [|reflexivity].
  destruct (wf_registered s Hwf d r Ha) as [session ->]. discriminate.
Qed.

Lemma voice_wf_cleanupSession d s : voice_wf s -> voice_wf (cleanupSession d s).
Proof.
  intros Hwf. unfold cleanupSession.
  destruct (session_of d s) as [[r session]|] eqn:Hso; [|exact Hwf].
  apply session_of_Some in Hso. destruct Hso as [Ha Hh].
  destruct Hwf as [H1 H2 H3 H4 H5 H6 H7].
  destruct (partialTimer session) as [t|] eqn:Hpt; constructor; simpl;
    try solve [intros; undelete; eauto].
  intros d' r' session' t' Hd' Hh' Hpt'. undelete.
  assert (t' <> t) as Htne.
  { intros ->. assert (r' = r) by eauto. subst r'. eauto. }
  rewrite lookup_delete_ne by congruence. eauto.
Qed.

Lemma cleanupSession_unregisters d s :
  voice_wf s -> activeSessions (cleanupSession d s) !! d = None.
Proof.
  intros Hwf. unfold cleanupSession.
  destruct (session_of d s) as [[r session]|] eqn:Hso.
  - destruct (partialTimer session); simpl; apply lookup_delete_eq.
  - apply session_of_None; assumption.
Qed.

Lemma cleanupSession_stops d s r session t :
  session_of d s = Some (r, session) -> partialTimer session = Some t ->
  timers (cleanupSession d s) !! t = None.
Proof.
  intros Hso Hpt. unfold cleanupSession. rewrite Hso, Hpt. simpl. apply lookup_delete_eq.
Qed.

(** Replacing a session object by one that keeps its timer handle, or
    drops it, keeps the invariant. *)
Lemma voice_wf_update s r session session' :
  voice_wf s -> heap s !! r = Some session ->
  (partialTimer session' = partialTimer session \/ partialTimer session' = None) ->
  voice_wf (set_heap (<[r := session']> (heap s)) s).
Proof.
  intros [H1 H2 H3 H4 H5 H6 H7] Hh Hpt. constructor; simpl.
  - intros d r' Hd. destruct (decide (r = r')) as [<-|Hne].
    + rewrite lookup_insert_eq. eauto.
    + rewrite lookup_insert_ne by exact Hne. eauto.
  - intros r' s' Hr'. destruct (decide (r = r')) as [<-|Hne]; [eauto|].
    rewrite lookup_insert_ne in Hr' by exact Hne. eauto.
  - intros r' s' t Hr' Ht. destruct (decide (r = r')) as [<-|Hne].
    + rewrite lookup_insert_eq in Hr'. inversion Hr'; subst s'.
      destruct Hpt as [Hpt|Hpt]; rewrite Hpt in Ht; [eauto|discriminate].
    + rewrite lookup_insert_ne in Hr' by exact Hne. eauto.
  - eauto.
  - eauto.
  - intros r1 r2 s1 s2 t Hr1 Hr2 Ht1 Ht2.
    assert (forall r' (x : VoiceSession), <[r := session']> (heap s) !! r' = Some x ->
              partialTimer x = Some t ->
              exists x0 : VoiceSession, heap s !! r' = Some x0 /\ partialTimer x0 = Some t)
      as Hold.
    { intros r' s' Hr' Ht'. destruct (decide (r = r')) as [<-|Hne].
      - rewrite lookup_insert_eq in Hr'. inversion Hr'; subst s'.
        destruct Hpt as [Hpt|Hpt]; rewrite Hpt in Ht'; [eauto|discriminate].
      - rewrite lookup_insert_ne in Hr' by exact Hne. eauto. }
    destruct (Hold r1 s1 Hr1 Ht1) as (s1' & Hs1 & Hts1).
    destruct (Hold r2 s2 Hr2 Ht2) as (s2' & Hs2 & Hts2). eauto.
  - intros d r' s' t Hd Hr' Ht. destruct (decide (r = r')) as [<-|Hne].
    + rewrite lookup_insert_eq in Hr'. inversion Hr'; subst s'.
      destruct Hpt as [Hpt|Hpt]; rewrite Hpt in Ht; [eauto|discriminate].
    + rewrite lookup_insert_ne in Hr' by exact Hne. eauto.
Qed.

Lemma voice_wf_handleVoiceStart ws d key s :
  voice_wf s -> voice_wf (handleVoiceStart ws d key s).
Proof.
  intros Hwf0. unfold handleVoiceStart.
  pose proof (voice_wf_cleanupSession d s Hwf0) as Hwf.
  pose proof (cleanupSession_unregisters d s Hwf0) as Hfree.
  set (s1 := cleanupSession d s) in *. clearbody s1. clear Hwf0.
  destruct Hwf as [H1 H2 H3 H4 H5 H6 H7].
  assert (heap s1 !! next_ref s1 = None) as Hfresh.
  { destruct (heap s1 !! next_ref s1) as [x|] eqn:Hx; [|reflexivity].
    apply H2 in Hx. lia. }
  constructor; simpl; rewrite ?insert_insert_eq.
  - intros d' r' Hd'. destruct (decide (d = d')) as [<-|Hne].
    + rewrite lookup_insert_eq in Hd'. inversion Hd'; subst r'.
      rewrite lookup_insert_eq. eauto.
    + rewrite lookup_insert_ne in Hd' by exact Hne.
      destruct (H1 d' r' Hd') as [x Hx].
      rewrite lookup_insert_ne by (intros <-; congruence). eauto.
  - intros r' s' Hr'. destruct (decide (next_ref s1 = r')) as [<-|Hne]; [lia|].
    rewrite lookup_insert_ne in Hr' by exact Hne. apply H2 in Hr'. lia.
  - intros r' s' t Hr' Ht. destruct (decide (next_ref s1 = r')) as [<-|Hne].
    + rewrite lookup_insert_eq in Hr'. inversion Hr'; subst s'. simpl in Ht.
      inversion Ht. lia.
    + rewrite lookup_insert_ne in Hr' by exact Hne. specialize (H3 r' s' t Hr' Ht). lia.
  - intros t c Ht. destruct (decide (next_timer s1 = t)) as [<-|Hne]; [lia|].
    rewrite lookup_insert_ne in Ht by exact Hne. apply H4 in Ht. lia.
  - intros d1 d2 r' Hd1 Hd2.
    destruct (decide (d = d1)) as [<-|Hne1]; destruct (decide (d = d2)) as [<-|Hne2];
      [reflexivity| | |].
    + rewrite lookup_insert_eq in Hd1. inversion Hd1; subst r'.
      rewrite lookup_insert_ne in Hd2 by exact Hne2.
      destruct (H1 d2 _ Hd2) as [x Hx]. congruence.
    + rewrite lookup_insert_eq in Hd2. inversion Hd2; subst r'.
      rewrite lookup_insert_ne in Hd1 by exact Hne1.
      destruct (H1 d1 _ Hd1) as [x Hx]. congruence.
    + rewrite lookup_insert_ne in Hd1 by exact Hne1.
      rewrite lookup_insert_ne in Hd2 by exact Hne2. eauto.
  - intros r1 r2 s1' s2' t Hr1 Hr2 Ht1 Ht2.
    destruct (decide (next_ref s1 = r1)) as [<-|Hne1];
      destruct (decide (next_ref s1 = r2)) as [<-|Hne2]; [reflexivity| | |].
    + rewrite lookup_insert_eq in Hr1. inversion Hr1; subst s1'. simpl in Ht1.
      inversion Ht1; subst t.
      rewrite lookup_insert_ne in Hr2 by exact Hne2.
      specialize (H3 r2 s2' _ Hr2 Ht2). lia.
    + rewrite lookup_insert_eq in Hr2. inversion Hr2; subst s2'. simpl in Ht2.
      inversion Ht2; subst t.
      rewrite lookup_insert_ne in Hr1 by exact Hne1.
      specialize (H3 r1 s1' _ Hr1 Ht1). lia.
    + rewrite lookup_insert_ne in Hr1 by exact Hne1.
      rewrite lookup_insert_ne in Hr2 by exact Hne2. eauto.
  - intros d' r' s' t Hd' Hr' Ht. destruct (decide (d = d')) as [<-|Hne].
    + rewrite lookup_insert_eq in Hd'. inversion Hd'; subst r'.
      rewrite lookup_insert_eq in Hr'. inversion Hr'; subst s'. simpl in Ht.
      inversion Ht; subst t. rewrite lookup_insert_eq. eauto.
    + rewrite lookup_insert_ne in Hd' by exact Hne.
      assert (next_ref s1 <> r') as Hner.
      { intros <-. destruct (H1 d' _ Hd') as [x Hx]. congruence. }
      rewrite lookup_insert_ne in Hr' by exact Hner.
      destruct (H7 d' r' s' t Hd' Hr' Ht) as (c & Hc & Hcs).
      rewrite lookup_insert_ne by (intros <-; apply H4 in Hc; lia). eauto.
Qed.

Lemma voice_wf_handleVoiceChunk d decoded s :
  voice_wf s -> voice_wf (handleVoiceChunk d decoded s).
Proof.
  intros Hwf. unfold handleVoiceChunk.
  destruct (session_of d s) as [[r session]|] eqn:Hso.
  - apply session_of_Some in Hso. destruct Hso as [_ Hh].
    apply (voice_wf_update s r session); [exact Hwf|exact Hh|left; reflexivity].
  - apply (voice_wf_same s); try reflexivity. exact Hwf.
Qed.

Lemma voice_wf_clearInterval t s :
  voice_wf s ->
  (forall d r session, activeSessions s !! d = Some r -> heap s !! r = Some session ->
                       partialTimer session <> Some t) ->
  voice_wf (clearInterval t s).
Proof.
  intros [H1 H2 H3 H4 H5 H6 H7] Hfree. constructor; simpl; eauto.
  - intros; undelete; eauto.
  - intros d r session t' Hd Hr Ht'.
    rewrite lookup_delete_ne by (intros <-; exact (Hfree d r session Hd Hr Ht')). eauto.
Qed.

Lemma voice_wf_unregister d s :
  voice_wf s -> voice_wf (set_active (delete d (activeSessions s)) s).
Proof.
  intros [H1 H2 H3 H4 H5 H6 H7]. constructor; simpl; intros; undelete; eauto.
Qed.

Lemma voice_wf_handleVoiceSend ws d key s :
  voice_wf s -> voice_wf (handleVoiceSend ws d key s).
Proof.
  intros Hwf. unfold handleVoiceSend.
  destruct (session_of d s) as [[r session]|] eqn:Hso.
  2:{ apply (voice_wf_same s); try reflexivity. exact Hwf. }
  apply session_of_Some in Hso. destruct Hso as [Ha Hh].
  set (s1 := match partialTimer session with Some t => _ | None => s end).
  assert (voice_wf s1) as Hwf1.
  { subst s1. destruct (partialTimer session) as [t|] eqn:Hpt; [|exact Hwf].
    set (session' := {| chunks := chunks session; totalBytes := totalBytes session;
                        partialTimer := None;
                        lastPartialOffset := lastPartialOffset session |}).
    assert (voice_wf (set_heap (<[r := session']> (heap s)) s)) as Hupd.
    { apply (voice_wf_update s r session); [exact Hwf|exact Hh|right; reflexivity]. }
    apply (voice_wf_same (clearInterval t (set_heap (<[r := session']> (heap s)) s)));
      try reflexivity.
    apply voice_wf_clearInterval; [exact Hupd|]. simpl.
    intros d' r' s' Hd' Hr' Ht'. destruct (decide (r = r')) as [<-|Hne].
    - rewrite lookup_insert_eq in Hr'. inversion Hr'; subst s'. discriminate Ht'.
    - rewrite lookup_insert_ne in Hr' by exact Hne.
      apply Hne. symmetry. exact (wf_own s Hwf r' r s' session t Hr' Hh Ht' Hpt). }
  clearbody s1. destruct (MIN_AUDIO_BYTES <=? totalBytes session).
  - apply (voice_wf_same s1); try reflexivity. exact Hwf1.
  - apply (voice_wf_same (set_active (delete d (activeSessions s1)) s1)); try reflexivity.
    apply voice_wf_unregister. exact Hwf1.
Qed.

Lemma voice_wf_partialTick t s : voice_wf s -> voice_wf (partialTick t s).
Proof.
  intros Hwf. unfold partialTick.
  destruct (timers s !! t) as [c|]; [|exact Hwf].
  destruct (heap s !! c_session c) as [session|]; [|exact Hwf].
  destruct (totalBytes session <=? lastPartialOffset session); [exact Hwf|].
  destruct (totalBytes session <? MIN_AUDIO_BYTES); [exact Hwf|].
  apply (voice_wf_same s); try reflexivity. exact Hwf.
Qed.

Lemma voice_wf_resume k r s : voice_wf s -> voice_wf (resume k r s).
Proof.
  intros Hwf. destruct k as [ref ws d pcm|ws d pcm]; simpl.
  - destruct r as [text|]; [|apply (voice_wf_same s); try reflexivity; exact Hwf].
    assert (voice_wf
              match heap s !! ref with
              | Some session =>
                  set_heap (<[ref := {| chunks := chunks session;
                                        totalBytes := totalBytes session;
                                        partialTimer := partialTimer session;
                                        lastPartialOffset := totalBytes session |}]>
                              (heap s)) s
              | None => s
              end) as Hwf1.
    { destruct (heap s !! ref) as [session|] eqn:Hh; [|exact Hwf].
      apply (voice_wf_update s ref session); [exact Hwf|exact Hh|left; reflexivity]. }
    destruct (Js.truthy text); [|exact Hwf1].
    eapply voice_wf_same; [..|exact Hwf1]; reflexivity.
  - destruct r as [text|]; simpl.
    + eapply voice_wf_same; [..|exact (voice_wf_unregister d s Hwf)]; reflexivity.
    + eapply voice_wf_same; [..|exact (voice_wf_unregister d s Hwf)]; reflexivity.
Qed.

Lemma voice_wf_step s e : voice_wf s -> voice_wf (step s e).
Proof.
  intros Hwf. destruct e as [ws d key|d decoded|ws d key|d|t|i r]; simpl.
  - apply voice_wf_handleVoiceStart; exact Hwf.
  - apply voice_wf_handleVoiceChunk; exact Hwf.
  - apply voice_wf_handleVoiceSend; exact Hwf.
  - apply voice_wf_cleanupSession; exact Hwf.
  - apply voice_wf_partialTick; exact Hwf.
  - destruct (pending s !! i) as [k|]; [|exact Hwf].
    apply voice_wf_resume. apply (voice_wf_same s); try reflexivity. exact Hwf.
Qed.

Lemma voice_wf_run es : forall s, voice_wf s -> voice_wf (run s es).
Proof.
  induction es as [|e es IH]; intros s Hwf; [exact Hwf|].
  simpl. apply IH. apply voice_wf_step. exact Hwf.
Qed.

Lemma voice_reachable_wf s : voice_reachable s -> voice_wf s.
Proof. intros [es ->]. apply voice_wf_run. exact voice_wf_init. Qed.

End VoiceInvariant.

(** ** Voice sessions: teardown *)

Section VoiceTeardown.
Import Voice.
Implicit Types (s : State) (d : string).

(** A timer that has been stopped is never set again: handles are not
    reused. *)
Lemma stopped_step s e t :
  (t < next_timer s)%nat -> timers s !! t = None ->
  (t < next_timer (step s e))%nat /\ timers (step s e) !! t = None.
Proof.
  intros Hlt Hdead.
  assert (forall d, (t < next_timer (cleanupSession d s))%nat
                    /\ timers (cleanupSession d s) !! t = None) as Hclean.
  { intros d. unfold cleanupSession.
    destruct (session_of d s) as [[r session]|]; [|auto].
    destruct (partialTimer session) as [t'|]; simpl; [|auto].
    split; [exact Hlt|]. apply lookup_delete_None. right. exact Hdead. }
  destruct e as [ws d key|d decoded|ws d key|d|t'|i r]; simpl.
  - unfold handleVoiceStart. destruct (Hclean d) as [Hlt' Hdead']. simpl.
    split; [lia|]. rewrite lookup_insert_ne by lia. exact Hdead'.
  - unfold handleVoiceChunk. destruct (session_of d s) as [[r session]|]; simpl; auto.
  - unfold handleVoiceSend. destruct (session_of d s) as [[r session]|]; simpl; [|auto].
    destruct (partialTimer session) as [t'|];
      destruct (MIN_AUDIO_BYTES <=? totalBytes session); simpl;
      (split; [exact Hlt|]); try exact Hdead;
      apply lookup_delete_None; right; exact Hdead.
  - apply Hclean.
  - unfold partialTick. destruct (timers s !! t') as [c|]; [|auto].
    destruct (heap s !! c_session c) as [session|]; [|auto].
    destruct (totalBytes session <=? lastPartialOffset session); [auto|].
    destruct (totalBytes session <? MIN_AUDIO_BYTES); simpl; auto.
  - destruct (pending s !! i) as [k|]; [|auto].
    destruct k as [ref ws d pcm|ws d pcm]; simpl.
    + destruct r as [text|]; simpl; [|auto].
      destruct (heap s !! ref) as [session|]; destruct (Js.truthy text); simpl; auto.
    + destruct r as [text|]; simpl; auto.
Qed.

Lemma stopped_run es : forall s t,
  (t < next_timer s)%nat -> timers s !! t = None -> timers (run s es) !! t = None.
Proof.
  induction es as [|e es IH]; intros s t Hlt Hdead; [exact Hdead|].
  simpl. destruct (stopped_step s e t Hlt Hdead) as [Hlt' Hdead']. apply IH; assumption.
Qed.

(** The teardown of the session that [voice_cancel] or [voice_send]
    finds registered.  In every state the module can reach:
    - [voice_cancel] leaves no session registered for the device, and the
      timer of the session it removed is stopped for good;
    - [voice_send] stops the timer of the session at once and for good,
      and when it completes, at once or after the transcription, no
      session is registered for the device;
    - a chunk for a device without a registered session only writes the
      warning: no session is created and nothing else changes;
    - a session is registered for at most one device, and the timer of
      a registered session is set and holds that session. *)
Theorem voice_teardown s :
  voice_reachable s ->
  (forall d,
     activeSessions (step s (VoiceCancel d)) !! d = None
     /\ forall r session t es,
          session_of d s = Some (r, session) -> partialTimer session = Some t ->
          timers (run (step s (VoiceCancel d)) es) !! t = None)
  /\ (forall ws d key,
        (forall r session t es,
           session_of d s = Some (r, session) -> partialTimer session = Some t ->
           timers (run (step s (VoiceSend ws d key)) es) !! t = None)
        /\ (activeSessions (step s (VoiceSend ws d key)) !! d = None
            \/ exists pcm,
                 pending (step s (VoiceSend ws d key)) = pending s ++ [AwaitFinal ws d pcm]))
  /\ (forall i ws d pcm r,
        pending s !! i = Some (AwaitFinal ws d pcm) ->
        activeSessions (step s (Resolve i r)) !! d = None)
  /\ (forall d decoded,
        activeSessions s !! d = None ->
        step s (VoiceChunk d decoded)
        = log ("[Voice] Chunk received for unknown session: " +:+ d) s)
  /\ (forall d1 d2 r,
        activeSessions s !! d1 = Some r -> activeSessions s !! d2 = Some r -> d1 = d2)
  /\ (forall d r,
        activeSessions s !! d = Some r ->
        exists session,
          heap s !! r = Some session
          /\ forall t, partialTimer session = Some t ->
                       exists c, timers s !! t = Some c /\ c_session c = r).
Proof.
  intros Hreach. pose proof (voice_reachable_wf s Hreach) as Hwf.
  repeat split.
  - simpl. apply cleanupSession_unregisters. exact Hwf.
  - intros r session t es Hso Hpt. apply stopped_run.
    + simpl. unfold handleVoiceCancel, cleanupSession. rewrite Hso, Hpt. simpl.
      apply session_of_Some in Hso. destruct Hso as [_ Hh].
      exact (wf_handles s Hwf r session t Hh Hpt).
    + simpl. exact (cleanupSession_stops d s r session t Hso Hpt).
  - intros r session t es Hso Hpt. apply stopped_run.
    + simpl. unfold handleVoiceSend. rewrite Hso, Hpt.
      apply session_of_Some in Hso. destruct Hso as [_ Hh].
      pose proof (wf_handles s Hwf r session t Hh Hpt).
      destruct (MIN_AUDIO_BYTES <=? totalBytes session); simpl; assumption.
    + simpl. unfold handleVoiceSend. rewrite Hso, Hpt.
      destruct (MIN_AUDIO_BYTES <=? totalBytes session); simpl; apply lookup_delete_eq.
  - simpl. unfold handleVoiceSend.
    destruct (session_of d s) as [[r session]|] eqn:Hso.
    + destruct (MIN_AUDIO_BYTES <=? totalBytes session).
      * right. exists (concatChunks (chunks session)).
        destruct (partialTimer session); reflexivity.
      * left. destruct (partialTimer session); simpl; apply lookup_delete_eq.
    + left. simpl. apply session_of_None; assumption.
  - intros i ws d pcm r Hi. simpl. rewrite Hi. simpl.
    destruct r as [text|]; simpl; apply lookup_delete_eq.
  - intros d decoded Hnone. simpl. unfold handleVoiceChunk, session_of.
    rewrite Hnone. reflexivity.
  - exact (wf_injective s Hwf).
  - intros d r Hd. destruct (wf_registered s Hwf d r Hd) as [session Hh].
    exists session. split; [exact Hh|]. intros t Ht.
    exact (wf_live s Hwf d r session t Hd Hh Ht).
Qed.

End VoiceTeardown.

(** ** Voice sessions: counting transcripts *)

Section VoiceCapture.
Import Voice.
Variables (ws : nat) (d key : string).

Lemma bytes_app cs cs' : bytes (cs ++ cs') = bytes cs + bytes cs'.
Proof. induction cs as [|c cs IH]; simpl; [reflexivity|]. rewrite IH. lia. Qed.





Lemma run_app s es es' : run s (es ++ es') = run (run s es) es'.
Proof. unfold run. apply fold_left_app. Qed.








End VoiceCapture.

Section VoiceCounts.
Import Voice.
Variables (ws : nat) (d key : string).






End VoiceCounts.



(** A partial transcription that is under way when [voice_cancel] is
    handled still sends its transcript afterwards. *)
Example voice_partial_after_cancel :
  let es := [Voice.VoiceStart 7 "pixel" "gsk";
             Voice.VoiceChunk "pixel" chunk800; Voice.VoiceChunk "pixel" chunk800;
             Voice.VoiceChunk "pixel" chunk800; Voice.VoiceChunk "pixel" chunk800;
             Voice.VoiceChunk "pixel" chunk800;
             Voice.Tick 0; Voice.VoiceCancel "pixel"] in
  Voice.sent (Voice.run Voice.init es) = []
  /\ Voice.sent (Voice.run Voice.init (es ++ [Voice.Resolve 0 (Some "turn on the lights")]))
     = [(7%nat, Voice.transcript_partial "turn on the lights")].
Proof. vm_compute. split; reflexivity. Qed.

Lemma voice_teardown_witness :
  let s := Voice.run Voice.init [Voice.VoiceStart 7 "pixel" "gsk";
                                 Voice.VoiceChunk "pixel" chunk800] in
  Voice.activeSessions (Voice.step s (Voice.VoiceCancel "pixel")) !! "pixel" = None
  /\ Voice.timers (Voice.step s (Voice.VoiceCancel "pixel")) !! 0%nat = None
  /\ Voice.step s (Voice.VoiceChunk "tablet" chunk800)
     = Voice.log "[Voice] Chunk received for unknown session: tablet" s.
Proof.
  intros s.
  destruct (voice_teardown s) as (Hcancel & _ & _ & Hchunk & _).
  - exists [Voice.VoiceStart 7 "pixel" "gsk"; Voice.VoiceChunk "pixel" chunk800].
    reflexivity.
  - destruct (Hcancel "pixel") as [Hgone Hstopped]. split; [exact Hgone|]. split.
    + apply (Hstopped 0%nat
               {| Voice.chunks := [chunk800]; Voice.totalBytes := 800;
                  Voice.partialTimer := Some 0%nat; Voice.lastPartialOffset := 0 |}
               0%nat []); vm_compute; reflexivity.
    + apply Hchunk. vm_compute. reflexivity.
Defined.

(** Three attempts: an empty root, a null root, then a root with two
    elements; and a window whose root stays null. *)
Lemma getScreenTree_retries_witness :
  let s := {| A11y.windows := [Some []; None; Some ["Settings"; "Wi-Fi"]];
              A11y.lastScreenTree := []; A11y.slept := [] |} in
  let s0 := {| A11y.windows := @nil (option (list string));
               A11y.lastScreenTree := []; A11y.slept := [] |} in
  (fst (A11y.getScreenTree s) = ["Settings"; "Wi-Fi"]
   /\ A11y.slept (snd (A11y.getScreenTree s)) = [50; 100])
  /\ (fst (A11y.getScreenTree s0) = []
      /\ A11y.slept (snd (A11y.getScreenTree s0)) = [50; 100; 200; 300; 500])
  /\ yields_nothing (attempt s0 4).
Proof.
  intros s s0. split; [|split].
  - destruct (getScreenTree_retries s) as (_ & _ & Hfirst).
    destruct (Hfirst 2%nat ["Settings"; "Wi-Fi"]) as (Hr & Hs & _);
      [lia|reflexivity|discriminate| |split; [exact Hr|exact Hs]].
    intros j Hj. destruct j as [|[|j]]; [right; reflexivity|left; reflexivity|lia].
  - destruct (getScreenTree_retries s0) as (Hnull & _ & _).
    apply Hnull. intros i _. reflexivity.
  - destruct (getScreenTree_retries s0) as (_ & Hempty & _).
    apply Hempty; [reflexivity|lia].
Defined.

(** ** Goal submission *)

Section Admission.
Import Goals.
Implicit Types (s : State) (body : Body) (device : Device).

Lemma post_active s rid user body sid device existing :
  targets s body user device ->
  activeSessions s !! trackingKey device = Some existing ->
  post rid user body sid s
  = respond rid (Conflict 409 "agent already running on this device"
                          (sessionId existing) (goal existing)) s.
Proof.
  intros (Hid & Hgoal & Hdev & Huser) Hactive. unfold post.
  rewrite Hid, Hgoal, Hdev. simpl. rewrite Huser, String.eqb_refl. simpl.
  rewrite Hactive. reflexivity.
Qed.

Lemma post_free s rid user body sid device :
  targets s body user device ->
  activeSessions s !! trackingKey device = None ->
  let p := {| p_rid := rid; p_user := user; p_body := body; p_device := device;
              p_trackingKey := trackingKey device; p_sid := sid |} in
  post rid user body sid s
  = if given (llmApiKey body) then
      start_loop p {| provider := default (default "openai" (LLM_PROVIDER s))
                                          (llmProvider body);
                      apiKey := default "" (llmApiKey body);
                      model := llmModel body |} s
    else set_suspended (suspended s ++ [p]) s.
Proof.
  intros (Hid & Hgoal & Hdev & Huser) Hfree p. unfold post.
  rewrite Hid, Hgoal, Hdev. simpl. rewrite Huser, String.eqb_refl. simpl.
  rewrite Hfree. reflexivity.
Qed.

(** What starting the loop changes. *)
Lemma start_loop_effect (p : Suspended) (c : LLMConfig) s :
  let s' := start_loop p c s in
  activeSessions s' = <[p_trackingKey p := placeholder (p_body p) (next_abort s)]>
                        (activeSessions s)
  /\ (exists o, loops s' = loops s ++ [{| l_options := o;
                                          l_trackingKey := p_trackingKey p;
                                          l_deviceId := deviceId (p_device p);
                                          l_sessionId := p_sid p |}])
  /\ responses s' = responses s ++ [(p_rid p, Started (b_deviceId (p_body p))
                                                      (b_goal (p_body p)))]
  /\ connected s' = connected s /\ suspended s' = suspended s
  /\ LLM_API_KEY s' = LLM_API_KEY s.
Proof. unfold start_loop. simpl. repeat split. eexists. reflexivity. Qed.

Lemma lookup_length_app {A} (l : list A) (x : A) : (l ++ [x]) !! length l = Some x.
Proof. induction l as [|y l IH]; [reflexivity|exact IH]. Qed.

Lemma remove_nth_last {A} (l : list A) (x : A) : remove_nth (length l) (l ++ [x]) = l.
Proof.
  unfold remove_nth. rewrite take_app_length.
  rewrite drop_ge by (rewrite length_app; simpl; lia). apply app_nil_r.
Qed.

(** A submission for a device without a registered session is started
    when an LLM config can be built. *)
Lemma submission_free s rid user body sid configs device :
  targets s body user device ->
  activeSessions s !! trackingKey device = None ->
  resolvable s body configs ->
  let s' := run s (submission s rid user body sid configs) in
  activeSessions s' = <[trackingKey device := placeholder body (next_abort s)]>
                        (activeSessions s)
  /\ (exists o, loops s' = loops s ++ [{| l_options := o;
                                          l_trackingKey := trackingKey device;
                                          l_deviceId := deviceId device;
                                          l_sessionId := sid |}])
  /\ responses s' = responses s ++ [(rid, Started (b_deviceId body) (b_goal body))]
  /\ connected s' = connected s /\ suspended s' = suspended s
  /\ LLM_API_KEY s' = LLM_API_KEY s.
Proof.
  intros Htarget Hfree Hres. unfold submission. simpl run.
  rewrite (post_free s rid user body sid device Htarget Hfree).
  set (p := {| p_rid := rid; p_user := user; p_body := body; p_device := device;
               p_trackingKey := trackingKey device; p_sid := sid |}).
  destruct (given (llmApiKey body)) eqn:Hkey.
  - match goal with |- context [start_loop p ?c s] => set (c0 := c) end.
    destruct (start_loop_effect p c0 s) as (Ha & Hl & Hr & Hc & Hs & He).
    rewrite Hs. rewrite lookup_ge_None_2 by lia. simpl. auto 10.
  - simpl. rewrite lookup_length_app, remove_nth_last.
    replace (set_suspended (suspended s) (set_suspended (suspended s ++ [p]) s))
      with s by (destruct s; reflexivity).
    unfold post_resume.
    destruct configs as [|cfg configs].
    + destruct Hres as [Hres|[Hres|Hres]]; [congruence|contradiction|].
      rewrite Hres. apply (start_loop_effect p).
    + apply (start_loop_effect p).
Qed.

(** A submission for a device with a registered session is answered
    with the conflict, and changes nothing else. *)
Lemma submission_active s rid user body sid configs device existing :
  targets s body user device ->
  activeSessions s !! trackingKey device = Some existing ->
  run s (submission s rid user body sid configs)
  = respond rid (Conflict 409 "agent already running on this device"
                          (sessionId existing) (goal existing)) s.
Proof.
  intros Htarget Hactive. unfold submission. simpl run.
  rewrite (post_active s rid user body sid device existing Htarget Hactive).
  simpl. rewrite lookup_ge_None_2 by lia. reflexivity.
Qed.

Lemma settled_effect s i l r :
  loops s !! i = Some l ->
  let s' := step s (LoopSettled i r) in
  activeSessions s' = delete (l_trackingKey l) (activeSessions s)
  /\ connected s' = connected s /\ suspended s' = suspended s
  /\ LLM_API_KEY s' = LLM_API_KEY s /\ responses s' = responses s.
Proof.
  intros Hl. simpl. rewrite Hl. destruct r; simpl; auto.
Qed.

End Admission.

Section AdmissionCycle.
Import Goals.
Implicit Types (s : State) (body : Body) (device : Device).

Lemma start_loop_other (p : Suspended) (c : LLMConfig) s key :
  p_trackingKey p <> key ->
  activeSessions (start_loop p c s) !! key = activeSessions s !! key.
Proof. intros Hne. unfold start_loop. simpl. apply lookup_insert_ne. exact Hne. Qed.

(** An event that leaves the key alone leaves its entry in place. *)
Lemma entry_kept_step s e key entry :
  activeSessions s !! key = Some entry -> leaves_alone key s e ->
  activeSessions (step s e) !! key = Some entry.
Proof.
  intros Hentry Halone.
  destruct e as [rid user body sid|i configs|i r|rid user id|devices]; simpl in *.
  - unfold post.
    destruct (negb (Js.truthy (b_deviceId body)) || negb (Js.truthy (b_goal body)));
      [exact Hentry|].
    destruct (lookup_device s (b_deviceId body)) as [device|]; [|exact Hentry].
    destruct (negb (String.eqb (userId device) user)); [exact Hentry|].
    destruct (activeSessions s !! trackingKey device) as [existing|] eqn:Hk;
      [exact Hentry|].
    destruct (given (llmApiKey body)); [|exact Hentry].
    rewrite start_loop_other; [exact Hentry|]. simpl. intros Heq. congruence.
  - destruct (suspended s !! i) as [p|] eqn:Hp; [|exact Hentry].
    specialize (Halone p eq_refl). unfold post_resume.
    destruct configs as [|cfg configs].
    + destruct (given (LLM_API_KEY _));
        [rewrite start_loop_other by exact Halone|]; exact Hentry.
    + rewrite start_loop_other by exact Halone. exact Hentry.
  - destruct (loops s !! i) as [l|] eqn:Hl; [|exact Hentry].
    specialize (Halone l eq_refl).
    destruct r; simpl; rewrite lookup_delete_ne by exact Halone; exact Hentry.
  - unfold stop. destruct (negb (Js.truthy id)); [exact Hentry|].
    destruct (lookup_device s id) as [device|]; [|exact Hentry].
    destruct (negb (String.eqb (userId device) user)); [exact Hentry|].
    destruct (activeSessions s !! trackingKey device); exact Hentry.
  - exact Hentry.
Qed.

Lemma entry_kept es : forall s key entry,
  activeSessions s !! key = Some entry -> leave_alone key s es ->
  activeSessions (run s es) !! key = Some entry.
Proof.
  induction es as [|e es IH]; intros s key entry Hentry Halone; [exact Hentry|].
  simpl in Halone |- *. destruct Halone as [He Hes].
  apply IH; [|exact Hes]. apply entry_kept_step; assumption.
Qed.

(** C1, amended.  A submission for a device whose tracking key (the
    persistent device id, or the connection id when there is none) is
    free is started and registered under the placeholder id "pending"
    with its goal.  As long as its loop has not settled, whatever else
    happens, a further submission for a device with that key is
    answered 409 with that placeholder id and the goal of the first,
    and starts no loop.  When the loop of the first settles, by
    resolving or by rejecting, the key is free again and a new
    submission for it is started. *)
Theorem goals_admission s
    (rid1 rid2 rid3 : nat) (user1 user2 user3 : string) (body1 body2 body3 : Body)
    (sid1 sid2 sid3 : string) (configs1 configs2 configs3 : list LlmConfigRow)
    (device1 device2 device3 : Device) (es : list event)
    (i : nat) (l : Loop) (outcome : settlement) :
  targets s body1 user1 device1 ->
  activeSessions s !! trackingKey device1 = None ->
  resolvable s body1 configs1 ->
  let s1 := run s (submission s rid1 user1 body1 sid1 configs1) in
  leave_alone (trackingKey device1) s1 es ->
  let s1' := run s1 es in
  targets s1' body2 user2 device2 ->
  trackingKey device2 = trackingKey device1 ->
  let s2 := run s1' (submission s1' rid2 user2 body2 sid2 configs2) in
  loops s2 !! i = Some l ->
  l_trackingKey l = trackingKey device1 ->
  let s3 := step s2 (LoopSettled i outcome) in
  targets s3 body3 user3 device3 ->
  trackingKey device3 = trackingKey device1 ->
  resolvable s3 body3 configs3 ->
  let s4 := run s3 (submission s3 rid3 user3 body3 sid3 configs3) in
  responses s1 = responses s ++ [(rid1, Started (b_deviceId body1) (b_goal body1))]
  /\ activeSessions s1 !! trackingKey device1 = Some (placeholder body1 (next_abort s))
  /\ (exists o, loops s1 = loops s ++ [{| l_options := o;
                                          l_trackingKey := trackingKey device1;
                                          l_deviceId := deviceId device1;
                                          l_sessionId := sid1 |}])
  /\ responses s2 = responses s1'
        ++ [(rid2, Conflict 409 "agent already running on this device"
                            "pending" (b_goal body1))]
  /\ loops s2 = loops s1'
  /\ activeSessions s2 = activeSessions s1'
  /\ activeSessions s3 !! trackingKey device1 = None
  /\ responses s4 = responses s3 ++ [(rid3, Started (b_deviceId body3) (b_goal body3))]
  /\ activeSessions s4 !! trackingKey device1 = Some (placeholder body3 (next_abort s3)).
Proof.
  intros Ht1 Hfree Hres1 s1 Halone s1' Ht2 Hk2 s2 Hloop Hlk s3 Ht3 Hk3 Hres3 s4.
  destruct (submission_free s rid1 user1 body1 sid1 configs1 device1 Ht1 Hfree Hres1)
    as (Ha1 & (o1 & Hl1) & Hr1 & _).
  fold s1 in Ha1, Hl1, Hr1.
  assert (activeSessions s1 !! trackingKey device1
          = Some (placeholder body1 (next_abort s))) as Hentry1.
  { rewrite Ha1. apply lookup_insert_eq. }
  assert (activeSessions s1' !! trackingKey device2
          = Some (placeholder body1 (next_abort s))) as Hactive.
  { rewrite Hk2. apply entry_kept; assumption. }
  assert (s2 = respond rid2 (Conflict 409 "agent already running on this device"
                                      "pending" (b_goal body1)) s1') as Hs2.
  { subst s2.
    rewrite (submission_active s1' rid2 user2 body2 sid2 configs2 device2 _ Ht2 Hactive).
    reflexivity. }
  destruct (settled_effect s2 i l outcome Hloop) as (Ha3 & _).
  fold s3 in Ha3.
  assert (activeSessions s3 !! trackingKey device3 = None) as Hfree3.
  { rewrite Hk3, Ha3, Hlk. apply lookup_delete_eq. }
  destruct (submission_free s3 rid3 user3 body3 sid3 configs3 device3 Ht3 Hfree3 Hres3)
    as (Ha4 & _ & Hr4 & _).
  fold s4 in Ha4, Hr4.
  split; [exact Hr1|]. split; [exact Hentry1|].
  split; [exists o1; exact Hl1|]. split; [rewrite Hs2; reflexivity|].
  split; [rewrite Hs2; reflexivity|]. split; [rewrite Hs2; reflexivity|].
  split; [rewrite <- Hk3; exact Hfree3|]. split; [exact Hr4|].
  rewrite Ha4, Hk3. apply lookup_insert_eq.
Qed.

End AdmissionCycle.

(** A first request with the key in its body; meanwhile another user's
    device is served; a second request for the first device, by its
    connection id, waits for nothing and is refused; the first loop
    resolves, and a third request is started. *)
Lemma goals_admission_witness :
  let s := Goals.init [pixel; tablet] None None in
  let s1 := Goals.run s (submission s 1 "alice"
                           (goal_request "dev-42" "open settings" (Some "sk-1")) "sess-4f2a" []) in
  let s1' := Goals.run s1 [Goals.Post 7 "bob" (goal_request "conn-2" "play music" (Some "sk-2"))
                                      "sess-0b1c"] in
  let s2 := Goals.run s1' (submission s1' 2 "alice"
                             (goal_request "conn-1" "send a mail" None) "sess-77c1" []) in
  let s3 := Goals.step s2 (Goals.LoopSettled 0 (Goals.Resolved true 12)) in
  let s4 := Goals.run s3 (submission s3 3 "alice"
                            (goal_request "conn-1" "send a mail" (Some "sk-1")) "sess-9d0e" []) in
  Goals.responses s2 =
    [(1%nat, Goals.Started "dev-42" "open settings");
     (7%nat, Goals.Started "conn-2" "play music");
     (2%nat, Goals.Conflict 409 "agent already running on this device"
                            "pending" "open settings")]
  /\ Goals.activeSessions s3 !! "dev-42" = None
  /\ Goals.responses s4 = Goals.responses s3 ++ [(3%nat, Goals.Started "conn-1" "send a mail")].
Proof.
  intros s s1 s1' s2 s3 s4.
  destruct (goals_admission s 1 2 3 "alice" "alice" "alice"
              (goal_request "dev-42" "open settings" (Some "sk-1"))
              (goal_request "conn-1" "send a mail" None)
              (goal_request "conn-1" "send a mail" (Some "sk-1"))
              "sess-4f2a" "sess-77c1" "sess-9d0e" [] [] [] pixel pixel pixel
              [Goals.Post 7 "bob" (goal_request "conn-2" "play music" (Some "sk-2"))
                          "sess-0b1c"]
              0%nat
              {| Goals.l_options :=
                   {| Goals.o_deviceId := "conn-1";
                      Goals.o_persistentDeviceId := Some "dev-42";
                      Goals.o_userId := "alice"; Goals.o_goal := "open settings";
                      Goals.o_llmConfig := {| Goals.provider := "openai";
                                              Goals.apiKey := "sk-1";
                                              Goals.model := None |};
                      Goals.o_maxSteps := None; Goals.o_signal := 0 |};
                 Goals.l_trackingKey := "dev-42"; Goals.l_deviceId := "conn-1";
                 Goals.l_sessionId := "sess-4f2a" |}
              (Goals.Resolved true 12))
    as (H1 & _ & _ & H2 & _ & _ & H3 & H4 & _).
  - repeat split; reflexivity.
  - reflexivity.
  - left. reflexivity.
  - simpl. tauto.
  - repeat split; reflexivity.
  - reflexivity.
  - vm_compute. reflexivity.
  - reflexivity.
  - repeat split; reflexivity.
  - reflexivity.
  - left. reflexivity.
  - fold s1 in H1, H2. fold s1' in H2. fold s2 in H2, H3. fold s3 in H3, H4. fold s4 in H4.
    split; [rewrite H2; vm_compute; reflexivity|]. split; [exact H3|exact H4].
Defined.

(** C1 as stated fails on the identity: the loop of the first session
    runs under the id it created, and the conflict carries "pending". *)
Lemma conflict_carries_placeholder :
  let s := Goals.init [pixel] None None in
  let s2 := Goals.run s [Goals.Post 1 "alice"
                           (goal_request "dev-42" "open settings" (Some "sk-1")) "sess-4f2a";
                         Goals.Post 2 "alice"
                           (goal_request "dev-42" "send a mail" (Some "sk-1")) "sess-77c1"] in
  List.map Goals.l_sessionId (Goals.loops s2) = ["sess-4f2a"]
  /\ Goals.response_to 2 s2
     = Some (Goals.Conflict 409 "agent already running on this device"
                            "pending" "open settings")
  /\ "pending" <> "sess-4f2a"
  /\ Goals.console (Goals.step s2 (Goals.LoopSettled 0 (Goals.Resolved true 12)))
     = ["[Agent] Completed on conn-1: success in 12 steps (session sess-4f2a)"].
Proof. vm_compute. repeat split. discriminate. Qed.

(** ** Pairing codes *)

Section PairingCodes.
Import Pairing.
Implicit Types (s : State) (t : list Row).


Lemma NoDup_map_inj {A B} (f : A -> B) (l : list A) (a b : A) :
  List.NoDup (List.map f l) -> In a l -> In b l -> f a = f b -> a = b.
Proof.
  induction l as [|x l IH]; simpl; intros Hnd Ha Hb Hf; [contradiction|].
  apply List.NoDup_cons_iff in Hnd. destruct Hnd as [Hx Hnd].
  destruct Ha as [<-|Ha]; destruct Hb as [<-|Hb]; [reflexivity| | |auto].
  - exfalso. apply Hx. rewrite Hf. apply in_map. exact Hb.
  - exfalso. apply Hx. rewrite <- Hf. apply in_map. exact Ha.
Qed.

Lemma isRateLimited_table ip now s : pairingCode (snd (isRateLimited ip now s)) = pairingCode s.
Proof.
  unfold isRateLimited. destruct (claimAttempts s !! ip) as [entry|]; [|reflexivity].
  destruct (a_resetAt entry <? now); reflexivity.
Qed.


Lemma claim_table xff xreal code now key s :
  exists p, pairingCode (snd (claim xff xreal code now key s))
            = List.filter p (pairingCode s).
Proof.
  unfold claim. destruct (isRateLimited _ now s) as [limited s1] eqn:Hrl.
  assert (pairingCode s1 = pairingCode s) as Ht.
  { rewrite <- (isRateLimited_table (claim_ip xff xreal) now s). unfold claim_ip.
    rewrite Hrl. reflexivity. }
  assert (exists p, pairingCode s1 = List.filter p (pairingCode s)) as Hsame.
  { exists (fun _ => true). rewrite Ht. symmetry. apply forallb_filter_id.
    apply forallb_forall. reflexivity. }
  destruct limited; [exact Hsame|].
  destruct (negb (valid_code (option_map Js.trim code))); [exact Hsame|].
  destruct (List.filter _ (pairingCode s1)) as [|row rows]; [exact Hsame|].
  destruct key as [k|]; [|exact Hsame]. simpl. rewrite Ht. eexists. reflexivity.
Qed.



(** [status] answers [paired: true] exactly when the user has no row. *)
Lemma status_paired s user now :
  status user now s = Status true None <-> ~ has_code s user.
Proof.
  unfold status, has_code.
  destruct (List.filter _ (pairingCode s)) as [|row rows] eqn:Hf.
  - split; [|reflexivity]. intros _ (row & Hin & Hu).
    assert (In row (List.filter (fun r => String.eqb (r_userId r) user) (pairingCode s)))
      as Hrow by (apply filter_In; split; [exact Hin|apply String.eqb_eq; exact Hu]).
    rewrite Hf in Hrow. destruct Hrow.
  - split.
    + destruct (r_expiresAt row <? now); discriminate.
    + intros Hno. exfalso. apply Hno. exists row.
      assert (In row (List.filter (fun r => String.eqb (r_userId r) user) (pairingCode s)))
        as Hrow by (rewrite Hf; left; reflexivity).
      apply filter_In in Hrow. destruct Hrow as [Hin Hu].
      split; [exact Hin|apply String.eqb_eq; exact Hu].
Qed.





(** No row is made for a user by anything but that user's creation of a
    code. *)
Lemma no_code_run (user : string) es : forall s,
  ~ has_code s user -> Forall (fun e => ~ creates_for user e) es ->
  ~ has_code (run s es) user.
Proof.
  induction es as [|e es IH]; intros s H0 Hes; [exact H0|].
  simpl. apply IH; [|exact (Forall_inv_tail Hes)].
  pose proof (Forall_inv Hes) as He. intros (row & Hin & Hu). apply H0.
  destruct e as [[u|] [now' n uuid|now'|xff xreal code now' key]|now'];
    simpl in Hin, He; try (exists row; split; assumption).
  - unfold create in Hin.
    set (t := List.filter (fun r => negb (String.eqb (r_userId r) u)) (pairingCode s)) in *.
    assert (In row t -> has_code s user) as Hold.
    { intros Ht. apply filter_In in Ht. exists row. tauto. }
    destruct (insert_allowed _ t); simpl in Hin; [|auto].
    apply in_app_iff in Hin. destruct Hin as [Hin|[<-|[]]]; [auto|].
    simpl in Hu. contradiction.
  - destruct (claim_table xff xreal code now' key s) as [p Hp]. rewrite Hp in Hin.
    apply filter_In in Hin. exists row. tauto.
Qed.

(** C10.  The status route reports [paired: true] for every user who
    has no record.  A user for whom no code was ever created has none,
    whatever else has happened, so the report does not tell that a code
    was claimed: it is given in the initial state already. *)
Theorem status_paired_without_code (wsUrl : option string) (es : list event)
    (user : string) (now : Z) :
  (forall s, ~ has_code s user -> status user now s = Status true None)
  /\ (Forall (fun e => ~ creates_for user e) es ->
      ~ has_code (run (init wsUrl) es) user
      /\ status user now (run (init wsUrl) es) = Status true None)
  /\ status user now (init wsUrl) = Status true None.
Proof.
  split; [|split].
  - intros s Hno. apply status_paired. exact Hno.
  - intros Hes.
    assert (~ has_code (run (init wsUrl) es) user) as Hno.
    { apply no_code_run; [|exact Hes]. intros (row & [] & _). }
    split; [exact Hno|]. apply status_paired. exact Hno.
  - reflexivity.
Qed.

End PairingCodes.


(** The second claim of the witness, from another address a minute
    later: the code is invalid or expired. *)
Example second_claim_refused :
  let s := Pairing.run (Pairing.init None)
             [Pairing.Request (Some "alice") (Pairing.PostCreate 1000 483920 "row-1")] in
  let first := Pairing.pairing (Some "alice")
                 (Pairing.PostClaim (Some "10.0.0.7") None (Some " 483920 ") 2000
                                    (Some "droidclaw_k1")) s in
  fst first = Pairing.Claimed "droidclaw_k1" "wss://tunnel.droidclaw.ai"
  /\ fst (Pairing.pairing (Some "alice")
            (Pairing.PostClaim None (Some "10.0.0.9") (Some "483920") 70000
                               (Some "droidclaw_k2")) (snd first))
     = Pairing.Error 400 "Invalid or expired code"
  /\ fst (Pairing.pairing (Some "alice") (Pairing.GetStatus 70000) (snd first))
     = Pairing.Status true None.
Proof. vm_compute. repeat split. Qed.


(** The six digits are drawn at random: after a code was claimed, a
    later creation can draw its digits again, and a claim with them
    succeeds, for the other user. *)
Example code_drawn_again :
  let s := Pairing.run (Pairing.init None)
             [Pairing.Request (Some "alice") (Pairing.PostCreate 1000 483920 "row-1");
              Pairing.Request (Some "alice")
                (Pairing.PostClaim (Some "10.0.0.7") None (Some "483920") 2000
                                   (Some "droidclaw_k1"));
              Pairing.Request (Some "bob") (Pairing.PostCreate 3000 483920 "row-2")] in
  fst (Pairing.pairing (Some "bob")
         (Pairing.PostClaim (Some "10.0.0.9") None (Some "483920") 4000
                            (Some "droidclaw_k2")) s)
  = Pairing.Claimed "droidclaw_k2" "wss://tunnel.droidclaw.ai".
Proof. vm_compute. reflexivity. Qed.

(** The middleware of the authenticated routes runs in front of the
    claim route: a claim of a valid code from a request without a
    session is answered 401, the code stays in the table, and the rate
    limiter does not count the attempt. *)
Example claim_without_session :
  let s := Pairing.run (Pairing.init None)
             [Pairing.Request (Some "alice") (Pairing.PostCreate 1000 483920 "row-1")] in
  Pairing.pairing None
    (Pairing.PostClaim (Some "10.0.0.7") None (Some "483920") 2000 (Some "droidclaw_k1")) s
  = (Pairing.Error 401 "unauthorized", s).
Proof. vm_compute. reflexivity. Qed.

(** Bob creates and claims a code; Alice never created one. *)
Lemma status_paired_without_code_witness :
  Pairing.status "alice" 5000
    (Pairing.run (Pairing.init None)
       [Pairing.Request (Some "bob") (Pairing.PostCreate 1000 483920 "row-1");
        Pairing.Request (Some "bob")
          (Pairing.PostClaim (Some "10.0.0.7") None (Some "483920") 2000
                             (Some "droidclaw_k1"))])
  = Pairing.Status true None.
Proof.
  destruct (status_paired_without_code None
              [Pairing.Request (Some "bob") (Pairing.PostCreate 1000 483920 "row-1");
               Pairing.Request (Some "bob")
                 (Pairing.PostClaim (Some "10.0.0.7") None (Some "483920") 2000
                                    (Some "droidclaw_k1"))]
              "alice" 5000) as (_ & Hnever & _).
  apply Hnever. repeat constructor; simpl; [discriminate|tauto].
Defined.

(** No code was ever created or claimed, and the status is paired. *)
Example status_paired_initially :
  Pairing.status "alice" 0 (Pairing.init None) = Pairing.Status true None.
Proof. reflexivity. Qed.

(** ** Further examples *)

(** The like of the third comment is tapped on the first screen and
    verified on the second: the rows moved by 10 px, the row is found
    again by its position, and the count that changed from 7 to 8
    confirms the like. *)
Example verify_by_changed_count :
  let like := decide_kind "like_nth_comment" (Some "3rd comment") in
  let verify := decide_kind "verify_nth_comment_like" (Some "3") in
  let w := snd (Skills.likeNthComment like comments_before (device0 [])) in
  Skills.lastCommentLikeAttempt w
  = Some {| Skills.la_index := 3; Skills.la_y := 1600; Skills.la_x := 1000;
            Skills.la_countBefore := Some 7 |}
  /\ fst (Skills.verifyNthCommentLike verify comments_after w)
     = Skills.Ok {| Skills.success := true;
                    Skills.message := "Comment #3 like verified (count changed)";
                    Skills.data := Some ("{" +:+ Skills.key "selectedLike" +:+ "false,"
                                         +:+ Skills.key "countNow" +:+ "8}") |}
  /\ fst (Skills.verifyNthCommentLike verify comments_before w)
     = Skills.Ok {| Skills.success := false;
                    Skills.message := "Comment #3 like not confirmed yet";
                    Skills.data := Some ("{" +:+ Skills.key "selectedLike" +:+ "false,"
                                         +:+ Skills.key "countNow" +:+ "7}") |}
  /\ fst (Skills.verifyNthCommentLike (decide_kind "verify_nth_comment_like" (Some "4"))
            comments_after w)
     = Skills.Ok {| Skills.success := false;
                    Skills.message := "Could not verify: only found 3 visible "
                                      +:+ "comment-like buttons; need 4";
                    Skills.data := None |}.
Proof. vm_compute. repeat split. Qed.

(** Two submissions for one device that both wait for the database are
    both started: the check of the registry and the registration are
    separated by the wait. *)
Example submissions_overlapping :
  let s := Goals.init [pixel] None (Some "sk-env") in
  let s' := Goals.run s [Goals.Post 1 "alice" (goal_request "dev-42" "open settings" None)
                                    "sess-4f2a";
                         Goals.Post 2 "alice" (goal_request "dev-42" "send a mail" None)
                                    "sess-77c1";
                         Goals.DbReply 0 []; Goals.DbReply 0 []] in
  Goals.responses s' = [(1%nat, Goals.Started "dev-42" "open settings");
                        (2%nat, Goals.Started "dev-42" "send a mail")]
  /\ List.map Goals.l_trackingKey (Goals.loops s') = ["dev-42"; "dev-42"].
Proof. vm_compute. split; reflexivity. Qed.

(** A session started while [voice_send] waits for its transcription is
    taken out of the registry when [voice_send] completes, and its timer
    stays set. *)
Example voice_start_during_send :
  let es := [Voice.VoiceStart 7 "pixel" "gsk";
             Voice.VoiceChunk "pixel" chunk800; Voice.VoiceChunk "pixel" chunk800;
             Voice.VoiceChunk "pixel" chunk800; Voice.VoiceChunk "pixel" chunk800;
             Voice.VoiceSend 7 "pixel" "gsk";
             Voice.VoiceStart 7 "pixel" "gsk";
             Voice.Resolve 0 (Some "turn on the lights")] in
  let s := Voice.run Voice.init es in
  Voice.sent s = [(7%nat, Voice.transcript_final "turn on the lights")]
  /\ Voice.activeSessions s !! "pixel" = None
  /\ Voice.timers s !! 0%nat = None
  /\ Voice.c_session <$> Voice.timers s !! 1%nat = Some 1%nat.
Proof. vm_compute. repeat split. Qed.
(* ===================================================================== *)
(** * Further properties of the skills                                    *)
(* ===================================================================== *)

(** ** Sorting with a comparator *)

Section SortFacts.
Context {A : Type}.
Implicit Types (l : list A) (x y : A).

Lemma insert_by_perm (cmp : A -> A -> Z) x l :
  Permutation (Js.insert_by cmp x l) (x :: l).
Proof.
  induction l as [|y l IH]; simpl; [reflexivity|].
  destruct (cmp x y <=? 0); [reflexivity|].
  rewrite IH. apply perm_swap.
Qed.

Lemma sort_by_perm (cmp : A -> A -> Z) l : Permutation (Js.sort_by cmp l) l.
Proof.
  induction l as [|x l IH]; simpl; [constructor|].
  rewrite insert_by_perm. constructor. exact IH.
Qed.

Section Ordered.
Variable cmp : A -> A -> Z.
Variable R : A -> A -> Prop.
Hypothesis R_trans : forall a b c, R a b -> R b c -> R a c.
Hypothesis cmp_le : forall a b, cmp a b <= 0 -> R a b.
Hypothesis cmp_gt : forall a b, 0 < cmp a b -> R b a.

Lemma insert_by_sorted x l :
  StronglySorted R l -> StronglySorted R (Js.insert_by cmp x l).
Proof.
  induction 1 as [|y l Hl IH Hy]; simpl.
  - repeat constructor.
  - destruct (cmp x y <=? 0) eqn:Hc.
    + apply Z.leb_le in Hc. constructor; [constructor; assumption|].
      constructor; [apply cmp_le; exact Hc|].
      rewrite List.Forall_forall in Hy |- *. intros z Hz.
      apply (R_trans x y z); [apply cmp_le; exact Hc|apply Hy; exact Hz].
    + apply Z.leb_gt in Hc. constructor; [exact IH|].
      rewrite List.Forall_forall in Hy |- *. intros z Hz.
      apply insert_by_In in Hz. destruct Hz as [->|Hz]; [apply cmp_gt; exact Hc|].
      apply Hy. exact Hz.
Qed.

Lemma sort_by_sorted l : StronglySorted R (Js.sort_by cmp l).
Proof.
  induction l as [|x l IH]; simpl; [constructor|]. apply insert_by_sorted. exact IH.
Qed.

End Ordered.

(** Sorting by a key: the head of the result is the first of the least
    elements of the list, which is what makes the sort stable. *)
Lemma sort_by_head_first (cmp : A -> A -> Z) (f : A -> Z) l :
  (forall a b, cmp a b <= 0 <-> f a <= f b) ->
  match Js.sort_by cmp l with
  | [] => l = []
  | h :: _ =>
      exists pre post, l = pre ++ h :: post
        /\ (forall y, In y pre -> f h < f y)
        /\ (forall y, In y post -> f h <= f y)
  end.
Proof.
  intros Hcmp. induction l as [|x l IH]; simpl; [reflexivity|].
  destruct (Js.sort_by cmp l) as [|h t] eqn:Hs.
  - subst l. simpl. exists [], []. split; [reflexivity|]. split; intros y [].
  - destruct IH as (pre & post & -> & Hpre & Hpost). simpl.
    destruct (cmp x h <=? 0) eqn:Hc.
    + apply Z.leb_le, Hcmp in Hc. exists [], (pre ++ h :: post).
      split; [reflexivity|]. split; [intros y []|].
      intros y Hy. apply in_app_or in Hy. destruct Hy as [Hy|[<-|Hy]].
      * specialize (Hpre y Hy). lia.
      * exact Hc.
      * specialize (Hpost y Hy). lia.
    + apply Z.leb_gt in Hc. assert (f h < f x) as Hlt.
      { destruct (Z.le_gt_cases (f x) (f h)) as [Hle|Hgt]; [|lia].
        apply Hcmp in Hle. lia. }
      exists (x :: pre), post. split; [reflexivity|]. split; [|exact Hpost].
      intros y [<-|Hy]; [exact Hlt|apply Hpre; exact Hy].
Qed.

(** A sorted list is left as it is. *)
Lemma sort_by_sorted_id (cmp : A -> A -> Z) l :
  StronglySorted (fun a b => cmp a b <= 0) l -> Js.sort_by cmp l = l.
Proof.
  induction 1 as [|x l Hl IH Hx]; simpl; [reflexivity|].
  rewrite IH. destruct l as [|y l']; [reflexivity|]. simpl.
  apply Forall_inv in Hx. apply Z.leb_le in Hx. rewrite Hx. reflexivity.
Qed.

Lemma filter_eq_app_cons (p : A -> bool) l (a b : list A) x :
  List.filter p l = a ++ x :: b ->
  exists l1 l2, l = l1 ++ x :: l2 /\ List.filter p l1 = a /\ List.filter p l2 = b
    /\ p x = true.
Proof.
  revert a. induction l as [|y l IH]; intros a H; simpl in H.
  - destruct a; discriminate H.
  - destruct (p y) eqn:Hy.
    + destruct a as [|z a]; simpl in H; inversion H; subst.
      * exists [], l. repeat split. exact Hy.
      * destruct (IH a H2) as (l1 & l2 & -> & H1 & H3 & Hx).
        exists (z :: l1), l2. simpl. rewrite Hy, H1. repeat split; assumption.
    + destruct (IH a H) as (l1 & l2 & -> & H1 & H3 & Hx).
      exists (y :: l1), l2. simpl. rewrite Hy. repeat split; assumption.
Qed.

End SortFacts.

(** ** The best match of find_and_tap *)

Section BestMatch.
Import Js Skills.

(** X1.  [findMatch] answers [None] exactly when no element carries a
    text that contains the query.  Otherwise it picks, among the
    elements whose text contains the query, one of the highest score
    (enabled 10, clickable or long-clickable 5, exact text 20 instead of
    5), and of several with that score the first on the screen. *)
Theorem findMatch_best (elements : list UIElement) (q : string) :
  match findMatch elements q with
  | None => forall el, In el elements -> text_matches q el = false
  | Some best =>
      exists pre post, elements = pre ++ best :: post
        /\ text_matches q best = true
        /\ (forall el, In el pre -> text_matches q el = true ->
              match_score q el < match_score q best)
        /\ (forall el, In el post -> text_matches q el = true ->
              match_score q el <= match_score q best)
  end.
Proof.
  unfold findMatch.
  set (matches := List.filter (text_matches q) elements).
  set (scored := List.map (fun el => (el, match_score q el)) matches).
  pose proof (sort_by_head_first (fun a b : UIElement * Z => snd b - snd a)
                (fun p => - snd p) scored) as H.
  destruct (sort_by _ scored) as [|h t].
  - intros el Hel. destruct (text_matches q el) eqn:Hm; [|reflexivity].
    exfalso. assert (scored = []) as Hnil by (apply H; intros; lia).
    apply map_eq_nil in Hnil. exact (filter_some _ _ _ Hel Hm Hnil).
  - destruct H as (pre & post & Heq & Hpre & Hpost); [intros; lia|].
    unfold scored in Heq. apply map_eq_app in Heq.
    destruct Heq as (m1 & m2 & Hm & Hm1 & Hm2).
    apply map_eq_cons in Hm2. destruct Hm2 as (best & m3 & -> & Hbest & Hm3).
    unfold matches in Hm. apply filter_eq_app_cons in Hm.
    destruct Hm as (l1 & l2 & -> & Hl1 & Hl2 & Hb). subst h. simpl.
    exists l1, l2. split; [reflexivity|]. split; [exact Hb|]. split.
    + intros el Hel Hmatch.
      assert (In (el, match_score q el) pre) as Hin.
      { rewrite <- Hm1. apply in_map_iff. exists el. split; [reflexivity|].
        rewrite <- Hl1. apply filter_In. split; assumption. }
      specialize (Hpre _ Hin). simpl in Hpre. lia.
    + intros el Hel Hmatch.
      assert (In (el, match_score q el) post) as Hin.
      { rewrite <- Hm3. apply in_map_iff. exists el. split; [reflexivity|].
        rewrite <- Hl2. apply filter_In. split; assumption. }
      specialize (Hpost _ Hin). simpl in Hpost. lia.
Qed.

End BestMatch.

(** ** The screen estimate and the rows of like buttons *)

Section LikeRows.
Import Js Skills.

Lemma getScreenApprox_from (elements : list UIElement) (acc : Z * Z) :
  let r := fold_left
             (fun '(maxX, maxY) el =>
                let '(x, y) := el_center el in
                let '(w, h) := el_size el in
                (Z.max maxX (x + Z.max 0 (w / 2)), Z.max maxY (y + Z.max 0 (h / 2))))
             elements acc in
  fst acc <= fst r /\ snd acc <= snd r
  /\ forall el, In el elements ->
       cx el + Z.max 0 (fst (el_size el) / 2) <= fst r
       /\ cy el + Z.max 0 (snd (el_size el) / 2) <= snd r.
Proof.
  revert acc. induction elements as [|e elements IH]; intros [maxX maxY]; simpl.
  - split; [lia|]. split; [lia|]. intros el [].
  - unfold cx, cy in *. destruct (el_center e) as [x y] eqn:Hc.
    destruct (el_size e) as [w h] eqn:Hs.
    specialize (IH (Z.max maxX (x + Z.max 0 (w / 2)), Z.max maxY (y + Z.max 0 (h / 2)))).
    simpl in IH. destruct IH as (Hx & Hy & Hall).
    split; [lia|]. split; [lia|].
    intros el [<-|Hel]; [|apply Hall; exact Hel].
    rewrite Hc, Hs. simpl. lia.
Qed.

(** X2.  The screen estimate is never smaller than 1080 x 2400, and it
    reaches the right and the lower edge of every element: its centre
    plus half of its size, where the size is positive. *)
Theorem getScreenApprox_covers (elements : list UIElement) :
  1080 <= fst (getScreenApprox elements)
  /\ 2400 <= snd (getScreenApprox elements)
  /\ forall el, In el elements ->
       cx el + Z.max 0 (fst (el_size el) / 2) <= fst (getScreenApprox elements)
       /\ cy el + Z.max 0 (snd (el_size el) / 2) <= snd (getScreenApprox elements).
Proof. exact (getScreenApprox_from elements (1080, 2400)). Qed.

Lemma sorted_app_r {A} (R : A -> A -> Prop) (l1 l2 : list A) :
  StronglySorted R (l1 ++ l2) -> StronglySorted R l2.
Proof.
  induction l1 as [|x l1 IH]; simpl; [auto|].
  intros H. apply StronglySorted_inv in H. apply IH. apply H.
Qed.

Lemma sorted_snoc {A} (R : A -> A -> Prop) (l : list A) (x : A) :
  StronglySorted R (l ++ [x]) <-> StronglySorted R l /\ Forall (fun y => R y x) l.
Proof.
  induction l as [|y l IH]; simpl.
  - split; [intros _; split; constructor|intros _; repeat constructor].
  - split.
    + intros H. apply StronglySorted_inv in H. destruct H as [Hs Hy].
      apply IH in Hs. destruct Hs as [Hs Hl].
      apply List.Forall_app in Hy. destruct Hy as [Hy Hx].
      split; [constructor; assumption|]. constructor; [|exact Hl].
      exact (Forall_inv Hx).
    + intros [Hs Hl]. apply StronglySorted_inv in Hs. destruct Hs as [Hs Hy].
      constructor.
      * apply IH. split; [exact Hs|]. exact (Forall_inv_tail Hl).
      * apply List.Forall_app. split; [exact Hy|]. constructor; [|constructor].
        exact (Forall_inv Hl).
Qed.

Lemma findIndex_Some {A} (p : A -> bool) (l : list A) (i : nat) :
  findIndex p l = Some i ->
  exists pre x post, l = pre ++ x :: post /\ length pre = i /\ p x = true.
Proof.
  revert i. induction l as [|y l IH]; intros i H; simpl in H; [discriminate|].
  destruct (p y) eqn:Hy.
  - inversion H; subst. exists [], y, l. auto.
  - destruct (findIndex p l) as [j|]; [|discriminate]. inversion H; subst.
    destruct (IH j eq_refl) as (pre & x & post & -> & Hlen & Hx).
    exists (y :: pre), x, post. simpl. auto.
Qed.

Lemma findIndex_None {A} (p : A -> bool) (l : list A) :
  findIndex p l = None -> forall x, In x l -> p x = false.
Proof.
  induction l as [|y l IH]; intros H x; simpl in H; [intros []|].
  destruct (p y) eqn:Hy; [discriminate|].
  destruct (findIndex p l); [discriminate|].
  intros [<-|Hx]; [exact Hy|apply IH; [reflexivity|exact Hx]].
Qed.

(** One candidate more: the rows stay more than 24 px apart when the
    candidate lies at or below every row. *)
Lemma add_row_apart (P : UIElement -> Prop) (rows : list UIElement) (el : UIElement) :
  StronglySorted (fun a b => cy a + 24 < cy b) rows ->
  (forall r, In r rows -> cy r <= cy el) ->
  Forall P rows -> P el ->
  StronglySorted (fun a b => cy a + 24 < cy b) (add_row rows el)
  /\ (forall r, In r (add_row rows el) -> cy r <= cy el)
  /\ Forall P (add_row rows el).
Proof.
  intros Hs Hle HP Hel. unfold add_row.
  destruct (findIndex _ rows) as [i|] eqn:Hi.
  - apply findIndex_Some in Hi. destruct Hi as (pre & r & post & -> & <- & Hr).
    apply Z.leb_le in Hr.
    assert (post = []) as ->.
    { destruct post as [|z post]; [reflexivity|]. exfalso.
      apply sorted_app_r in Hs. apply StronglySorted_inv in Hs.
      destruct Hs as [_ Hz]. apply Forall_inv in Hz.
      assert (cy z <= cy el) by (apply Hle; apply in_or_app; right; right; left; reflexivity).
      lia. }
    rewrite list_lookup_middle by reflexivity.
    destruct (cx r <? cx el); [|auto].
    rewrite insert_app_r_alt, Nat.sub_diag by lia. simpl.
    apply sorted_snoc in Hs. destruct Hs as [Hs Hpre].
    apply List.Forall_app in HP. destruct HP as [HP _].
    split; [|split].
    + apply sorted_snoc. split; [exact Hs|].
      eapply List.Forall_impl; [|exact Hpre]. simpl. intros a Ha.
      assert (cy r <= cy el) by (apply Hle; apply in_or_app; right; left; reflexivity).
      lia.
    + intros a Ha. apply in_app_or in Ha. destruct Ha as [Ha|[<-|[]]]; [|lia].
      apply Hle. apply in_or_app. left. exact Ha.
    + apply List.Forall_app. split; [exact HP|]. constructor; [exact Hel|constructor].
  - pose proof (findIndex_None _ _ Hi) as Hno. split; [|split].
    + apply sorted_snoc. split; [exact Hs|]. apply List.Forall_forall. intros r Hr.
      specialize (Hno r Hr). apply Z.leb_gt in Hno. specialize (Hle r Hr). lia.
    + intros a Ha. apply in_app_or in Ha. destruct Ha as [Ha|[<-|[]]]; [|lia].
      apply Hle. exact Ha.
    + apply List.Forall_app. split; [exact HP|]. constructor; [exact Hel|constructor].
Qed.

Lemma add_rows_apart (P : UIElement -> Prop) (candidates rows : list UIElement) :
  StronglySorted (fun a b => cy a <= cy b) candidates ->
  StronglySorted (fun a b => cy a + 24 < cy b) rows ->
  (forall r c, In r rows -> In c candidates -> cy r <= cy c) ->
  Forall P rows -> Forall P candidates ->
  StronglySorted (fun a b => cy a + 24 < cy b) (fold_left add_row candidates rows)
  /\ Forall P (fold_left add_row candidates rows).
Proof.
  revert rows. induction candidates as [|c candidates IH]; intros rows Hc Hs Hle HP HPc.
  - simpl. auto.
  - simpl. apply StronglySorted_inv in Hc. destruct Hc as [Hc Hhd].
    destruct (add_row_apart P rows c Hs) as (Hs' & Hle' & HP').
    + intros r Hr. apply Hle; [exact Hr|left; reflexivity].
    + exact HP.
    + exact (Forall_inv HPc).
    + apply IH; [exact Hc|exact Hs'| |exact HP'|exact (Forall_inv_tail HPc)].
      intros r c' Hr Hc'. specialize (Hle' r Hr).
      rewrite List.Forall_forall in Hhd. specialize (Hhd c' Hc'). simpl in Hhd. lia.
Qed.

Lemma like_rows_sorted (elements : list UIElement) :
  StronglySorted (fun a b => cy a + 24 < cy b) (collectCommentLikeRows elements)
  /\ Forall (fun r => In r elements
                      /\ isCommentLikeButton r (fst (getScreenApprox elements)) = true)
            (collectCommentLikeRows elements).
Proof.
  unfold collectCommentLikeRows.
  destruct (getScreenApprox elements) as [width height]. simpl fst.
  set (cmp := fun a b : UIElement => or_num (cy a - cy b) (cx b - cx a)).
  set (buttons := List.filter (fun el => isCommentLikeButton el width) elements).
  assert (StronglySorted (fun a b => cy a <= cy b) (sort_by cmp buttons)) as Hsorted.
  { apply sort_by_sorted.
    - intros a b c. lia.
    - intros a b. unfold cmp, or_num. destruct (cy a - cy b =? 0) eqn:E; lia.
    - intros a b. unfold cmp, or_num. destruct (cy a - cy b =? 0) eqn:E; lia. }
  destruct (add_rows_apart
              (fun r => In r elements /\ isCommentLikeButton r width = true)
              (sort_by cmp buttons) []) as [Hs HP].
  - exact Hsorted.
  - constructor.
  - intros r c [].
  - constructor.
  - apply List.Forall_forall. intros c Hc. apply sort_by_In in Hc.
    apply filter_In in Hc. exact Hc.
  - rewrite sort_by_sorted_id; [split; assumption|].
    clear HP. induction Hs as [|x l Hl IH Hx]; constructor; [exact IH|].
    eapply List.Forall_impl; [|exact Hx]. simpl. intros a Ha. lia.
Qed.

(** X3.  The rows of like buttons that [like_nth_comment] and
    [verify_nth_comment_like] count come top to bottom and lie more than
    24 px apart from one another, and each of them is an element of the
    screen that passes [isCommentLikeButton]. *)
Theorem collectCommentLikeRows_apart (elements : list UIElement) :
  StronglySorted (fun a b => cy a + 24 < cy b) (collectCommentLikeRows elements)
  /\ Forall (fun r => In r elements
                      /\ isCommentLikeButton r (fst (getScreenApprox elements)) = true)
            (collectCommentLikeRows elements).
Proof. exact (like_rows_sorted elements). Qed.

End LikeRows.

(** ** read_screen *)

Section ReadScreen.
Import Js Skills.
Variable cfg : Config.

Lemma has_text_In (l : list string) (t : string) : has_text l t = true <-> In t l.
Proof.
  unfold has_text. rewrite existsb_exists. split.
  - intros (x & Hx & Heq). apply String.eqb_eq in Heq. subst x. exact Hx.
  - intros Ht. exists t. split; [exact Ht|apply String.eqb_refl].
Qed.

Lemma truthy_nonempty (t : string) : truthy t = true <-> t <> "".
Proof. destruct t; simpl; split; congruence. Qed.

Lemma collectTexts_new (allTexts : list string) (els : list UIElement) :
  exists new,
    collectTexts allTexts els = (allTexts ++ new, Z.of_nat (length new))
    /\ (List.NoDup allTexts -> List.NoDup (allTexts ++ new))
    /\ (forall t, In t new -> t <> "" /\ exists el, In el els /\ el_text el = t)
    /\ (forall el, In el els -> el_text el <> "" -> In (el_text el) (allTexts ++ new)).
Proof.
  revert allTexts. induction els as [|el els IH]; intros allTexts; simpl.
  - exists []. rewrite List.app_nil_r. split; [reflexivity|]. split; [auto|].
    split; [intros t []|intros el []].
  - destruct (truthy (el_text el)) eqn:Ht; simpl.
    + destruct (has_text allTexts (el_text el)) eqn:Hseen; simpl.
      * destruct (IH allTexts) as (new & -> & Hnd & Hnew & Hall).
        exists new. split; [reflexivity|]. split; [exact Hnd|]. split.
        -- intros t Hin. destruct (Hnew t Hin) as (Hne & e & He & Heq).
           split; [exact Hne|]. exists e. split; [right; exact He|exact Heq].
        -- intros e [<-|He] Hne; [|apply Hall; assumption].
           apply in_or_app. left. apply has_text_In. exact Hseen.
      * destruct (IH (allTexts ++ [el_text el])) as (new & -> & Hnd & Hnew & Hall).
        exists (el_text el :: new). rewrite <- app_assoc. simpl.
        split; [f_equal; lia|]. split; [|split].
        -- intros Hd. rewrite <- app_assoc in Hnd. apply Hnd.
           apply List.NoDup_app; [exact Hd|repeat constructor; intros []|].
           intros t Hin [<-|[]]. apply has_text_In in Hin. congruence.
        -- intros t [<-|Hin].
           ++ split; [apply truthy_nonempty; exact Ht|].
              exists el. split; [left; reflexivity|reflexivity].
           ++ destruct (Hnew t Hin) as (Hne & e & He & Heq).
              split; [exact Hne|]. exists e. split; [right; exact He|exact Heq].
        -- intros e [<-|He] Hne.
           ++ apply in_or_app. right. left. reflexivity.
           ++ specialize (Hall e He Hne). rewrite <- app_assoc in Hall. exact Hall.
    + destruct (IH allTexts) as (new & -> & Hnd & Hnew & Hall).
      exists new. split; [reflexivity|]. split; [exact Hnd|]. split.
      * intros t Hin. destruct (Hnew t Hin) as (Hne & e & He & Heq).
        split; [exact Hne|]. exists e. split; [right; exact He|exact Heq].
      * intros e [<-|He] Hne; [|apply Hall; assumption].
        apply truthy_nonempty in Hne. congruence.
Qed.

Lemma sorted_map_S (l : list nat) :
  StronglySorted lt l -> StronglySorted lt (List.map S l).
Proof.
  induction 1 as [|x l Hs IH Hall]; simpl; constructor; [exact IH|].
  apply List.Forall_forall. intros y Hy. apply in_map_iff in Hy.
  destruct Hy as (z & <- & Hz). rewrite List.Forall_forall in Hall.
  specialize (Hall z Hz). lia.
Qed.

(** What a pass adds, in full: the texts that are new, each once, in
    the order of their first places on the screen. *)
Lemma collectTexts_ordered (els : list UIElement) : forall allTexts,
  exists new,
    collectTexts allTexts els = (allTexts ++ new, Z.of_nat (length new))
    /\ List.NoDup new
    /\ (forall t, In t new <->
                  t <> "" /\ ~ In t allTexts /\ exists el, In el els /\ el_text el = t)
    /\ StronglySorted lt
         (List.map (fun t => first_place t (List.map el_text els)) new).
Proof.
  induction els as [|el els IH]; intros allTexts; simpl.
  - exists []. rewrite List.app_nil_r. split; [reflexivity|]. split; [constructor|].
    split; [|constructor]. intros t. split; [intros []|]. intros (_ & _ & e & [] & _).
  - assert (forall new,
              (forall t, In t new -> t <> el_text el) ->
              List.map (fun t => if String.eqb (el_text el) t then 0%nat
                                 else S (first_place t (List.map el_text els))) new
              = List.map S (List.map (fun t => first_place t (List.map el_text els)) new))
      as Hshift.
    { intros new Hother. rewrite List.map_map. apply List.map_ext_in.
      intros t Ht. destruct (String.eqb_spec (el_text el) t) as [Heq|_]; [|reflexivity].
      exfalso. exact (Hother t Ht (eq_sym Heq)). }
    destruct (truthy (el_text el)) eqn:Ht; simpl.
    + destruct (has_text allTexts (el_text el)) eqn:Hseen; simpl.
      * destruct (IH allTexts) as (new & -> & Hnd & Hnew & Hord).
        exists new. split; [reflexivity|]. split; [exact Hnd|]. split.
        -- intros t. rewrite Hnew. split.
           ++ intros (Hne & Hfresh & e & He & Heq).
              split; [exact Hne|]. split; [exact Hfresh|]. exists e. auto.
           ++ intros (Hne & Hfresh & e & [<-|He] & Heq).
              ** exfalso. apply Hfresh. rewrite <- Heq. apply has_text_In. exact Hseen.
              ** split; [exact Hne|]. split; [exact Hfresh|]. exists e. auto.
        -- rewrite Hshift; [apply sorted_map_S; exact Hord|].
           intros t Hin Heq. apply Hnew in Hin. destruct Hin as (_ & Hfresh & _).
           apply Hfresh. rewrite Heq. apply has_text_In. exact Hseen.
      * destruct (IH (allTexts ++ [el_text el])) as (new & -> & Hnd & Hnew & Hord).
        assert (forall t, In t new -> t <> el_text el) as Hother.
        { intros t Hin Heq. apply Hnew in Hin. destruct Hin as (_ & Hfresh & _).
          apply Hfresh. apply in_or_app. right. left. symmetry. exact Heq. }
        exists (el_text el :: new). rewrite <- app_assoc. simpl.
        split; [f_equal; lia|]. split; [|split].
        -- constructor; [|exact Hnd]. intros Hin. exact (Hother _ Hin eq_refl).
        -- intros t. split.
           ++ intros [<-|Hin].
              ** split; [apply truthy_nonempty; exact Ht|]. split.
                 --- intros Hin. apply has_text_In in Hin. congruence.
                 --- exists el. auto.
              ** apply Hnew in Hin. destruct Hin as (Hne & Hfresh & e & He & Heq).
                 split; [exact Hne|]. split.
                 --- intros Hin. apply Hfresh. apply in_or_app. left. exact Hin.
                 --- exists e. auto.
           ++ intros (Hne & Hfresh & e & He & Heq).
              destruct (String.eqb_spec (el_text el) t) as [Hsame|Hdiff]; [left; exact Hsame|].
              right. apply Hnew. split; [exact Hne|]. split.
              ** intros Hin. apply in_app_or in Hin. destruct Hin as [Hin|[Hin|[]]]; auto.
              ** destruct He as [<-|He]; [contradiction|]. exists e. auto.
        -- rewrite String.eqb_refl.
           rewrite (Hshift new Hother).
           constructor; [apply sorted_map_S; exact Hord|].
           apply List.Forall_forall. intros y Hy. apply in_map_iff in Hy.
           destruct Hy as (z & <- & _). lia.
    + destruct (IH allTexts) as (new & -> & Hnd & Hnew & Hord).
      exists new. split; [reflexivity|]. split; [exact Hnd|]. split.
      * intros t. rewrite Hnew. split.
        -- intros (Hne & Hfresh & e & He & Heq).
           split; [exact Hne|]. split; [exact Hfresh|]. exists e. auto.
        -- intros (Hne & Hfresh & e & [<-|He] & Heq).
           ++ exfalso. apply truthy_nonempty in Hne. congruence.
           ++ split; [exact Hne|]. split; [exact Hfresh|]. exists e. auto.
      * rewrite Hshift; [apply sorted_map_S; exact Hord|].
        intros t Hin Heq. apply Hnew in Hin. destruct Hin as (Hne & _).
        apply truthy_nonempty in Hne. congruence.
Qed.

(** X4.  The texts [read_screen] collects: a pass over a screen appends
    exactly the non-empty texts of the screen that were not collected
    before, each once and in the order of their first places on the
    screen, and counts them; texts collected without repetition stay
    without repetition. *)
Theorem collectTexts_fresh (allTexts : list string) (els : list UIElement) :
  exists new,
    collectTexts allTexts els = (allTexts ++ new, Z.of_nat (length new))
    /\ List.NoDup new
    /\ (forall t, In t new <->
                  t <> "" /\ ~ In t allTexts /\ exists el, In el els /\ el_text el = t)
    /\ StronglySorted lt
         (List.map (fun t => first_place t (List.map el_text els)) new)
    /\ (List.NoDup allTexts -> List.NoDup (allTexts ++ new)).
Proof.
  destruct (collectTexts_ordered els allTexts) as (new & Heq & Hnd & Hnew & Hord).
  exists new. split; [exact Heq|]. split; [exact Hnd|]. split; [exact Hnew|].
  split; [exact Hord|].
  intros Hall. apply List.NoDup_app; [exact Hall|exact Hnd|].
  intros t Hold Hin. apply Hnew in Hin. tauto.
Qed.

End ReadScreen.

(** ** The device under a skill, faults included *)

Section DeviceAny.
Import Js Skills.
Variable cfg : Config.

Lemma slept_ms_app (a b : list effect) : slept_ms (a ++ b) = slept_ms a + slept_ms b.
Proof.
  induction a as [|e a IH]; simpl; [reflexivity|]. destruct e; rewrite IH; lia.
Qed.

Lemma runAdbCommand_any (args : list string) (w : World) :
  exists o w', runAdbCommand args w = (o, w')
    /\ trace w' = trace w ++ [Adb args]
    /\ lastCommentLikeAttempt w' = lastCommentLikeAttempt w.
Proof.
  unfold runAdbCommand. simpl.
  destruct (faults w) as [|[|] fs]; eexists; eexists; (split; [reflexivity|]);
    simpl; auto.
Qed.

(** A capture never throws and never sleeps: a failed adb invocation is
    caught. *)
Lemma rescanScreen_any (w : World) :
  exists els w', rescanScreen cfg w = (Ok els, w')
    /\ slept_ms (trace w') = slept_ms (trace w)
    /\ lastCommentLikeAttempt w' = lastCommentLikeAttempt w.
Proof.
  unfold rescanScreen, bind, catch.
  destruct (runAdbCommand_any ["shell"; "uiautomator"; "dump"; SCREEN_DUMP_PATH cfg] w)
    as (o1 & w1 & -> & Ht1 & Hl1).
  assert (slept_ms (trace w1) = slept_ms (trace w)) as Hs1.
  { rewrite Ht1, slept_ms_app. simpl. lia. }
  destruct o1 as [[]|].
  - destruct (runAdbCommand_any ["pull"; SCREEN_DUMP_PATH cfg; LOCAL_DUMP_PATH cfg] w1)
      as (o2 & w2 & -> & Ht2 & Hl2).
    assert (slept_ms (trace w2) = slept_ms (trace w)) as Hs2.
    { rewrite Ht2, slept_ms_app. simpl. lia. }
    destruct o2 as [[]|].
    + unfold ret, readDump. destruct (screens w2) as [|[els|] rest];
        eexists; eexists; (split; [reflexivity|]); simpl; split; congruence.
    + unfold ret. eexists; eexists; (split; [reflexivity|]); split; congruence.
  - unfold ret. eexists; eexists; (split; [reflexivity|]); split; congruence.
Qed.

(** A capture that no fault disturbs, whatever dumps are left. *)
Lemma rescanScreen_next (w : World) :
  no_faults w ->
  exists w', rescanScreen cfg w = (Ok (next_screen w), w')
    /\ trace w' = trace w ++ capture_effects cfg
    /\ screens w' = tail (screens w)
    /\ lastCommentLikeAttempt w' = lastCommentLikeAttempt w
    /\ no_faults w'.
Proof.
  intros Hok. unfold next_screen. destruct (screens w) as [|o rest] eqn:Hscr.
  - unfold rescanScreen, bind, catch.
    destruct (runAdbCommand_ok ["shell"; "uiautomator"; "dump"; SCREEN_DUMP_PATH cfg] w Hok)
      as (w1 & -> & Ht1 & Hs1 & Hl1 & Hok1).
    destruct (runAdbCommand_ok ["pull"; SCREEN_DUMP_PATH cfg; LOCAL_DUMP_PATH cfg] w1 Hok1)
      as (w2 & -> & Ht2 & Hs2 & Hl2 & Hok2).
    unfold ret, readDump. rewrite Hs2, Hs1, Hscr.
    eexists; split; [reflexivity|]. simpl.
    rewrite Ht2, Ht1, Hl2, Hl1, Hs2, Hs1, Hscr, <- app_assoc. repeat split. exact Hok2.
  - destruct (rescanScreen_ok cfg w o rest Hok Hscr) as (w' & Hr & Ht & Hs & Hl & Hok').
    exists w'. destruct o as [els|]; simpl in *; auto.
Qed.

End DeviceAny.

(** ** read_screen, scroll by scroll *)

Section ReadScreenLoop.
Import Js Skills.
Variable cfg : Config.

Lemma readScreen_loop_ok (n : nat) :
  forall (allTexts : list string) (scrollsDone : Z) (w : World),
  no_faults w -> List.NoDup allTexts ->
  exists texts k w',
    readScreen_loop cfg n allTexts scrollsDone w = (Ok (texts, scrollsDone + Z.of_nat k), w')
    /\ (k <= n)%nat /\ (n = 0 \/ 1 <= k)%nat
    /\ List.NoDup texts
    /\ (forall t, In t allTexts -> In t texts)
    /\ trace w' = trace w ++ concat (repeat (scroll_effects cfg) k)
    /\ no_faults w'.
Proof.
  induction n as [|n IH]; intros allTexts scrollsDone w Hok Hnd.
  - exists allTexts, 0%nat, w. simpl. unfold ret. rewrite Z.add_0_r, List.app_nil_r.
    repeat split; auto.
  - simpl. unfold bind.
    destruct (swipe_up_ok cfg w Hok) as (w1 & -> & Ht1 & Hs1 & Hl1 & Hok1).
    destruct (sleepSync_ok 1500 w1 Hok1) as (w2 & -> & Ht2 & Hs2 & Hl2 & Hok2).
    destruct (rescanScreen_next cfg w2 Hok2) as (w3 & -> & Ht3 & Hs3 & Hl3 & Hok3).
    destruct (collectTexts_new allTexts (next_screen w2)) as (new & -> & Hnd' & _ & _).
    assert (trace w3 = trace w ++ scroll_effects cfg) as Ht.
    { rewrite Ht3, Ht2, Ht1. unfold scroll_effects. rewrite <- !app_assoc. reflexivity. }
    destruct (Z.of_nat (length new) =? 0).
    + exists (allTexts ++ new), 1%nat, w3. unfold ret. cbn [concat repeat Z.of_nat].
      rewrite List.app_nil_r.
      repeat split; auto; try lia. intros t Hin. apply in_or_app. left. exact Hin.
    + destruct (IH (allTexts ++ new) (scrollsDone + 1) w3 Hok3 (Hnd' Hnd))
        as (texts & k & w4 & -> & Hk & _ & Hnd4 & Hin4 & Ht4 & Hok4).
      exists texts, (S k), w4.
      replace (scrollsDone + 1 + Z.of_nat k) with (scrollsDone + Z.of_nat (S k)) by lia.
      split; [reflexivity|]. split; [lia|]. split; [right; lia|]. split; [exact Hnd4|].
      split; [|split; [|exact Hok4]].
      * intros t Hin. apply Hin4. apply in_or_app. left. exact Hin.
      * rewrite Ht4, Ht. cbn [concat repeat]. rewrite <- app_assoc. reflexivity.
Qed.

(** X5.  On a device that throws at no adb invocation, [read_screen]
    always succeeds.  It scrolls at least once and at most five times,
    each scroll followed by the 1500 ms settle and a capture, and then
    copies what it read, unless that is empty.  What it read holds
    every non-empty text of the screen handed in, and no text twice. *)
Theorem readScreen_bounded (elements : list UIElement) (w : World) :
  no_faults w ->
  exists texts k w',
    readScreen cfg elements w =
      (Ok {| success := true;
             message := "Read " +:+ num_to_string (count texts)
                        +:+ " text elements across " +:+ num_to_string (Z.of_nat k)
                        +:+ " scrolls ("
                        +:+ num_to_string (len (join (String "010"%char "") texts))
                        +:+ " chars), copied to clipboard";
             data := Some (join (String "010"%char "") texts) |}, w')
    /\ (1 <= k <= 5)%nat
    /\ List.NoDup texts
    /\ (forall el, In el elements -> el_text el <> "" -> In (el_text el) texts)
    /\ trace w' = trace w ++ concat (repeat (scroll_effects cfg) k)
                  ++ (if 0 <? len (join (String "010"%char "") texts)
                      then [clipboard_effect (join (String "010"%char "") texts)]
                      else []).
Proof.
  intros Hok. unfold readScreen.
  destruct (collectTexts_new [] elements) as (new & -> & Hnd & _ & Hall).
  simpl app in *. unfold bind.
  destruct (readScreen_loop_ok 5 new 0 w Hok (Hnd (List.NoDup_nil _)))
    as (texts & k & w1 & -> & Hk & Hk1 & Hnd1 & Hin1 & Ht1 & Hok1).
  rewrite Z.add_0_l.
  destruct (0 <? len (join (String "010"%char "") texts)) eqn:Hlen.
  - unfold safeClipboardSet.
    destruct (runAdbCommand_ok
                ["shell"; "cmd clipboard set-text '"
                          +:+ replaceAll_char "'"%char "'\''"
                                (join (String "010"%char "") texts) +:+ "'"] w1 Hok1)
      as (w2 & -> & Ht2 & _).
    exists texts, k, w2. unfold ret. split; [reflexivity|].
    split; [destruct Hk1; [discriminate|lia]|]. split; [exact Hnd1|].
    split; [intros el Hel Hne; apply Hin1, Hall; assumption|].
    rewrite Hlen, Ht2, Ht1, <- app_assoc. reflexivity.
  - exists texts, k, w1. unfold ret. split; [reflexivity|].
    split; [destruct Hk1; [discriminate|lia]|]. split; [exact Hnd1|].
    split; [intros el Hel Hne; apply Hin1, Hall; assumption|].
    rewrite Hlen, Ht1, List.app_nil_r. reflexivity.
Qed.

End ReadScreenLoop.

Lemma readScreen_bounded_witness :
  exists texts k w',
    Skills.readScreen cfg0 [element "android:id/title" "Inbox" 540 400 true "tap"]
      (device0 [Some [element "android:id/title" "Inbox" 540 400 true "tap"]]) =
      (Skills.Ok
         {| Skills.success := true;
            Skills.message :=
              "Read " +:+ Js.num_to_string (Skills.count texts)
              +:+ " text elements across " +:+ Js.num_to_string (Z.of_nat k)
              +:+ " scrolls ("
              +:+ Js.num_to_string (Skills.len (Js.join (String "010"%char "") texts))
              +:+ " chars), copied to clipboard";
            Skills.data := Some (Js.join (String "010"%char "") texts) |}, w')
    /\ (1 <= k <= 5)%nat
    /\ List.NoDup texts
    /\ (forall el, In el [element "android:id/title" "Inbox" 540 400 true "tap"] ->
          Skills.el_text el <> "" -> In (Skills.el_text el) texts)
    /\ Skills.trace w' =
       [] ++ concat (repeat (scroll_effects cfg0) k)
          ++ (if 0 <? Skills.len (Js.join (String "010"%char "") texts)
              then [clipboard_effect (Js.join (String "010"%char "") texts)]
              else []).
Proof.
  apply (readScreen_bounded cfg0 [element "android:id/title" "Inbox" 540 400 true "tap"]
           (device0 [Some [element "android:id/title" "Inbox" 540 400 true "tap"]])).
  constructor.
Defined.

(** ** wait_for_content *)

Section WaitForContent.
Import Js Skills.
Variable cfg : Config.

Lemma waitForContent_loop_any (elements : list UIElement) (n : nat) :
  forall (i : Z) (w : World),
  exists r j w',
    waitForContent_loop cfg n i elements w = (Ok r, w')
    /\ (j <= n)%nat
    /\ slept_ms (trace w') = slept_ms (trace w) + 3000 * Z.of_nat j
    /\ (success r = false ->
        j = n /\ message r = "No new content appeared after 15s" /\ data r = None)
    /\ (success r = true ->
        (1 <= j)%nat
        /\ exists newElements,
             20 < fold_left (fun sum t => sum + len t) (newTexts_of elements newElements) 0
             /\ data r = Some (join "; " (slice0 5 (newTexts_of elements newElements)))
             /\ message r = "New content appeared after "
                            +:+ num_to_string ((i + Z.of_nat j) * 3) +:+ "s: "
                            +:+ join "; " (slice0 5 (newTexts_of elements newElements))).
Proof.
  induction n as [|n IH]; intros i w.
  - eexists. exists 0%nat, w. simpl. unfold ret. split; [reflexivity|].
    split; [lia|]. split; [lia|]. simpl. split; [auto|discriminate].
  - simpl. unfold bind, sleepSync.
    destruct (rescanScreen_any cfg (emit (Sleep 3000) w)) as (els & w1 & -> & Hs1 & _).
    assert (slept_ms (trace w1) = slept_ms (trace w) + 3000) as Hs.
    { rewrite Hs1. simpl. rewrite slept_ms_app. simpl. lia. }
    destruct (20 <? fold_left (fun sum t => sum + len t) (newTexts_of elements els) 0)
      eqn:Hnew.
    + apply Z.ltb_lt in Hnew. eexists. exists 1%nat, w1. unfold ret.
      split; [reflexivity|]. split; [lia|]. split; [lia|]. simpl.
      split; [discriminate|]. intros _. split; [lia|]. exists els.
      split; [exact Hnew|]. split; reflexivity.
    + destruct (IH (i + 1) w1) as (r & j & w2 & -> & Hj & Hs2 & Hfail & Hgood).
      exists r, (S j), w2. split; [reflexivity|]. split; [lia|]. split; [lia|]. split.
      * intros Hr. destruct (Hfail Hr) as (-> & Hm & Hd). auto.
      * intros Hr. destruct (Hgood Hr) as (Hj1 & newElements & H1 & H2 & H3).
        split; [lia|]. exists newElements. split; [exact H1|]. split; [exact H2|].
        rewrite H3. replace (i + 1 + Z.of_nat j) with (i + Z.of_nat (S j)) by lia.
        reflexivity.
Qed.

(** X6.  [wait_for_content] never throws, whatever the device does: a
    capture that fails counts as an empty screen.  It polls every 3 s,
    at least once and at most five times.  It reports success only for
    a capture whose new texts hold more than 20 characters in all, and
    failure only after the fifth poll, that is after 15 s. *)
Theorem waitForContent_bounded (elements : list UIElement) (w : World) :
  exists r k w',
    waitForContent cfg elements w = (Ok r, w')
    /\ 1 <= k <= 5
    /\ slept_ms (trace w') = slept_ms (trace w) + 3000 * k
    /\ (success r = false ->
        k = 5 /\ message r = "No new content appeared after 15s" /\ data r = None)
    /\ (success r = true ->
        exists newElements,
          20 < fold_left (fun sum t => sum + len t) (newTexts_of elements newElements) 0
          /\ data r = Some (join "; " (slice0 5 (newTexts_of elements newElements)))
          /\ message r = "New content appeared after " +:+ num_to_string (k * 3) +:+ "s: "
                         +:+ join "; " (slice0 5 (newTexts_of elements newElements))).
Proof.
  unfold waitForContent.
  destruct (waitForContent_loop_any elements 5 0 w)
    as (r & j & w' & Hrun & Hj & Hs & Hfail & Hgood).
  exists r, (Z.of_nat j), w'. split; [exact Hrun|].
  destruct (success r) eqn:Hr.
  - destruct (Hgood eq_refl) as (Hj1 & newElements & H1 & H2 & H3).
    split; [lia|]. split; [exact Hs|]. split; [discriminate|]. intros _.
    exists newElements. split; [exact H1|]. split; [exact H2|]. exact H3.
  - destruct (Hfail eq_refl) as (-> & Hm & Hd).
    split; [lia|]. split; [exact Hs|]. split; [auto|discriminate].
Qed.

End WaitForContent.

(** ** find_and_tap gives up *)

Section FindAndTapMiss.
Import Js Skills.
Variable cfg : Config.

Lemma findAndTap_scroll_miss (q : string) (n : nat) :
  forall (w : World),
  no_faults w ->
  Forall (fun o => findMatch (default [] o) q = None) (firstn n (screens w)) ->
  exists w',
    findAndTap_scroll cfg n q w = (Ok None, w')
    /\ trace w' = trace w ++ concat (repeat (scroll_effects cfg) n)
    /\ lastCommentLikeAttempt w' = lastCommentLikeAttempt w
    /\ no_faults w'.
Proof.
  induction n as [|n IH]; intros w Hok Hmiss.
  - exists w. simpl. unfold ret. rewrite List.app_nil_r. auto.
  - simpl. unfold bind.
    destruct (swipe_up_ok cfg w Hok) as (w1 & -> & Ht1 & Hs1 & Hl1 & Hok1).
    destruct (sleepSync_ok 1500 w1 Hok1) as (w2 & -> & Ht2 & Hs2 & Hl2 & Hok2).
    destruct (rescanScreen_next cfg w2 Hok2) as (w3 & -> & Ht3 & Hs3 & Hl3 & Hok3).
    assert (findMatch (next_screen w2) q = None
            /\ Forall (fun o => findMatch (default [] o) q = None) (firstn n (screens w3)))
      as [Hhere Hrest].
    { unfold next_screen. rewrite Hs3, Hs2, Hs1.
      destruct (screens w) as [|o rest]; simpl in *.
      - split; [reflexivity|]. destruct n; constructor.
      - split; [|exact (Forall_inv_tail Hmiss)].
        apply Forall_inv in Hmiss. destruct o; exact Hmiss. }
    rewrite Hhere.
    destruct (IH w3 Hok3 Hrest) as (w4 & -> & Ht4 & Hl4 & Hok4).
    exists w4. split; [reflexivity|]. split; [|split; [congruence|exact Hok4]].
    rewrite Ht4, Ht3, Ht2, Ht1. cbn [concat repeat]. unfold scroll_effects at 2.
    rewrite <- !app_assoc. reflexivity.
Qed.

(** X7.  On a device that throws at no adb invocation, when neither the
    screen handed in nor any of the ten screens captured next holds a
    text that contains the query, [find_and_tap] scrolls exactly ten
    times, taps nothing, and fails with a message that lists the first
    fifteen texts of the screen handed in. *)
Theorem findAndTap_gives_up (decision : ActionDecision) (query : string)
    (elements : list UIElement) (w : World) :
  d_query decision = Some query ->
  truthy query = true ->
  no_faults w ->
  findMatch elements (toLowerCase query) = None ->
  Forall (fun o => findMatch (default [] o) (toLowerCase query) = None)
         (firstn 10 (screens w)) ->
  exists w',
    findAndTap cfg decision elements w =
      (Ok {| success := false;
             message := "No element matching " +:+ dq +:+ query +:+ dq
                        +:+ " found after scrolling. Available: "
                        +:+ join ", "
                              (slice0 15
                                 (List.map el_text
                                    (List.filter (fun el => truthy (el_text el)) elements)));
             data := None |}, w')
    /\ trace w' = trace w ++ concat (repeat (scroll_effects cfg) 10)
    /\ List.filter is_swipe (concat (repeat (scroll_effects cfg) 10))
       = repeat (swipe_effect cfg) 10.
Proof.
  intros Hquery Hq Hok Hhere Hmiss.
  destruct (findAndTap_scroll_miss (toLowerCase query) 10 w Hok Hmiss)
    as (w' & Hscroll & Ht & _ & _).
  exists w'. split; [|split; [exact Ht|]].
  - unfold findAndTap. rewrite Hquery. unfold query_given. rewrite Hq.
    cbn [negb]. cbv iota zeta. change (default "" (Some query)) with query.
    rewrite Hhere. unfold bind at 1. cbv beta.
    rewrite Hscroll. reflexivity.
  - unfold scroll_effects, swipe_effect. destruct (swipeUp cfg) as [[[x1 y1] x2] y2].
    reflexivity.
Qed.

End FindAndTapMiss.

Lemma findAndTap_gives_up_witness :
  exists w',
    Skills.findAndTap cfg0 (decide_kind "find_and_tap" (Some "Settings"))
      [element "android:id/title" "Wi-Fi" 540 400 true "tap"]
      (device0 [Some [element "android:id/title" "Bluetooth" 540 400 true "tap"]]) =
      (Skills.Ok
         {| Skills.success := false;
            Skills.message :=
              "No element matching " +:+ Js.dq +:+ "Settings" +:+ Js.dq
              +:+ " found after scrolling. Available: "
              +:+ Js.join ", "
                    (Js.slice0 15
                       (List.map Skills.el_text
                          (List.filter (fun el => Js.truthy (Skills.el_text el))
                             [element "android:id/title" "Wi-Fi" 540 400 true "tap"])));
            Skills.data := None |}, w')
    /\ Skills.trace w' = [] ++ concat (repeat (scroll_effects cfg0) 10)
    /\ List.filter is_swipe (concat (repeat (scroll_effects cfg0) 10))
       = repeat (swipe_effect cfg0) 10.
Proof.
  apply (findAndTap_gives_up cfg0 (decide_kind "find_and_tap" (Some "Settings")) "Settings"
           [element "android:id/title" "Wi-Fi" 540 400 true "tap"]
           (device0 [Some [element "android:id/title" "Bluetooth" 540 400 true "tap"]])).
  - reflexivity.
  - reflexivity.
  - constructor.
  - reflexivity.
  - repeat constructor.
Defined.

(** ** submit_message without a send button *)

Section SubmitFallback.
Import Js Skills.
Variable cfg : Config.

(** X8.  When no element passes for a send button but some element is
    enabled and clickable, at a y that is not negative, [submit_message]
    falls back on position: of the enabled and clickable elements whose
    y is at least four fifths of the y of the lowest of them, it taps
    the rightmost.  On a device that throws at no adb invocation it then
    waits 6 s, captures the screen and reports success. *)
Theorem submitMessage_fallback (elements : list UIElement) (w : World) :
  no_faults w ->
  List.filter is_send_candidate elements = [] ->
  (exists el, In el elements /\ el_enabled el && el_clickable el = true /\ 0 <= cy el) ->
  exists target lowest r w',
    In target elements /\ el_enabled target && el_clickable target = true
    /\ In lowest elements /\ el_enabled lowest && el_clickable lowest = true
    /\ (forall el, In el elements -> el_enabled el && el_clickable el = true ->
          cy el <= cy lowest)
    /\ 4 * cy lowest <= 5 * cy target
    /\ (forall el, In el elements -> el_enabled el && el_clickable el = true ->
          4 * cy lowest <= 5 * cy el -> cx el <= cx target)
    /\ submitMessage cfg elements w = (Ok r, w')
    /\ success r = true
    /\ trace w' = trace w ++ [tap_effect (cx target) (cy target); Sleep 6000]
                  ++ capture_effects cfg.
Proof.
  intros Hok Hnone (el0 & Hel0 & Hclick0 & Hpos0).
  set (clickables := List.filter (fun el => el_enabled el && el_clickable el) elements).
  assert (forall el, In el clickables <->
                     In el elements /\ el_enabled el && el_clickable el = true) as Hcl.
  { intros el. apply filter_In. }
  pose proof (sort_by_head_first (fun a b => cy b - cy a) (fun el => - cy el) clickables)
    as Hbottom.
  destruct (sort_by (fun a b => cy b - cy a) clickables) as [|lowest rest] eqn:Hsb.
  { exfalso. assert (clickables = []) as Hnil by (apply Hbottom; intros; lia).
    assert (In el0 clickables) as Hin by (apply Hcl; auto).
    rewrite Hnil in Hin. destruct Hin. }
  destruct Hbottom as (pre & post & Hsplit & Hpre & Hpost); [intros; lia|].
  assert (In lowest clickables) as Hlow.
  { rewrite Hsplit. apply in_or_app. right. left. reflexivity. }
  assert (forall el, In el clickables -> cy el <= cy lowest) as Hmax.
  { intros el Hel. rewrite Hsplit in Hel. apply in_app_or in Hel.
    destruct Hel as [Hel|[<-|Hel]]; [specialize (Hpre el Hel)|
                                    |specialize (Hpost el Hel)]; lia. }
  set (band := List.filter (fun el => 4 * cy lowest <=? 5 * cy el) (lowest :: rest)).
  assert (forall el, In el band <-> In el clickables /\ 4 * cy lowest <= 5 * cy el) as Hband.
  { intros el. unfold band. rewrite filter_In, <- Hsb, sort_by_In, Z.leb_le. reflexivity. }
  pose proof (sort_by_head_first (fun a b => cx b - cx a) (fun el => - cx el) band)
    as Hright.
  assert (submit_candidates elements = sort_by (fun a b => cx b - cx a) band) as Hcand.
  { unfold submit_candidates. rewrite Hnone. fold clickables. rewrite Hsb. reflexivity. }
  destruct (sort_by (fun a b => cx b - cx a) band) as [|target others] eqn:Hst.
  { exfalso. assert (band = []) as Hnil by (apply Hright; intros; lia).
    assert (In lowest band) as Hin.
    { apply Hband. split; [exact Hlow|].
      assert (cy el0 <= cy lowest) by (apply Hmax, Hcl; auto). lia. }
    rewrite Hnil in Hin. destruct Hin. }
  destruct Hright as (pre' & post' & Hsplit' & Hpre' & Hpost'); [intros; lia|].
  assert (In target band) as Htb.
  { rewrite Hsplit'. apply in_or_app. right. left. reflexivity. }
  apply Hband in Htb. destruct Htb as [Htc Htband].
  destruct (runAdbCommand_ok
              ["shell"; "input"; "tap"; num_to_string (cx target); num_to_string (cy target)]
              w Hok) as (w1 & Htap & Ht1 & Hs1 & Hl1 & Hok1).
  destruct (sleepSync_ok 6000 w1 Hok1) as (w2 & Hsleep & Ht2 & Hs2 & Hl2 & Hok2).
  destruct (rescanScreen_next cfg w2 Hok2) as (w3 & Hscan & Ht3 & Hs3 & Hl3 & Hok3).
  assert (exists r, submitMessage cfg elements w = (Ok r, w3) /\ success r = true)
    as (r & Hrun & Hr).
  { unfold submitMessage. rewrite Hcand. unfold bind, tap. rewrite Htap, Hsleep, Hscan.
    destruct (newTexts_of elements (next_screen w2)); eexists; split; reflexivity. }
  exists target, lowest, r, w3.
  apply Hcl in Htc. apply Hcl in Hlow. destruct Htc as [Ht Htc]. destruct Hlow as [Hl Hlc].
  split; [exact Ht|]. split; [exact Htc|]. split; [exact Hl|]. split; [exact Hlc|].
  split; [intros el Hel Hc; apply Hmax, Hcl; auto|]. split; [exact Htband|].
  split; [|split; [exact Hrun|split; [exact Hr|]]].
  - intros el Hel Hc Hb. assert (In el band) as Hin by (apply Hband; split; [apply Hcl|]; auto).
    rewrite Hsplit' in Hin. apply in_app_or in Hin.
    destruct Hin as [Hin|[<-|Hin]]; [specialize (Hpre' el Hin)|
                                    |specialize (Hpost' el Hin)]; lia.
  - rewrite Ht3, Ht2, Ht1. unfold tap_effect. rewrite <- !app_assoc. reflexivity.
Qed.

End SubmitFallback.

Lemma submitMessage_fallback_witness :
  exists target lowest r w',
    In target [element "com.chat:id/emoji" "" 80 2200 true "tap";
               element "com.chat:id/fab" "" 1000 2210 true "tap"]
    /\ Skills.el_enabled target && Skills.el_clickable target = true
    /\ In lowest [element "com.chat:id/emoji" "" 80 2200 true "tap";
                  element "com.chat:id/fab" "" 1000 2210 true "tap"]
    /\ Skills.el_enabled lowest && Skills.el_clickable lowest = true
    /\ (forall el, In el [element "com.chat:id/emoji" "" 80 2200 true "tap";
                           element "com.chat:id/fab" "" 1000 2210 true "tap"] ->
          Skills.el_enabled el && Skills.el_clickable el = true ->
          Skills.cy el <= Skills.cy lowest)
    /\ 4 * Skills.cy lowest <= 5 * Skills.cy target
    /\ (forall el, In el [element "com.chat:id/emoji" "" 80 2200 true "tap";
                           element "com.chat:id/fab" "" 1000 2210 true "tap"] ->
          Skills.el_enabled el && Skills.el_clickable el = true ->
          4 * Skills.cy lowest <= 5 * Skills.cy el -> Skills.cx el <= Skills.cx target)
    /\ Skills.submitMessage cfg0
         [element "com.chat:id/emoji" "" 80 2200 true "tap";
          element "com.chat:id/fab" "" 1000 2210 true "tap"] (device0 []) = (Skills.Ok r, w')
    /\ Skills.success r = true
    /\ Skills.trace w' =
       [] ++ [tap_effect (Skills.cx target) (Skills.cy target); Skills.Sleep 6000]
          ++ capture_effects cfg0.
Proof.
  apply (submitMessage_fallback cfg0
           [element "com.chat:id/emoji" "" 80 2200 true "tap";
            element "com.chat:id/fab" "" 1000 2210 true "tap"] (device0 [])).
  - constructor.
  - reflexivity.
  - eexists. split; [left; reflexivity|]. split; [reflexivity|]. unfold Skills.cy. simpl. lia.
Defined.

(** An enabled and clickable element above the screen, at a negative y:
    it is the lowest one, none reaches four fifths of its y, and
    [submit_message] finds no button. *)
Example submitMessage_negative_y :
  Skills.submitMessage cfg0 [element "com.chat:id/fab" "" 1000 (-10) true "tap"] (device0 []) =
  (Skills.Ok {| Skills.success := false;
                Skills.message := "Could not find a Send/Submit button on screen";
                Skills.data := None |}, device0 []).
Proof. reflexivity. Qed.

(** ** copy_visible_text *)

Section CopyVisibleText.
Import Js Skills.

Lemma query_filter_In (query : option string) (l : list UIElement) (el : UIElement) :
  In el (query_filter query l) <-> In el l /\ holds_query query el = true.
Proof.
  unfold query_filter, holds_query. destruct query as [q|]; [|tauto].
  destruct (truthy q); [apply filter_In|tauto].
Qed.

(** X9.  [copy_visible_text] fails, without touching the device, exactly
    when no element has a non-empty text that holds the query.
    Otherwise it copies, on a device that throws at no adb invocation,
    the texts of those elements from top to bottom, and only of those
    with action "read" when there is one of them. *)
Theorem copyVisibleText_spec (decision : ActionDecision) (elements : list UIElement)
    (w : World) :
  no_faults w ->
  let wanted el := truthy (el_text el) && holds_query (d_query decision) el in
  let readable el := wanted el && String.eqb (el_action el) "read" in
  ((forall el, In el elements -> wanted el = false) ->
   copyVisibleText decision elements w =
     (Ok {| success := false;
            message := if query_given (d_query decision)
                       then "No text matching " +:+ dq +:+ default "" (d_query decision)
                            +:+ dq +:+ " found on screen"
                       else "No readable text found on screen";
            data := None |}, w))
  /\ ((exists el, In el elements /\ wanted el = true) ->
      exists sorted w',
        copyVisibleText decision elements w =
          (Ok {| success := true;
                 message := "Copied " +:+ num_to_string (count sorted)
                            +:+ " text elements to clipboard ("
                            +:+ num_to_string
                                  (len (join (String "010"%char "") (List.map el_text sorted)))
                            +:+ " chars)";
                 data := Some (join (String "010"%char "") (List.map el_text sorted)) |}, w')
        /\ StronglySorted (fun a b => cy a <= cy b) sorted
        /\ (forall el, In el sorted <->
              In el elements /\ wanted el = true
              /\ ((exists e, In e elements /\ readable e = true) -> readable el = true))
        /\ trace w' = trace w
                      ++ [clipboard_effect (join (String "010"%char "") (List.map el_text sorted))]).
Proof.
  intros Hok wanted readable.
  set (reads := query_filter (d_query decision)
                  (List.filter (fun el => truthy (el_text el) && String.eqb (el_action el) "read")
                               elements)).
  set (texts := query_filter (d_query decision)
                  (List.filter (fun el => truthy (el_text el)) elements)).
  assert (forall el, In el reads <-> In el elements /\ readable el = true) as Hreads.
  { intros el. unfold reads, readable, wanted. rewrite query_filter_In, filter_In.
    rewrite !andb_true_iff. tauto. }
  assert (forall el, In el texts <-> In el elements /\ wanted el = true) as Htexts.
  { intros el. unfold texts, wanted. rewrite query_filter_In, filter_In.
    rewrite !andb_true_iff. tauto. }
  assert (forall el, readable el = true -> wanted el = true) as Hrw.
  { intros el. unfold readable. rewrite andb_true_iff. tauto. }
  split.
  - intros Hnone. unfold copyVisibleText. fold reads. fold texts.
    assert (reads = []) as ->.
    { destruct reads as [|el l]; [reflexivity|]. exfalso.
      assert (In el (el :: l)) as Hin by (left; reflexivity).
      apply Hreads in Hin. destruct Hin as [Hin Hr]. apply Hrw in Hr.
      rewrite (Hnone el Hin) in Hr. discriminate. }
    assert (texts = []) as ->.
    { destruct texts as [|el l]; [reflexivity|]. exfalso.
      assert (In el (el :: l)) as Hin by (left; reflexivity).
      apply Htexts in Hin. destruct Hin as [Hin Hr].
      rewrite (Hnone el Hin) in Hr. discriminate. }
    reflexivity.
  - intros (el0 & Hel0 & Hw0).
    set (chosen := match reads with _ :: _ => reads | [] => texts end).
    assert (forall el, In el chosen <->
              In el elements /\ wanted el = true
              /\ ((exists e, In e elements /\ readable e = true) -> readable el = true))
      as Hchosen.
    { intros el. unfold chosen. destruct reads as [|r0 rs] eqn:Hr.
      - rewrite Htexts. split; [|tauto]. intros [Hin Hw]. split; [exact Hin|].
        split; [exact Hw|]. intros (e & He & Hre). exfalso.
        assert (In e []) as H by (apply Hreads; auto). destruct H.
      - rewrite Hreads. split.
        + intros [Hin Hre]. auto.
        + intros (Hin & Hw & Himp). split; [exact Hin|]. apply Himp.
          exists r0. apply Hreads. left. reflexivity. }
    assert (chosen <> []) as Hne.
    { unfold chosen. destruct reads as [|r0 rs]; [|discriminate].
      intros Hnil. assert (In el0 texts) as Hin by (apply Htexts; auto).
      rewrite Hnil in Hin. destruct Hin. }
    set (sorted := sort_by (fun a b => cy a - cy b) chosen).
    destruct (runAdbCommand_ok
                ["shell"; "cmd clipboard set-text '"
                          +:+ replaceAll_char "'"%char "'\''"
                                (join (String "010"%char "") (List.map el_text sorted))
                          +:+ "'"] w Hok) as (w1 & Hclip & Ht1 & _).
    exists sorted, w1. split; [|split; [|split]].
    + unfold copyVisibleText. fold reads. fold texts. fold chosen.
      destruct chosen as [|c0 cs] eqn:Hc; [contradiction|].
      fold sorted. unfold bind, safeClipboardSet. rewrite Hclip. reflexivity.
    + apply sort_by_sorted; intros; lia.
    + intros el. unfold sorted. rewrite sort_by_In. apply Hchosen.
    + exact Ht1.
Qed.

End CopyVisibleText.

Lemma copyVisibleText_spec_witness :
  let decision := decide_kind "copy_visible_text" None in
  let elements := [element "com.mail:id/body" "See you at noon" 540 900 false "read";
                   element "com.mail:id/subject" "Lunch" 540 300 false "read";
                   element "com.mail:id/reply" "Reply" 540 2200 true "tap"] in
  let w := device0 [] in
  let wanted el := Js.truthy (Skills.el_text el) && holds_query (Skills.d_query decision) el in
  let readable el := wanted el && String.eqb (Skills.el_action el) "read" in
  ((forall el, In el elements -> wanted el = false) ->
   Skills.copyVisibleText decision elements w =
     (Skills.Ok
        {| Skills.success := false;
           Skills.message :=
             if Skills.query_given (Skills.d_query decision)
             then "No text matching " +:+ Js.dq +:+ default "" (Skills.d_query decision)
                  +:+ Js.dq +:+ " found on screen"
             else "No readable text found on screen";
           Skills.data := None |}, w))
  /\ ((exists el, In el elements /\ wanted el = true) ->
      exists sorted w',
        Skills.copyVisibleText decision elements w =
          (Skills.Ok
             {| Skills.success := true;
                Skills.message :=
                  "Copied " +:+ Js.num_to_string (Skills.count sorted)
                  +:+ " text elements to clipboard ("
                  +:+ Js.num_to_string
                        (Skills.len (Js.join (String "010"%char "")
                                       (List.map Skills.el_text sorted)))
                  +:+ " chars)";
                Skills.data :=
                  Some (Js.join (String "010"%char "") (List.map Skills.el_text sorted)) |},
           w')
        /\ StronglySorted (fun a b => Skills.cy a <= Skills.cy b) sorted
        /\ (forall el, In el sorted <->
              In el elements /\ wanted el = true
              /\ ((exists e, In e elements /\ readable e = true) -> readable el = true))
        /\ Skills.trace w' =
           Skills.trace w
           ++ [clipboard_effect (Js.join (String "010"%char "")
                                   (List.map Skills.el_text sorted))]).
Proof.
  intros decision elements w.
  apply (copyVisibleText_spec decision elements w). constructor.
Defined.

(** ** like_nth_comment *)

Section LikeNthComment.
Import Js Skills.

(** X10.  [like_nth_comment] with fewer rows of like buttons than the
    ordinal fails and leaves the device and the recorded attempt as
    they are.  Otherwise, on a device that throws at no adb invocation,
    it taps the centre of the row at the ordinal, once, and records the
    attempt: the ordinal, where it tapped, and the number found near the
    row before the tap. *)
Theorem likeNthComment_records (decision : ActionDecision) (elements : list UIElement)
    (w : World) :
  no_faults w ->
  let index := parseNthCommentIndex decision in
  let rows := collectCommentLikeRows elements in
  (count rows < index ->
   likeNthComment decision elements w =
     (Ok {| success := false;
            message := "Only found " +:+ num_to_string (count rows)
                       +:+ " visible comment-like buttons; need " +:+ num_to_string index;
            data := None |}, w))
  /\ (index <= count rows ->
      exists target r w',
        rows !! Z.to_nat (index - 1) = Some target
        /\ In target elements
        /\ likeNthComment decision elements w = (Ok r, w')
        /\ success r = true
        /\ trace w' = trace w ++ [tap_effect (cx target) (cy target)]
        /\ screens w' = screens w
        /\ lastCommentLikeAttempt w' =
           Some {| la_index := index; la_y := cy target; la_x := cx target;
                   la_countBefore := findNearbyCommentCount elements target |}).
Proof.
  intros Hok index rows. split.
  - intros Hfew. unfold likeNthComment. fold index. fold rows.
    apply Z.ltb_lt in Hfew. rewrite Hfew. reflexivity.
  - intros Henough.
    pose proof (parseNthCommentIndex_pos decision) as Hpos. fold index in Hpos.
    destruct (rows !! Z.to_nat (index - 1)) as [target|] eqn:Hrow.
    2:{ apply lookup_ge_None in Hrow. unfold count in Henough. lia. }
    destruct (runAdbCommand_ok
                ["shell"; "input"; "tap"; num_to_string (cx target); num_to_string (cy target)]
                w Hok) as (w1 & Htap & Ht1 & Hs1 & Hl1 & Hok1).
    eexists target, _, _. split; [reflexivity|]. split.
    { destruct (like_rows_sorted elements) as [_ Hall].
      rewrite List.Forall_forall in Hall. apply Hall.
      apply list_elem_of_In. eapply list_elem_of_lookup_2. exact Hrow. }
    split.
    { unfold likeNthComment. fold index. fold rows.
      apply Z.ltb_ge in Henough. rewrite Henough, Hrow.
      unfold bind, tap. rewrite Htap. unfold setLastAttempt, ret. reflexivity. }
    simpl. auto.
Qed.

End LikeNthComment.

Lemma likeNthComment_records_witness :
  let decision := decide_kind "like_nth_comment" (Some "2") in
  let elements := comments_before in
  let w := device0 [] in
  let index := Skills.parseNthCommentIndex decision in
  let rows := Skills.collectCommentLikeRows elements in
  (Skills.count rows < index ->
   Skills.likeNthComment decision elements w =
     (Skills.Ok
        {| Skills.success := false;
           Skills.message :=
             "Only found " +:+ Js.num_to_string (Skills.count rows)
             +:+ " visible comment-like buttons; need " +:+ Js.num_to_string index;
           Skills.data := None |}, w))
  /\ (index <= Skills.count rows ->
      exists target r w',
        rows !! Z.to_nat (index - 1) = Some target
        /\ In target elements
        /\ Skills.likeNthComment decision elements w = (Skills.Ok r, w')
        /\ Skills.success r = true
        /\ Skills.trace w' =
           Skills.trace w ++ [tap_effect (Skills.cx target) (Skills.cy target)]
        /\ Skills.screens w' = Skills.screens w
        /\ Skills.lastCommentLikeAttempt w' =
           Some {| Skills.la_index := index; Skills.la_y := Skills.cy target;
                   Skills.la_x := Skills.cx target;
                   Skills.la_countBefore :=
                     Skills.findNearbyCommentCount elements target |}).
Proof.
  intros decision elements w.
  apply (likeNthComment_records decision elements w). constructor.
Defined.

(* ===================================================================== *)
(** * Further properties of the voice sessions                            *)
(* ===================================================================== *)

Section VoiceCountsInvariant.
Import Voice.
Implicit Types (s : State) (d : string).

Lemma byteLength_concatChunks (cs : list Buffer) :
  byteLength (concatChunks cs) = bytes cs.
Proof.
  unfold concatChunks, byteLength. induction cs as [|c cs IH]; simpl; [reflexivity|].
  rewrite length_app, Nat2Z.inj_add, IH. reflexivity.
Qed.

Lemma cleanupSession_keeps d s :
  heap (cleanupSession d s) = heap s /\ pending (cleanupSession d s) = pending s
  /\ sent (cleanupSession d s) = sent s.
Proof.
  unfold cleanupSession. destruct (session_of d s) as [[r session]|]; [|auto].
  destruct (partialTimer session); simpl; auto.
Qed.

Lemma voice_counts_insert s s' r session :
  voice_counts s -> session_counts session ->
  heap s' = <[r := session]> (heap s) -> pending s' = pending s ->
  voice_counts s'.
Proof.
  intros [Hh Hp] Hc Hheap Hpend. split; [|rewrite Hpend; exact Hp].
  intros r' session' Hl. rewrite Hheap in Hl.
  destruct (decide (r' = r)) as [->|Hne].
  - rewrite lookup_insert_eq in Hl. inversion Hl; subst. exact Hc.
  - rewrite lookup_insert_ne in Hl by congruence. exact (Hh r' session' Hl).
Qed.

Lemma voice_counts_same s s' :
  voice_counts s -> heap s' = heap s -> pending s' = pending s -> voice_counts s'.
Proof. intros [Hh Hp] Hheap Hpend. split; rewrite ?Hheap, ?Hpend; assumption. Qed.

Lemma voice_counts_step s e : voice_counts s -> voice_counts (step s e).
Proof.
  intros Hc. destruct e as [ws d key|d decoded|ws d key|d|t|i r]; simpl.
  - unfold handleVoiceStart. simpl.
    destruct (cleanupSession_keeps d s) as (Hh & Hp & _).
    apply (voice_counts_insert (cleanupSession d s)
             _ (next_ref (cleanupSession d s))
             {| chunks := []; totalBytes := 0;
                partialTimer := Some (next_timer (cleanupSession d s));
                lastPartialOffset := 0 |}).
    + apply (voice_counts_same s); assumption.
    + split; simpl; [reflexivity|lia].
    + simpl. apply insert_insert_eq.
    + reflexivity.
  - unfold handleVoiceChunk. destruct (session_of d s) as [[r session]|] eqn:Hso.
    + apply session_of_Some in Hso. destruct Hso as [_ Hh].
      destruct (proj1 Hc r session Hh) as [Ht Ho].
      eapply (voice_counts_insert s); [exact Hc| |reflexivity|reflexivity].
      split; simpl.
      * rewrite bytes_app, Ht. simpl. lia.
      * unfold byteLength. lia.
    + apply (voice_counts_same s); [exact Hc|reflexivity|reflexivity].
  - unfold handleVoiceSend. destruct (session_of d s) as [[r session]|] eqn:Hso.
    2:{ apply (voice_counts_same s); [exact Hc|reflexivity|reflexivity]. }
    apply session_of_Some in Hso. destruct Hso as [_ Hh].
    destruct (proj1 Hc r session Hh) as [Ht Ho].
    set (s1 := match partialTimer session with
               | Some t => _
               | None => s
               end).
    assert (voice_counts s1) as Hc1.
    { unfold s1. destruct (partialTimer session) as [t|]; [|exact Hc].
      eapply (voice_counts_insert s); [exact Hc| |reflexivity|reflexivity].
      split; simpl; assumption. }
    destruct (MIN_AUDIO_BYTES <=? totalBytes session) eqn:Hmin.
    + destruct Hc1 as [Hh1 Hp1]. split; [exact Hh1|]. simpl.
      apply List.Forall_app. split; [exact Hp1|]. constructor; [|constructor].
      simpl. rewrite byteLength_concatChunks, <- Ht. apply Z.leb_le. exact Hmin.
    + apply (voice_counts_same s1); [exact Hc1|reflexivity|reflexivity].
  - destruct (cleanupSession_keeps d s) as (Hh & Hp & _).
    apply (voice_counts_same s); assumption.
  - unfold partialTick. destruct (timers s !! t) as [c|]; [|exact Hc].
    destruct (heap s !! c_session c) as [session|] eqn:Hh; [|exact Hc].
    destruct (totalBytes session <=? lastPartialOffset session); [exact Hc|].
    destruct (totalBytes session <? MIN_AUDIO_BYTES) eqn:Hmin; [exact Hc|].
    destruct (proj1 Hc _ session Hh) as [Ht Ho].
    destruct Hc as [Hh1 Hp1]. split; [exact Hh1|]. simpl.
    apply List.Forall_app. split; [exact Hp1|]. constructor; [|constructor].
    simpl. rewrite byteLength_concatChunks, <- Ht. apply Z.ltb_ge. exact Hmin.
  - destruct (pending s !! i) as [k|] eqn:Hk; [|exact Hc].
    assert (voice_counts (set_pending (take i (pending s) ++ drop (S i) (pending s)) s))
      as Hc0.
    { destruct Hc as [Hh Hp]. split; [exact Hh|]. simpl.
      apply List.Forall_app. split.
      - apply Forall_take. exact Hp.
      - apply Forall_drop. exact Hp. }
    set (s0 := set_pending _ s) in *. clearbody s0.
    destruct k as [ref ws d pcm|ws d pcm]; simpl.
    + destruct r as [text|].
      2:{ apply (voice_counts_same s0); [exact Hc0|reflexivity|reflexivity]. }
      assert (voice_counts
                match heap s0 !! ref with
                | Some session =>
                    set_heap (<[ref := {| chunks := chunks session;
                                          totalBytes := totalBytes session;
                                          partialTimer := partialTimer session;
                                          lastPartialOffset := totalBytes session |}]>
                                (heap s0)) s0
                | None => s0
                end) as Hc1.
      { destruct (heap s0 !! ref) as [session|] eqn:Hh; [|exact Hc0].
        destruct (proj1 Hc0 ref session Hh) as [Ht Ho].
        eapply (voice_counts_insert s0); [exact Hc0| |reflexivity|reflexivity].
        split; simpl; [exact Ht|]. lia. }
      destruct (Js.truthy text); [|exact Hc1].
      eapply voice_counts_same; [exact Hc1|reflexivity|reflexivity].
    + destruct r as [text|]; simpl;
        (apply (voice_counts_same s0); [exact Hc0|reflexivity|reflexivity]).
Qed.

Lemma voice_counts_reachable s : voice_reachable s -> voice_counts s.
Proof.
  intros [es ->]. assert (voice_counts init) as H0.
  { split; [|constructor]. intros r session H. simpl in H. rewrite lookup_empty in H. discriminate. }
  revert H0. generalize init. induction es as [|e es IH]; intros s H; [exact H|].
  simpl. apply IH. apply voice_counts_step. exact H.
Qed.

(** X11.  In every state the module can reach, the counters of every
    session fit its buffer: [totalBytes] is the sum of the sizes of the
    chunks received, and the offset of the last partial transcription
    lies between 0 and [totalBytes]. *)
Theorem voice_session_counts s r session :
  voice_reachable s -> heap s !! r = Some session ->
  totalBytes session = bytes (chunks session)
  /\ 0 <= lastPartialOffset session <= totalBytes session.
Proof.
  intros Hs Hh. exact (proj1 (voice_counts_reachable s Hs) r session Hh).
Qed.

(** X12.  Audio shorter than the minimum of 3,200 bytes is never sent
    for transcription: in every state the module can reach, each
    transcription under way, partial or final, got at least that much. *)
Theorem voice_never_transcribes_short s k :
  voice_reachable s -> In k (pending s) -> 3200 <= byteLength (audio_of k).
Proof.
  intros Hs Hk. pose proof (proj2 (voice_counts_reachable s Hs)) as Hp.
  rewrite List.Forall_forall in Hp. exact (Hp k Hk).
Qed.

End VoiceCountsInvariant.

Lemma voice_session_counts_witness :
  let session := {| Voice.chunks := [chunk800]; Voice.totalBytes := 800;
                    Voice.partialTimer := Some 0%nat; Voice.lastPartialOffset := 0 |} in
  Voice.totalBytes session = bytes (Voice.chunks session)
  /\ 0 <= Voice.lastPartialOffset session <= Voice.totalBytes session.
Proof.
  intros session.
  apply (voice_session_counts
           (Voice.run Voice.init [Voice.VoiceStart 7 "dev-1" "gsk"; Voice.VoiceChunk "dev-1" chunk800])
           0%nat session).
  - eexists. reflexivity.
  - vm_compute. reflexivity.
Defined.

Lemma voice_never_transcribes_short_witness :
  3200 <= Voice.byteLength
            (audio_of (Voice.AwaitFinal 7 "dev-1" (concat (repeat chunk800 4)))).
Proof.
  apply (voice_never_transcribes_short
           (Voice.run Voice.init
              (Voice.VoiceStart 7 "dev-1" "gsk"
               :: repeat (Voice.VoiceChunk "dev-1" chunk800) 4
               ++ [Voice.VoiceSend 7 "dev-1" "gsk"]))).
  - eexists. reflexivity.
  - vm_compute. left. reflexivity.
Defined.

(** ** Starting over, and the final transcript *)

Section VoiceStartSend.
Import Voice.
Implicit Types (s : State) (d : string).

Lemma cleanupSession_counters d s :
  next_ref (cleanupSession d s) = next_ref s
  /\ next_timer (cleanupSession d s) = next_timer s
  /\ forall d', d' <> d ->
       activeSessions (cleanupSession d s) !! d' = activeSessions s !! d'.
Proof.
  unfold cleanupSession. destruct (session_of d s) as [[r session]|]; [|auto].
  destruct (partialTimer session); simpl; repeat split;
    intros d' Hd; apply lookup_delete_ne; congruence.
Qed.

(** X13.  [voice_start] for a device that has a session replaces it: the
    device gets a new, empty session with a timer of its own, the timer
    of the session it had is stopped, the sessions of other devices
    stay as they are, and nothing is sent. *)
Theorem voice_start_replaces s ws d key :
  voice_reachable s ->
  let s' := handleVoiceStart ws d key s in
  session_of d s' =
    Some (next_ref s, {| chunks := []; totalBytes := 0;
                         partialTimer := Some (next_timer s); lastPartialOffset := 0 |})
  /\ timers s' !! next_timer s =
     Some {| c_session := next_ref s; c_ws := ws; c_deviceId := d; c_apiKey := key |}
  /\ (forall r old t,
        session_of d s = Some (r, old) -> partialTimer old = Some t ->
        timers s' !! t = None)
  /\ (forall d', d' <> d -> activeSessions s' !! d' = activeSessions s !! d')
  /\ sent s' = sent s.
Proof.
  intros Hs s'. pose proof (voice_reachable_wf s Hs) as Hwf.
  destruct (cleanupSession_counters d s) as (Hr & Ht & Ha).
  destruct (cleanupSession_keeps d s) as (Hh & Hp & Hsent).
  unfold s', handleVoiceStart. simpl. rewrite Hr, Ht.
  split; [|split; [|split; [|split]]].
  - unfold session_of. simpl. rewrite !lookup_insert_eq. reflexivity.
  - apply lookup_insert_eq.
  - intros r old t Hso Hpt.
    pose proof (cleanupSession_stops d s r old t Hso Hpt) as Hstop.
    apply session_of_Some in Hso. destruct Hso as [_ Hheap].
    pose proof (wf_handles s Hwf r old t Hheap Hpt) as Hlt.
    rewrite lookup_insert_ne by lia. exact Hstop.
  - intros d' Hd. rewrite lookup_insert_ne by congruence. apply Ha. exact Hd.
  - exact Hsent.
Qed.

(** X14.  [voice_send] for a device with a session leads to one final
    transcript for the socket that asked.  With less than 3,200 bytes
    of audio it is the empty transcript, sent at once, without any
    transcription.  Otherwise nothing is sent until the transcription
    completes; then the transcript is sent, the empty one when the
    transcription failed.  Either way the device has no session
    afterwards. *)
Theorem voice_send_final s ws d key r session :
  session_of d s = Some (r, session) ->
  let s' := handleVoiceSend ws d key s in
  let waiting := AwaitFinal ws d (concatChunks (chunks session)) in
  (totalBytes session < 3200 ->
   sent s' = sent s ++ [(ws, transcript_final "")]
   /\ pending s' = pending s
   /\ activeSessions s' !! d = None)
  /\ (3200 <= totalBytes session ->
      sent s' = sent s
      /\ pending s' = pending s ++ [waiting]
      /\ forall result s2,
           sent (resume waiting result s2)
           = sent s2 ++ [(ws, transcript_final (default "" result))]
           /\ activeSessions (resume waiting result s2) !! d = None).
Proof.
  intros Hso s' waiting. unfold s', handleVoiceSend. rewrite Hso. split.
  - intros Hshort. apply Z.leb_gt in Hshort.
    change MIN_AUDIO_BYTES with 3200. rewrite Hshort.
    destruct (partialTimer session); simpl; repeat split; apply lookup_delete_eq.
  - intros Hlong. apply Z.leb_le in Hlong.
    change MIN_AUDIO_BYTES with 3200. rewrite Hlong.
    split; [destruct (partialTimer session); reflexivity|].
    split; [destruct (partialTimer session); reflexivity|].
    intros result s2. destruct result as [text|]; simpl; split;
      try reflexivity; apply lookup_delete_eq.
Qed.

End VoiceStartSend.

Lemma voice_start_replaces_witness :
  let s := Voice.run Voice.init [Voice.VoiceStart 7 "dev-1" "gsk";
                                 Voice.VoiceChunk "dev-1" chunk800] in
  let s' := Voice.handleVoiceStart 8 "dev-1" "gsk" s in
  Voice.session_of "dev-1" s' =
    Some (Voice.next_ref s,
          {| Voice.chunks := []; Voice.totalBytes := 0;
             Voice.partialTimer := Some (Voice.next_timer s);
             Voice.lastPartialOffset := 0 |})
  /\ Voice.timers s' !! Voice.next_timer s =
     Some {| Voice.c_session := Voice.next_ref s; Voice.c_ws := 8;
             Voice.c_deviceId := "dev-1"; Voice.c_apiKey := "gsk" |}
  /\ (forall r old t,
        Voice.session_of "dev-1" s = Some (r, old) -> Voice.partialTimer old = Some t ->
        Voice.timers s' !! t = None)
  /\ (forall d', d' <> "dev-1" ->
        Voice.activeSessions s' !! d' = Voice.activeSessions s !! d')
  /\ Voice.sent s' = Voice.sent s.
Proof.
  intros s.
  apply (voice_start_replaces s 8 "dev-1" "gsk").
  eexists. reflexivity.
Defined.

Lemma voice_send_final_witness :
  let s := Voice.run Voice.init [Voice.VoiceStart 7 "dev-1" "gsk";
                                 Voice.VoiceChunk "dev-1" chunk800] in
  let session := {| Voice.chunks := [chunk800]; Voice.totalBytes := 800;
                    Voice.partialTimer := Some 0%nat; Voice.lastPartialOffset := 0 |} in
  let s' := Voice.handleVoiceSend 7 "dev-1" "gsk" s in
  let waiting := Voice.AwaitFinal 7 "dev-1" (Voice.concatChunks (Voice.chunks session)) in
  (Voice.totalBytes session < 3200 ->
   Voice.sent s' = Voice.sent s ++ [(7%nat, Voice.transcript_final "")]
   /\ Voice.pending s' = Voice.pending s
   /\ Voice.activeSessions s' !! "dev-1" = None)
  /\ (3200 <= Voice.totalBytes session ->
      Voice.sent s' = Voice.sent s
      /\ Voice.pending s' = Voice.pending s ++ [waiting]
      /\ forall result s2,
           Voice.sent (Voice.resume waiting result s2)
           = Voice.sent s2 ++ [(7%nat, Voice.transcript_final (default "" result))]
           /\ Voice.activeSessions (Voice.resume waiting result s2) !! "dev-1" = None).
Proof.
  intros s session.
  apply (voice_send_final s 7 "dev-1" "gsk" 0%nat session).
  vm_compute. reflexivity.
Defined.

(* ===================================================================== *)
(** * The WAV container                                                   *)
(* ===================================================================== *)

Section WavLayout.
Import Wav.

Lemma value_of_byte_of (v : Z) : value_of (byte_of v) = v mod 256.
Proof.
  unfold value_of, byte_of.
  assert (0 <= v mod 256 < 256) as Hm by (apply Z.mod_pos_bound; lia).
  destruct (Byte.of_N (Z.to_N (v mod 256))) as [b|] eqn:E.
  - apply Byte.to_of_N in E. rewrite E. apply Z2N.id. lia.
  - apply Byte.of_N_None_iff in E. lia.
Qed.

(** Writing a value in [k] bytes and reading it back. *)
Lemma le_value_le_bytes (k : nat) : forall v : Z,
  0 <= v < 256 ^ Z.of_nat k -> le_value (le_bytes k v) = v.
Proof.
  induction k as [|k IH]; intros v Hv.
  - simpl in *. lia.
  - cbn [le_bytes le_value]. rewrite value_of_byte_of.
    rewrite Nat2Z.inj_succ, Z.pow_succ_r in Hv by lia.
    rewrite IH.
    + pose proof (Z.div_mod v 256). lia.
    + split; [apply Z.div_pos; lia|]. apply Z.div_lt_upper_bound; lia.
Qed.

Lemma length_overwrite (bs : list Byte.byte) : forall buf : Buffer,
  length (overwrite bs buf) = length buf.
Proof.
  induction bs as [|x bs IH]; intros [|b buf]; simpl; auto.
Qed.

Lemma length_write_at (off : nat) (bs : list Byte.byte) : forall buf : Buffer,
  length (write_at off bs buf) = length buf.
Proof.
  induction off as [|off IH]; intros buf; simpl; [apply length_overwrite|].
  destruct buf as [|b buf]; simpl; auto.
Qed.

Lemma overwrite_all (bs : list Byte.byte) (x : Byte.byte) :
  overwrite bs (repeat x (length bs)) = bs.
Proof. induction bs as [|b bs IH]; simpl; [reflexivity|]. rewrite IH. reflexivity. Qed.

Lemma writeUIntLE_Some (k : nat) (v : Z) (off : nat) (buf : Buffer) :
  0 <= v < 256 ^ Z.of_nat k -> (off + k <= length buf)%nat ->
  writeUIntLE k v off buf = Some (write_at off (le_bytes k v) buf).
Proof.
  intros [H0 H1] Hlen. unfold writeUIntLE.
  apply Z.leb_le in H0. apply Z.ltb_lt in H1. apply Nat.leb_le in Hlen.
  rewrite H0, H1, Hlen. reflexivity.
Qed.

Lemma writeUIntLE_None (k : nat) (v : Z) (off : nat) (buf : Buffer) :
  256 ^ Z.of_nat k <= v -> writeUIntLE k v off buf = None.
Proof.
  intros Hv. unfold writeUIntLE. apply Z.ltb_ge in Hv. rewrite Hv.
  rewrite andb_false_r. reflexivity.
Qed.

(** The 44 bytes of the header for [n] bytes of 16 kHz mono 16-bit
    audio, field by field. *)
Lemma wav_of_Some (pcm : Buffer) :
  Z.of_nat (length pcm) <= 4294967259 ->
  wav_of pcm =
  Some (list_byte_of_string "RIFF" ++ le_bytes 4 (36 + Z.of_nat (length pcm))
        ++ list_byte_of_string "WAVEfmt " ++ le_bytes 4 16 ++ le_bytes 2 1
        ++ le_bytes 2 1 ++ le_bytes 4 16000 ++ le_bytes 4 32000 ++ le_bytes 2 2
        ++ le_bytes 2 16 ++ list_byte_of_string "data"
        ++ le_bytes 4 (Z.of_nat (length pcm)) ++ pcm).
Proof.
  intros Hn. unfold wav_of, pcmToWav, writeUInt32LE, writeUInt16LE, write, copy.
  change (SAMPLE_RATE * CHANNELS * BITS_PER_SAMPLE / 8) with 32000.
  change (CHANNELS * BITS_PER_SAMPLE / 8) with 2.
  change SAMPLE_RATE with 16000. change CHANNELS with 1. change BITS_PER_SAMPLE with 16.
  cbv zeta.
  repeat (rewrite writeUIntLE_Some;
          [cbn [mbind option_bind]
          |change (256 ^ Z.of_nat 4) with 4294967296;
           change (256 ^ Z.of_nat 2) with 65536; lia
          |rewrite ?length_write_at; unfold alloc; rewrite repeat_length; lia]).
  f_equal. unfold alloc.
  cbn -[byte_of Z.div Z.add Z.of_nat].
  rewrite overwrite_all. reflexivity.
Qed.

Lemma wav_of_None (pcm : Buffer) :
  4294967259 < Z.of_nat (length pcm) -> wav_of pcm = None.
Proof.
  intros Hn. unfold wav_of, pcmToWav, writeUInt32LE. cbv zeta.
  rewrite (writeUIntLE_None 4 (36 + Z.of_nat (length pcm))); [reflexivity|].
  change (256 ^ Z.of_nat 4) with 4294967296. lia.
Qed.

End WavLayout.

Section WavHeader.
Import Wav.

(** X15.  The WAV container built for the transcription service: for
    audio of at most 4,294,967,259 bytes it is a 44-byte header followed
    by the audio itself, unchanged, and the fields of the header read
    back as the RIFF, WAVE, fmt and data tags, the sizes [36 + n] and
    [n] for [n] bytes of audio, and the format PCM, mono, 16,000 Hz,
    32,000 bytes per second, 2 bytes per block, 16 bits per sample.
    For longer audio no container is built: the size field is out of
    range. *)
Theorem wav_of_header (pcm : Buffer) :
  match wav_of pcm with
  | Some wav =>
      Z.of_nat (length pcm) <= 4294967259
      /\ length wav = (44 + length pcm)%nat
      /\ skipn 44 wav = pcm
      /\ readString 4 0 wav = "RIFF"
      /\ readUIntLE 4 4 wav = 36 + Z.of_nat (length pcm)
      /\ readString 8 8 wav = "WAVEfmt "
      /\ readUIntLE 4 16 wav = 16
      /\ readUIntLE 2 20 wav = 1
      /\ readUIntLE 2 22 wav = 1
      /\ readUIntLE 4 24 wav = 16000
      /\ readUIntLE 4 28 wav = 32000
      /\ readUIntLE 2 32 wav = 2
      /\ readUIntLE 2 34 wav = 16
      /\ readString 4 36 wav = "data"
      /\ readUIntLE 4 40 wav = Z.of_nat (length pcm)
  | None => 4294967259 < Z.of_nat (length pcm)
  end.
Proof.
  destruct (Z.le_gt_cases (Z.of_nat (length pcm)) 4294967259) as [Hn|Hn].
  - rewrite (wav_of_Some pcm Hn). split; [exact Hn|].
    split; [cbn -[byte_of Z.div Z.add Z.of_nat]; reflexivity|].
    split; [reflexivity|].
    split; [reflexivity|].
    split.
    { change (readUIntLE 4 4 _) with (le_value (le_bytes 4 (36 + Z.of_nat (length pcm)))).
      apply le_value_le_bytes. change (256 ^ Z.of_nat 4) with 4294967296. lia. }
    do 9 (split; [reflexivity|]).
    change (readUIntLE 4 40 _) with (le_value (le_bytes 4 (Z.of_nat (length pcm)))).
    apply le_value_le_bytes. change (256 ^ Z.of_nat 4) with 4294967296. lia.
  - rewrite (wav_of_None pcm Hn). exact Hn.
Qed.

End WavHeader.

(* ===================================================================== *)
(** * Further properties of goal submission                               *)
(* ===================================================================== *)

Section GoalsTracked.
Import Goals.
Implicit Types (s : State) (body : Body) (device : Device).

Lemma goals_tracked_same s s' :
  activeSessions s' = activeSessions s -> loops s' = loops s ->
  next_abort s' = next_abort s ->
  goals_tracked s -> goals_tracked s'.
Proof.
  intros Ha Hl Hn [H1 H2 H3]. constructor; rewrite ?Ha, ?Hl, ?Hn; assumption.
Qed.

Lemma goals_tracked_start_loop (p : Suspended) (c : LLMConfig) s :
  goals_tracked s -> goals_tracked (start_loop p c s).
Proof.
  intros [H1 H2 H3]. unfold start_loop. constructor; simpl.
  - intros key entry Hl. destruct (decide (key = p_trackingKey p)) as [->|Hne].
    + rewrite lookup_insert_eq in Hl. inversion Hl; subst entry. simpl.
      split; [reflexivity|]. eexists. split; [apply in_or_app; right; left; reflexivity|].
      simpl. auto.
    + rewrite lookup_insert_ne in Hl by congruence.
      destruct (H1 key entry Hl) as (Hp & l & Hin & Hrest).
      split; [exact Hp|]. exists l. split; [apply in_or_app; left; exact Hin|exact Hrest].
  - intros l Hin. apply in_app_or in Hin. destruct Hin as [Hin|[<-|[]]].
    + specialize (H2 l Hin). lia.
    + unfold signal_of. simpl. lia.
  - rewrite List.map_app. apply List.NoDup_app; [exact H3|repeat constructor; intros []|].
    intros a Ha [<-|[]]. apply in_map_iff in Ha. destruct Ha as (l & Hsig & Hin).
    specialize (H2 l Hin). unfold signal_of in *. simpl in *. lia.
Qed.

Lemma In_remove_nth {A} (l : list A) (i : nat) (x y : A) :
  l !! i = Some x -> In y l -> y <> x -> In y (remove_nth i l).
Proof.
  intros Hi Hy Hne. unfold remove_nth. rewrite <- (take_drop_middle l i x Hi) in Hy.
  apply in_app_or in Hy. apply in_or_app.
  destruct Hy as [Hy|[Hy|Hy]]; [left; exact Hy|congruence|right; exact Hy].
Qed.

Lemma remove_nth_In {A} (l : list A) (i : nat) (y : A) :
  In y (remove_nth i l) -> In y l.
Proof.
  unfold remove_nth. revert i. induction l as [|x l IH]; intros i.
  - destruct i; simpl; auto.
  - destruct i as [|i]; simpl.
    + intros Hy. right. rewrite drop_0 in Hy. exact Hy.
    + intros [Hy|Hy]; [left; exact Hy|right; exact (IH i Hy)].
Qed.

Lemma goals_tracked_step s e : goals_tracked s -> goals_tracked (step s e).
Proof.
  intros Ht. destruct e as [rid user body sid|i configs|i r|rid user id|devices]; simpl.
  - unfold post.
    destruct (negb (Js.truthy (b_deviceId body)) || negb (Js.truthy (b_goal body)));
      [apply (goals_tracked_same s); auto|].
    destruct (lookup_device s (b_deviceId body)) as [device|];
      [|apply (goals_tracked_same s); auto].
    destruct (negb (String.eqb (userId device) user));
      [apply (goals_tracked_same s); auto|].
    destruct (activeSessions s !! trackingKey device);
      [apply (goals_tracked_same s); auto|].
    destruct (given (llmApiKey body)); [|apply (goals_tracked_same s); auto].
    apply goals_tracked_start_loop. exact Ht.
  - destruct (suspended s !! i) as [p|]; [|exact Ht].
    assert (goals_tracked (set_suspended (remove_nth i (suspended s)) s)) as Ht0
      by (apply (goals_tracked_same s); auto).
    unfold post_resume. destruct configs as [|cfg configs].
    + destruct (given (LLM_API_KEY _)).
      * apply goals_tracked_start_loop. exact Ht0.
      * eapply goals_tracked_same; [| | |exact Ht0]; reflexivity.
    + apply goals_tracked_start_loop. exact Ht0.
  - destruct (loops s !! i) as [l|] eqn:Hl; [|exact Ht].
    destruct Ht as [H1 H2 H3].
    assert (goals_tracked
              (set_active (delete (l_trackingKey l) (activeSessions s))
                          (set_loops (remove_nth i (loops s)) s))) as Ht1.
    { constructor; simpl.
      - intros key entry Hk. apply lookup_delete_Some in Hk. destruct Hk as [Hne Hk].
        destruct (H1 key entry Hk) as (Hp & l0 & Hin & Hkey & Hrest).
        split; [exact Hp|]. exists l0. split; [|auto].
        apply (In_remove_nth _ i l); [exact Hl|exact Hin|]. intros ->. congruence.
      - intros l0 Hin. apply H2. eapply remove_nth_In. exact Hin.
      - rewrite <- (take_drop_middle _ i l Hl) in H3. unfold remove_nth.
        rewrite List.map_app in H3 |- *. simpl in H3.
        eapply List.NoDup_remove_1. exact H3. }
    unfold loop_settled. destruct r; (eapply goals_tracked_same; [| | |exact Ht1]; reflexivity).
  - unfold stop. destruct (negb (Js.truthy id)); [apply (goals_tracked_same s); auto|].
    destruct (lookup_device s id) as [device|]; [|apply (goals_tracked_same s); auto].
    destruct (negb (String.eqb (userId device) user));
      [apply (goals_tracked_same s); auto|].
    destruct (activeSessions s !! trackingKey device);
      apply (goals_tracked_same s); auto.
  - apply (goals_tracked_same s); auto.
Qed.

Lemma goals_reachable_tracked s : goals_reachable s -> goals_tracked s.
Proof.
  intros (devices & envProvider & envKey & es & ->).
  assert (goals_tracked (init devices envProvider envKey)) as H0.
  { constructor; simpl.
    - intros key entry H. rewrite lookup_empty in H. discriminate.
    - intros l [].
    - constructor. }
  revert H0. generalize (init devices envProvider envKey).
  induction es as [|e es IH]; intros s H; [exact H|].
  simpl. apply IH. apply goals_tracked_step. exact H.
Qed.

(** X16.  In every state the route can reach, a device that is
    registered as busy has a running agent loop behind it: the entry
    carries the placeholder id "pending", and exactly one running loop
    holds the signal of its abort controller; that loop is tracked
    under the same key and was started with the goal of the entry. *)
Theorem registered_session_runs s key entry :
  goals_reachable s -> activeSessions s !! key = Some entry ->
  sessionId entry = "pending"
  /\ exists l, In l (loops s) /\ l_trackingKey l = key
       /\ signal_of l = abort entry
       /\ o_goal (l_options l) = goal entry
       /\ forall l', In l' (loops s) -> signal_of l' = abort entry -> l' = l.
Proof.
  intros Hs Hk. destruct (goals_reachable_tracked s Hs) as [H1 H2 H3].
  destruct (H1 key entry Hk) as (Hp & l & Hin & Hkey & Hsig & Hgoal).
  split; [exact Hp|]. exists l. repeat split; try assumption.
  intros l' Hin' Hsig'. apply (NoDup_map_inj signal_of (loops s)); try assumption.
  congruence.
Qed.

(** X17.  [POST /goals/stop] for a device with a registered session
    aborts the controller of that session and answers "stopping", but
    does not release the device: the entry stays until the loop
    settles, and a submission for the device that arrives before is
    still answered with the conflict. *)
Theorem stop_keeps_registration s rid user id device entry :
  Js.truthy id = true -> lookup_device s id = Some device -> userId device = user ->
  activeSessions s !! trackingKey device = Some entry ->
  let s' := stop rid user id s in
  responses s' = responses s ++ [(rid, Stopping)]
  /\ aborted s' = aborted s ++ [abort entry]
  /\ activeSessions s' = activeSessions s
  /\ loops s' = loops s
  /\ forall rid2 body sid,
       targets s' body user device ->
       post rid2 user body sid s'
       = respond rid2 (Conflict 409 "agent already running on this device"
                                (sessionId entry) (goal entry)) s'.
Proof.
  intros Hid Hdev Huser Hactive s'.
  assert (s' = respond rid Stopping
                 (log ("[Agent] Stop requested for device " +:+ id)
                      (abort_controller (abort entry) s))) as Hs'.
  { unfold s', stop. rewrite Hid, Hdev. simpl. rewrite Huser, String.eqb_refl. simpl.
    rewrite Hactive. reflexivity. }
  rewrite Hs'. simpl. repeat split.
  intros rid2 body sid Htarget.
  exact (post_active _ rid2 user body sid device entry Htarget Hactive).
Qed.

End GoalsTracked.

Section GoalsAccess.
Import Goals.
Implicit Types (s : State) (body : Body) (device : Device).

(** X18.  Ownership is checked before anything is told about the
    device: a submission or a stop request that names a connected
    device of another user is answered 403, whether an agent runs on
    the device or not, and changes nothing but the list of responses. *)
Theorem foreign_device_refused s rid user body sid device :
  Js.truthy (b_deviceId body) = true -> Js.truthy (b_goal body) = true ->
  lookup_device s (b_deviceId body) = Some device -> userId device <> user ->
  post rid user body sid s = respond rid (Error 403 "device does not belong to you") s
  /\ stop rid user (b_deviceId body) s
     = respond rid (Error 403 "device does not belong to you") s.
Proof.
  intros Hid Hgoal Hdev Huser. apply String.eqb_neq in Huser.
  unfold post, stop. rewrite Hid, Hgoal, Hdev, Huser. split; reflexivity.
Qed.

End GoalsAccess.

Lemma registered_session_runs_witness :
  let s := Goals.run (Goals.init [pixel; tablet] None None)
             [Goals.Post 1 "alice" (goal_request "conn-1" "open settings" (Some "sk-1"))
                         "session-1"] in
  let entry := placeholder (goal_request "conn-1" "open settings" (Some "sk-1")) 0 in
  Goals.sessionId entry = "pending"
  /\ exists l, In l (Goals.loops s) /\ Goals.l_trackingKey l = "dev-42"
       /\ signal_of l = Goals.abort entry
       /\ Goals.o_goal (Goals.l_options l) = Goals.goal entry
       /\ forall l', In l' (Goals.loops s) -> signal_of l' = Goals.abort entry -> l' = l.
Proof.
  intros s entry. apply (registered_session_runs s "dev-42" entry).
  - eexists _, _, _, _. reflexivity.
  - vm_compute. reflexivity.
Defined.

Lemma stop_keeps_registration_witness :
  let s := Goals.run (Goals.init [pixel; tablet] None None)
             [Goals.Post 1 "alice" (goal_request "conn-1" "open settings" (Some "sk-1"))
                         "session-1"] in
  let entry := placeholder (goal_request "conn-1" "open settings" (Some "sk-1")) 0 in
  let s' := Goals.stop 2 "alice" "dev-42" s in
  Goals.responses s' = Goals.responses s ++ [(2%nat, Goals.Stopping)]
  /\ Goals.aborted s' = Goals.aborted s ++ [Goals.abort entry]
  /\ Goals.activeSessions s' = Goals.activeSessions s
  /\ Goals.loops s' = Goals.loops s
  /\ forall rid2 body sid,
       targets s' body "alice" pixel ->
       Goals.post rid2 "alice" body sid s'
       = Goals.respond rid2
           (Goals.Conflict 409 "agent already running on this device"
                           (Goals.sessionId entry) (Goals.goal entry)) s'.
Proof.
  intros s entry.
  apply (stop_keeps_registration s 2 "alice" "dev-42" pixel entry).
  - reflexivity.
  - reflexivity.
  - reflexivity.
  - vm_compute. reflexivity.
Defined.

Lemma foreign_device_refused_witness :
  let s := Goals.init [pixel; tablet] None None in
  let body := goal_request "conn-1" "open settings" (Some "sk-1") in
  Goals.post 1 "bob" body "session-1" s
  = Goals.respond 1 (Goals.Error 403 "device does not belong to you") s
  /\ Goals.stop 1 "bob" (Goals.b_deviceId body) s
     = Goals.respond 1 (Goals.Error 403 "device does not belong to you") s.
Proof.
  intros s body. apply (foreign_device_refused s 1 "bob" body "session-1" pixel).
  - reflexivity.
  - reflexivity.
  - reflexivity.
  - simpl. discriminate.
Defined.

(* ===================================================================== *)
(** * Further properties of pairing                                       *)
(* ===================================================================== *)

Section RateLimiter.
Import Pairing.
Implicit Types (s : State) (ip : string).

Lemma verdicts_within ip (rest : list Z) : forall s entry,
  claimAttempts s !! ip = Some entry ->
  Forall (fun t => t <= a_resetAt entry) rest ->
  verdicts ip rest s
  = List.map (fun k => 5 <? a_count entry + Z.of_nat k) (seq 1 (length rest)).
Proof.
  induction rest as [|now rest IH]; intros s entry Hentry Hin; [reflexivity|].
  pose proof (Forall_inv Hin) as Hnow. pose proof (Forall_inv_tail Hin) as Hrest.
  cbn [verdicts length seq List.map]. unfold isRateLimited at 1 2. rewrite Hentry.
  assert ((a_resetAt entry <? now) = false) as -> by (apply Z.ltb_ge; exact Hnow).
  cbn [fst snd]. f_equal.
  rewrite (IH _ {| a_count := a_count entry + 1; a_resetAt := a_resetAt entry |}).
  - rewrite <- (seq_shift (length rest) 1), List.map_map. apply List.map_ext. intros k. simpl a_count.
    f_equal. lia.
  - simpl. apply lookup_insert_eq.
  - exact Hrest.
Qed.

(** X19.  The rate limiter of the claim route: from an address that has
    no window open, the first claim opens a window of one minute, and of
    the claims that arrive before the window has passed the first five
    are let through and every later one is limited. *)
Theorem rate_limit_window ip (now0 : Z) (rest : list Z) s :
  (forall entry, claimAttempts s !! ip = Some entry -> a_resetAt entry < now0) ->
  Forall (fun t => t <= now0 + 60000) rest ->
  verdicts ip (now0 :: rest) s
  = List.map (fun k => 5 <? Z.of_nat k) (seq 1 (S (length rest))).
Proof.
  intros Hopen Hin.
  assert (isRateLimited ip now0 s
          = (false, set_attempts (<[ip := {| a_count := 1; a_resetAt := now0 + 60000 |}]>
                                    (claimAttempts s)) s)) as Hfirst.
  { unfold isRateLimited. destruct (claimAttempts s !! ip) as [entry|] eqn:He; [|reflexivity].
    specialize (Hopen entry eq_refl). apply Z.ltb_lt in Hopen. rewrite Hopen. reflexivity. }
  cbn [verdicts seq List.map]. rewrite Hfirst. cbn [fst snd]. f_equal.
  rewrite (verdicts_within ip rest _ {| a_count := 1; a_resetAt := now0 + 60000 |}).
  - rewrite <- (seq_shift (length rest) 1), List.map_map. apply List.map_ext. intros k. simpl a_count.
    f_equal. lia.
  - simpl. apply lookup_insert_eq.
  - exact Hin.
Qed.

(** X20.  The periodic clean-up of the rate limiter is not observable: a
    claim that arrives after a clean-up gets the verdict, and leaves
    the window, that it would have got and left without the clean-up.
    The clean-up does not touch the table of codes. *)
Theorem cleanup_transparent ip (now now' : Z) s :
  now' <= now ->
  fst (isRateLimited ip now (cleanup now' s)) = fst (isRateLimited ip now s)
  /\ claimAttempts (snd (isRateLimited ip now (cleanup now' s))) !! ip
     = claimAttempts (snd (isRateLimited ip now s)) !! ip
  /\ pairingCode (cleanup now' s) = pairingCode s.
Proof.
  intros Hle. split; [|split; [|reflexivity]].
  - unfold isRateLimited, cleanup. simpl.
    destruct (claimAttempts s !! ip) as [entry|] eqn:He.
    + destruct (decide (a_resetAt entry < now')) as [Hold|Hlive].
      * rewrite (proj2 (map_lookup_filter_None _ _ _)).
        2:{ right. intros x Hx. rewrite He in Hx. inversion Hx; subst. simpl. tauto. }
        assert ((a_resetAt entry <? now) = true) as -> by (apply Z.ltb_lt; lia).
        reflexivity.
      * rewrite (proj2 (map_lookup_filter_Some _ _ _ entry)) by (split; [exact He|exact Hlive]).
        destruct (a_resetAt entry <? now); reflexivity.
    + rewrite (proj2 (map_lookup_filter_None _ _ _)) by (left; exact He). reflexivity.
  - unfold isRateLimited, cleanup. simpl.
    destruct (claimAttempts s !! ip) as [entry|] eqn:He.
    + destruct (decide (a_resetAt entry < now')) as [Hold|Hlive].
      * rewrite (proj2 (map_lookup_filter_None _ _ _)).
        2:{ right. intros x Hx. rewrite He in Hx. inversion Hx; subst. simpl. tauto. }
        assert ((a_resetAt entry <? now) = true) as -> by (apply Z.ltb_lt; lia).
        simpl. rewrite !lookup_insert_eq. reflexivity.
      * rewrite (proj2 (map_lookup_filter_Some _ _ _ entry)) by (split; [exact He|exact Hlive]).
        destruct (a_resetAt entry <? now); simpl; rewrite !lookup_insert_eq; reflexivity.
    + rewrite (proj2 (map_lookup_filter_None _ _ _)) by (left; exact He).
      simpl. rewrite !lookup_insert_eq. reflexivity.
Qed.

End RateLimiter.

Lemma rate_limit_window_witness :
  verdicts "203.0.113.7" (1000 :: [2000; 3000; 4000; 5000; 6000; 61000]) (Pairing.init None)
  = List.map (fun k => 5 <? Z.of_nat k)
             (seq 1 (S (length [2000; 3000; 4000; 5000; 6000; 61000]))).
Proof.
  apply (rate_limit_window "203.0.113.7" 1000 [2000; 3000; 4000; 5000; 6000; 61000]
           (Pairing.init None)).
  - intros entry H. simpl in H. rewrite lookup_empty in H. discriminate.
  - repeat constructor; lia.
Defined.

Lemma cleanup_transparent_witness :
  let s := snd (Pairing.isRateLimited "203.0.113.7" 1000 (Pairing.init None)) in
  fst (Pairing.isRateLimited "203.0.113.7" 400000 (Pairing.cleanup 300000 s))
  = fst (Pairing.isRateLimited "203.0.113.7" 400000 s)
  /\ Pairing.claimAttempts
       (snd (Pairing.isRateLimited "203.0.113.7" 400000 (Pairing.cleanup 300000 s)))
     !! "203.0.113.7"
     = Pairing.claimAttempts (snd (Pairing.isRateLimited "203.0.113.7" 400000 s))
       !! "203.0.113.7"
  /\ Pairing.pairingCode (Pairing.cleanup 300000 s) = Pairing.pairingCode s.
Proof.
  intros s. apply (cleanup_transparent "203.0.113.7" 400000 300000 s). lia.
Defined.

Section PairingRows.
Import Pairing.
Implicit Types (s : State) (t : list Row) (srv : Server).

Lemma filter_filter_length {A} (p q : A -> bool) (l : list A) :
  (length (List.filter p (List.filter q l)) <= length (List.filter p l))%nat.
Proof.
  induction l as [|x l IH]; simpl; [lia|].
  destruct (q x); simpl; destruct (p x); simpl; lia.
Qed.

Ltac server_step := unfold answer, suspend; cbn [db waiting answers fst snd].

(** The handler at the end of the list goes on. *)
Lemma proceed_last s (l : list (nat * waiter)) ans rid k :
  act {| db := s; waiting := l ++ [(rid, k)]; answers := ans |} (Proceed (length l))
  = proceed rid k {| db := s; waiting := l; answers := ans |}.
Proof.
  cbn [act waiting db answers].
  rewrite (list_lookup_middle l [] (rid, k) (length l) eq_refl).
  rewrite take_app_length.
  replace (drop (S (length l)) (l ++ [(rid, k)])) with (@nil (nat * waiter)).
  - rewrite List.app_nil_r. reflexivity.
  - symmetry. apply drop_ge. rewrite length_app. simpl. lia.
Qed.

Lemma proceed_none s (l : list (nat * waiter)) ans :
  act {| db := s; waiting := l; answers := ans |} (Proceed (length l))
  = {| db := s; waiting := l; answers := ans |}.
Proof.
  cbn [act waiting]. rewrite (lookup_ge_None_2 l (length l)) by lia. reflexivity.
Qed.

(** A request handled without anything in between is answered, and
    leaves the table and the rate limiter, as the router does when it
    handles the request in one piece. *)
Lemma handled_at_once rid session req srv :
  serve srv (handled rid session req srv)
  = {| db := snd (pairing session req (db srv));
       waiting := waiting srv;
       answers := answers srv ++ [(rid, fst (pairing session req (db srv)))] |}.
Proof.
  destruct srv as [s l ans]. unfold handled, serve.
  cbn [repeat fold_left waiting db answers].
  change (act {| db := s; waiting := l; answers := ans |} (Arrive rid session req))
    with (arrive rid session req {| db := s; waiting := l; answers := ans |}).
  destruct session as [user|].
  2:{ cbn [arrive]. server_step. rewrite !proceed_none. reflexivity. }
  destruct req as [now n uuid|now|xff xreal code now key].
  - cbn [arrive]. server_step. rewrite proceed_last.
    cbn [proceed]. server_step. rewrite proceed_last.
    cbn [proceed db pairing sessionMiddleware]. unfold create.
    cbn [pairingCode set_table r_code r_expiresAt].
    destruct (insert_allowed _ _); server_step; rewrite proceed_none; reflexivity.
  - cbn [arrive]. server_step. rewrite proceed_last.
    cbn [proceed pairing sessionMiddleware]. server_step.
    rewrite !proceed_none. reflexivity.
  - cbn [arrive db pairing sessionMiddleware]. unfold claim.
    destruct (isRateLimited _ now s) as [limited s1].
    destruct limited; [server_step; rewrite !proceed_none; reflexivity|].
    destruct (negb (valid_code (option_map Js.trim code)));
      [server_step; rewrite !proceed_none; reflexivity|].
    server_step. rewrite proceed_last. cbn [proceed db].
    destruct (List.filter _ (pairingCode s1)) as [|row rows];
      [server_step; rewrite !proceed_none; reflexivity|].
    server_step. rewrite proceed_last. cbn [proceed db].
    destruct key as [k|]; [|server_step; rewrite !proceed_none; reflexivity].
    server_step. rewrite proceed_last. cbn [proceed]. server_step. reflexivity.
Qed.

(** What the routes reach when every request is handled to its end
    before the next one starts is among the states they can reach. *)
Lemma run_reachable (wsUrl : option string) (es : list event) :
  pairing_reachable (run (init wsUrl) es).
Proof.
  assert (forall srv, exists acts, db (serve srv acts) = run (db srv) es) as Hrun.
  { induction es as [|e es IH]; intros srv; [exists []; reflexivity|].
    destruct e as [session req|now].
    - destruct (IH (serve srv (handled 0 session req srv))) as [acts Hacts].
      exists (handled 0 session req srv ++ acts).
      unfold serve in *. rewrite fold_left_app, Hacts.
      fold (serve srv (handled 0 session req srv)). rewrite handled_at_once. reflexivity.
    - destruct (IH (act srv (Sweep now))) as [acts Hacts].
      exists (Sweep now :: acts). cbn [serve fold_left]. exact Hacts. }
  destruct (Hrun (serve_init wsUrl)) as [acts Hacts].
  exists wsUrl, acts. symmetry. exact Hacts.
Qed.

(** Taking a handler out of the list of those under way. *)
Lemma filter_remove_length {A} (p : A -> bool) (l : list A) (i : nat) (x : A) :
  l !! i = Some x ->
  (length (List.filter p (take i l ++ drop (S i) l)) + (if p x then 1 else 0)
   = length (List.filter p l))%nat.
Proof.
  intros Hi. rewrite <- (take_drop_middle l i x Hi) at 3.
  rewrite !List.filter_app, !length_app. simpl. destruct (p x); simpl; lia.
Qed.

Lemma isRateLimited_rows ip now s user :
  rows_of user (snd (isRateLimited ip now s)) = rows_of user s.
Proof. unfold rows_of. rewrite isRateLimited_table. reflexivity. Qed.

(** The rows of a user and the creations of the user that wait for
    their insert: an activity adds to their number only when a creation
    of the user runs its delete, and then no row of the user is left. *)
Lemma rows_inserting_act user srv a :
  (length (rows_of user (db (act srv a))) + inserting user (act srv a)
   <= length (rows_of user (db srv)) + inserting user srv)%nat
  \/ rows_of user (db (act srv a)) = [].
Proof.
  destruct srv as [s l ans]. unfold inserting, rows_of.
  set (p := fun w : nat * waiter =>
              match snd w with
              | AwaitCreateInsert row => String.eqb (r_userId row) user
              | _ => false
              end).
  set (q := fun r : Row => String.eqb (r_userId r) user).
  assert (forall (x : nat * waiter) (s' : State),
            p x = false -> pairingCode s' = pairingCode s ->
            (length (List.filter q (pairingCode s')) + length (List.filter p (l ++ [x]))
             <= length (List.filter q (pairingCode s)) + length (List.filter p l))%nat)
    as Hwait.
  { intros x s' Hx ->. rewrite List.filter_app, length_app. cbn [List.filter].
    rewrite Hx. simpl. lia. }
  destruct a as [rid session req|i|now].
  - left. destruct session as [u|];
      [|cbn [act arrive]; unfold answer; cbn [db waiting]; lia].
    destruct req as [now n uuid|now|xff xreal code now key]; cbn [act arrive db].
    + unfold suspend. cbn [db waiting]. apply Hwait; reflexivity.
    + unfold suspend. cbn [db waiting]. apply Hwait; reflexivity.
    + pose proof (isRateLimited_table (claim_ip xff xreal) now s) as Ht.
      unfold claim_ip in Ht.
      destruct (isRateLimited _ now s) as [limited s1]. cbn [snd] in Ht.
      destruct limited; [unfold answer; cbn [db waiting]; rewrite Ht; lia|].
      destruct (negb (valid_code (option_map Js.trim code)));
        [unfold answer; cbn [db waiting]; rewrite Ht; lia|].
      unfold suspend. cbn [db waiting]. apply Hwait; [reflexivity|exact Ht].
  - cbn [act waiting db answers].
    destruct (l !! i) as [[rid k]|] eqn:Hi; [|left; cbn [db waiting]; lia].
    pose proof (filter_remove_length p l i (rid, k) Hi) as Hrem.
    set (rest := take i l ++ drop (S i) l) in *.
    assert (forall (x : nat * waiter) (s' : State),
              p x = false ->
              (length (List.filter q (pairingCode s'))
               <= length (List.filter q (pairingCode s)))%nat ->
              (length (List.filter q (pairingCode s')) + length (List.filter p (rest ++ [x]))
               <= length (List.filter q (pairingCode s)) + length (List.filter p l))%nat)
      as Hnext.
    { intros x s' Hx Hle. rewrite List.filter_app, length_app. cbn [List.filter].
      rewrite Hx. simpl. destruct (p (rid, k)); lia. }
    assert (forall s' : State,
              (length (List.filter q (pairingCode s'))
               <= length (List.filter q (pairingCode s)))%nat ->
              (length (List.filter q (pairingCode s')) + length (List.filter p rest)
               <= length (List.filter q (pairingCode s)) + length (List.filter p l))%nat)
      as Hdone.
    { intros s' Hle. destruct (p (rid, k)); lia. }
    destruct k as [u now n uuid|row|u now|c now key|row key|row k0];
      cbn [proceed db]; unfold answer, suspend; cbn [db waiting answers].
    + destruct (String.eqb_spec u user) as [->|Hne].
      * right. cbn [set_table pairingCode].
        apply filter_none. intros r Hr. apply filter_In in Hr. destruct Hr as [_ Hr].
        apply negb_true_iff in Hr. exact Hr.
      * left. apply Hnext.
        -- unfold p. cbn [snd r_userId]. apply String.eqb_neq. exact Hne.
        -- cbn [set_table pairingCode]. apply filter_filter_length.
    + left. destruct (insert_allowed row (pairingCode s)); cbn [db waiting].
      * cbn [set_table pairingCode]. rewrite List.filter_app, length_app.
        cbn [List.filter]. unfold p in Hrem at 2. cbn [snd] in Hrem. unfold q at 2.
        destruct (String.eqb (r_userId row) user); simpl length; lia.
      * apply Hdone. lia.
    + left. apply Hdone. lia.
    + left.
      destruct (List.filter (fun r => String.eqb (r_code r) c && (now <? r_expiresAt r))
                            (pairingCode s)) as [|row rows]; cbn [db waiting].
      * apply Hdone. lia.
      * apply Hnext; [reflexivity|lia].
    + left. destruct key as [k0|]; cbn [db waiting].
      * apply Hnext; [reflexivity|lia].
      * apply Hdone. lia.
    + left. apply Hdone. cbn [set_table pairingCode]. apply filter_filter_length.
  - left. cbn [act db waiting]. unfold cleanup. cbn [set_attempts pairingCode]. lia.
Qed.

(** X21.  One active code at a time, as far as it holds.  A creation
    deletes the rows of its user and, in a second statement, inserts
    the new row; requests may overlap.  When at no time more than [k]
    creations of a user are between their delete and their insert, the
    rows of the user, together with those creations, are never more
    than [k]: a user whose creations do not overlap in that way has at
    most one code, and none while a creation of the user is between
    its two statements. *)
Theorem one_code_per_user (wsUrl : option string) (acts : list activity)
    (user : string) (k : nat) :
  overlap_bounded user k (serve_init wsUrl) acts ->
  (length (rows_of user (db (serve (serve_init wsUrl) acts)))
   + inserting user (serve (serve_init wsUrl) acts) <= k)%nat.
Proof.
  assert (length (rows_of user (db (serve_init wsUrl)))
          + inserting user (serve_init wsUrl) <= k)%nat as H0
    by (unfold inserting, rows_of; simpl; lia).
  revert H0. generalize (serve_init wsUrl).
  induction acts as [|a acts IH]; intros srv H0 Hb; [exact H0|].
  destruct Hb as [Ha Hb]. cbn [serve fold_left]. apply IH; [|exact Hb].
  destruct (rows_inserting_act user srv a) as [Hle|Hnone]; [lia|].
  rewrite Hnone. simpl. exact Ha.
Qed.

(** X22.  A claim consumes a code only when it succeeds, and it succeeds
    only for a code that has a row and has not expired: the answer then
    carries the key that was created and the tunnel address, and the
    rows with the id of that row are deleted.  Every other outcome
    (rate limit, malformed code, unknown or expired code, failed key
    creation) leaves the table as it was. *)
Theorem claim_consumes_on_success xff xreal code now key s :
  match claim xff xreal code now key s with
  | (Claimed k wsUrl, s') =>
      key = Some k
      /\ wsUrl = default "wss://tunnel.droidclaw.ai" (WS_URL s)
      /\ exists row,
           In row (pairingCode s)
           /\ r_code row = default "" (option_map Js.trim code)
           /\ now < r_expiresAt row
           /\ pairingCode s'
              = List.filter (fun r => negb (String.eqb (r_id r) (r_id row))) (pairingCode s)
  | (_, s') => pairingCode s' = pairingCode s
  end.
Proof.
  unfold claim. fold (claim_ip xff xreal).
  pose proof (isRateLimited_table (claim_ip xff xreal) now s) as Ht.
  assert (WS_URL (snd (isRateLimited (claim_ip xff xreal) now s)) = WS_URL s) as Hw.
  { unfold isRateLimited. destruct (claimAttempts s !! _) as [entry|]; [|reflexivity].
    destruct (a_resetAt entry <? now); reflexivity. }
  destruct (isRateLimited (claim_ip xff xreal) now s) as [limited s1]. simpl in Ht, Hw.
  destruct limited; [exact Ht|].
  destruct (valid_code (option_map Js.trim code)); simpl; [|exact Ht].
  destruct (List.filter _ (pairingCode s1)) as [|row rows] eqn:Hf; [exact Ht|].
  destruct key as [k|]; [|exact Ht].
  split; [reflexivity|]. split; [rewrite Hw; reflexivity|]. exists row.
  assert (In row (List.filter
                    (fun r => String.eqb (r_code r) (default "" (option_map Js.trim code))
                              && (now <? r_expiresAt r)) (pairingCode s1))) as Hin
    by (rewrite Hf; left; reflexivity).
  apply filter_In in Hin. destruct Hin as [Hin Hp]. apply andb_true_iff in Hp.
  destruct Hp as [Hc He]. apply String.eqb_eq in Hc. apply Z.ltb_lt in He.
  rewrite Ht in Hin. simpl. rewrite Ht. auto.
Qed.

End PairingRows.

(** Alice creates a code, then Bob and Alice create codes at the same
    time: the creations of Alice do not overlap. *)
Lemma one_code_per_user_witness :
  let acts := [Pairing.Arrive 1 (Some "alice") (Pairing.PostCreate 1000 123456 "id-1");
               Pairing.Proceed 0; Pairing.Proceed 0;
               Pairing.Arrive 2 (Some "bob") (Pairing.PostCreate 2000 654321 "id-2");
               Pairing.Arrive 3 (Some "alice") (Pairing.PostCreate 3000 777777 "id-3");
               Pairing.Proceed 1; Pairing.Proceed 0; Pairing.Proceed 0;
               Pairing.Proceed 0] in
  (length (rows_of "alice" (Pairing.db (Pairing.serve (Pairing.serve_init None) acts)))
   + inserting "alice" (Pairing.serve (Pairing.serve_init None) acts) <= 1)%nat.
Proof.
  intros acts. apply (one_code_per_user None acts "alice" 1).
  cbv. repeat split; repeat constructor.
Defined.

(** Two claims of one code that overlap: both run their select before
    either runs its delete, and both are answered with a key. *)
Example claims_overlapping :
  let claim1 := Pairing.PostClaim (Some "10.0.0.7") None (Some "123456") 2000
                                  (Some "droidclaw_k1") in
  let claim2 := Pairing.PostClaim (Some "10.0.0.9") None (Some "123456") 2001
                                  (Some "droidclaw_k2") in
  let acts := [Pairing.Arrive 1 (Some "alice") (Pairing.PostCreate 1000 123456 "id-1");
               Pairing.Proceed 0; Pairing.Proceed 0;
               Pairing.Arrive 2 (Some "alice") claim1;
               Pairing.Arrive 3 (Some "alice") claim2;
               Pairing.Proceed 0; Pairing.Proceed 0; Pairing.Proceed 0;
               Pairing.Proceed 0; Pairing.Proceed 0; Pairing.Proceed 0] in
  let srv := Pairing.serve (Pairing.serve_init None) acts in
  Pairing.answers srv
  = [(1%nat, Pairing.Created "123456" 301000);
     (2%nat, Pairing.Claimed "droidclaw_k1" "wss://tunnel.droidclaw.ai");
     (3%nat, Pairing.Claimed "droidclaw_k2" "wss://tunnel.droidclaw.ai")]
  /\ Pairing.pairingCode (Pairing.db srv) = []
  /\ Pairing.waiting srv = [].
Proof. vm_compute. repeat split. Qed.

(** Two creations of one user that overlap: both run their delete
    before either runs its insert, and the user is left with two
    codes. *)
Example creations_overlapping :
  let acts := [Pairing.Arrive 1 (Some "alice") (Pairing.PostCreate 1000 123456 "id-1");
               Pairing.Arrive 2 (Some "alice") (Pairing.PostCreate 1001 777777 "id-2");
               Pairing.Proceed 0; Pairing.Proceed 0;
               Pairing.Proceed 0; Pairing.Proceed 0] in
  let srv := Pairing.serve (Pairing.serve_init None) acts in
  List.map Pairing.r_code (rows_of "alice" (Pairing.db srv)) = ["123456"; "777777"]
  /\ Pairing.answers srv = [(1%nat, Pairing.Created "123456" 301000);
                            (2%nat, Pairing.Created "777777" 301001)]
  /\ Pairing.waiting srv = [].
Proof. vm_compute. repeat split. Qed.

(** ** The codes that are drawn *)

Section SixDigits.
Import Js.

(** One more decimal digit. *)
Lemma to_lu_digit (q r : N) :
  (0 < q)%N -> (r < 10)%N ->
  Decimal.nb_digits (Unsigned.to_lu (10 * q + r))
  = S (Decimal.nb_digits (Unsigned.to_lu q)).
Proof.
  intros Hq Hr. destruct q as [|p]; [lia|].
  assert (exists k : nat, (k < 10)%nat /\ r = N.of_nat k) as (k & Hk & ->)
    by (exists (N.to_nat r); split; lia).
  assert (forall m : nat,
            Unsigned.to_lu (10 * N.pos p + N.of_nat m)
            = Nat.iter m Decimal.Little.succ (Decimal.D0 (Unsigned.to_lu (N.pos p)))) as Hiter.
  { induction m as [|m IH].
    - rewrite N.add_0_r. apply Unsigned.to_ldec_tenfold.
    - rewrite Nat2N.inj_succ, N.add_succ_r, Unsigned.to_lu_succ, IH. reflexivity. }
  rewrite Hiter.
  do 10 (destruct k as [|k]; [reflexivity|]). lia.
Qed.

Lemma nb_digits_to_lu (k : nat) : forall x : N,
  (10 ^ N.of_nat k <= x < 10 ^ N.of_nat (S k))%N ->
  Decimal.nb_digits (Unsigned.to_lu x) = S k.
Proof.
  induction k as [|k IH]; intros x Hx.
  - change (10 ^ N.of_nat 0)%N with 1%N in Hx. change (10 ^ N.of_nat 1)%N with 10%N in Hx.
    assert (exists m : nat, (m < 9)%nat /\ x = N.of_nat (S m)) as (m & Hm & ->)
      by (exists (N.to_nat x - 1)%nat; split; lia).
    do 9 (destruct m as [|m]; [reflexivity|]). lia.
  - rewrite !Nat2N.inj_succ, !N.pow_succ_r' in Hx.
    rewrite Nat2N.inj_succ, N.pow_succ_r' in IH.
    pose proof (N.pow_nonzero 10 (N.of_nat k) ltac:(lia)) as Hpow.
    pose proof (N.div_mod' x 10) as Hdiv.
    pose proof (N.mod_lt x 10 ltac:(lia)) as Hmod.
    rewrite Hdiv, to_lu_digit; [|lia|exact Hmod].
    rewrite IH; [reflexivity|].
    clear IH. set (P := (10 ^ N.of_nat k)%N) in *. clearbody P.
    set (q := (x / 10)%N) in *. set (r := (x mod 10)%N) in *. clearbody q r. lia.
Qed.

Lemma string_of_uint_digits (d : Decimal.uint) :
  String.length (NilEmpty.string_of_uint d) = Decimal.nb_digits d
  /\ Forall (fun c => is_digit c = true) (chars (NilEmpty.string_of_uint d)).
Proof.
  induction d as [|d [IH1 IH2]|d [IH1 IH2]|d [IH1 IH2]|d [IH1 IH2]|d [IH1 IH2]
                  |d [IH1 IH2]|d [IH1 IH2]|d [IH1 IH2]|d [IH1 IH2]|d [IH1 IH2]];
    simpl; (split; [congruence|]); constructor; (reflexivity || exact IH2).
Qed.

(** A number of six digits is printed as six digits. *)
Lemma num_to_string_six (n : Z) :
  100000 <= n <= 999999 ->
  String.length (num_to_string n) = 6%nat
  /\ Forall (fun c => is_digit c = true) (chars (num_to_string n)).
Proof.
  intros Hn. destruct n as [|p|p]; try lia. unfold num_to_string. simpl.
  assert (Decimal.nb_digits (Pos.to_uint p) = 6%nat) as Hd.
  { unfold Pos.to_uint. rewrite nb_digits_rev.
    apply (nb_digits_to_lu 5 (N.pos p)).
    change (10 ^ N.of_nat 5)%N with 100000%N. change (10 ^ N.of_nat 6)%N with 1000000%N.
    lia. }
  destruct (string_of_uint_digits (Pos.to_uint p)) as [Hlen Hall].
  unfold NilZero.string_of_uint.
  destruct (Pos.to_uint p) eqn:Hp; try (rewrite <- Hd, <- Hlen; split; [reflexivity|exact Hall]).
  discriminate Hd.
Qed.

Lemma digit_not_space (c : ascii) : is_digit c = true -> is_space c = false.
Proof.
  unfold is_digit, is_space. rewrite andb_true_iff, orb_false_iff, andb_false_iff.
  rewrite !Nat.leb_le, !Nat.leb_gt, Nat.eqb_neq. lia.
Qed.

(** A string of six digits is what it is trimmed to, and passes for a
    code. *)
Lemma six_digits_valid (s : string) :
  String.length s = 6%nat ->
  Forall (fun c => is_digit c = true) (chars s) ->
  trim s = s /\ Pairing.valid_code (Some s) = true.
Proof.
  intros Hlen Hall.
  destruct s as [|a [|b [|c [|d [|e [|f [|g s]]]]]]]; try discriminate Hlen.
  simpl in Hall.
  repeat match goal with
         | H : Forall _ (_ :: _) |- _ =>
             let Hc := fresh "Hc" in
             pose proof (Forall_inv H) as Hc; apply Forall_inv_tail in H; simpl in Hc
         end.
  split.
  - unfold trim. simpl chars. cbn [drop_spaces].
    rewrite (digit_not_space a) by assumption. cbn [rev app drop_spaces].
    rewrite (digit_not_space f) by assumption. reflexivity.
  - unfold Pairing.valid_code, test, Pairing.SIX_DIGITS. simpl.
    rewrite Hc, Hc0, Hc1, Hc2, Hc3, Hc4. reflexivity.
Qed.

End SixDigits.

Section PairingRoundTrip.
Import Pairing.
Implicit Types (s : State) (t : list Row).

Lemma isRateLimited_env ip now s : WS_URL (snd (isRateLimited ip now s)) = WS_URL s.
Proof.
  unfold isRateLimited. destruct (claimAttempts s !! ip) as [entry|]; [|reflexivity].
  destruct (a_resetAt entry <? now); reflexivity.
Qed.

(** X23.  A code that was created can be claimed.  When [create]
    answers with a code, drawn as a number of six digits, the status of
    the user is "not paired, not expired" until the code expires five
    minutes later.  A claim of that code before then, from a request
    with a session (of any user), from an address that is not rate
    limited and with a key that could be created, succeeds with that
    key and the tunnel address, and from then on the status of the user
    is "paired".  The same claim from a request without a session is
    answered 401 and changes nothing. *)
Theorem create_then_claim s user (now n : Z) uuid code (expiresAt : Z) s1
    claimant xff xreal (now' : Z) k :
  100000 <= n <= 999999 ->
  pairing (Some user) (PostCreate now n uuid) s = (Created code expiresAt, s1) ->
  now' < expiresAt ->
  fst (isRateLimited (claim_ip xff xreal) now' s1) = false ->
  expiresAt = now + 300000
  /\ fst (pairing (Some user) (GetStatus now') s1) = Status false (Some false)
  /\ pairing None (PostClaim xff xreal (Some code) now' (Some k)) s1
     = (Error 401 "unauthorized", s1)
  /\ exists s2,
       pairing (Some claimant) (PostClaim xff xreal (Some code) now' (Some k)) s1
       = (Claimed k (default "wss://tunnel.droidclaw.ai" (WS_URL s)), s2)
       /\ forall now2,
            fst (pairing (Some user) (GetStatus now2) s2) = Status true None.
Proof.
  intros Hn Hcreate Hlive Hfree.
  change (create user now n uuid s = (Created code expiresAt, s1)) in Hcreate.
  unfold create in Hcreate.
  set (t := List.filter (fun r => negb (String.eqb (r_userId r) user)) (pairingCode s)) in *.
  set (row := {| r_id := uuid; r_code := Js.num_to_string n; r_userId := user;
                 r_expiresAt := now + 5 * 60000 |}) in *.
  destruct (insert_allowed row t) eqn:Hins; [|discriminate].
  inversion Hcreate; subst code expiresAt s1. clear Hcreate.
  assert (forall r, In r t -> String.eqb (r_userId r) user = false) as Hothers.
  { intros r Hr. apply filter_In in Hr. apply negb_true_iff. tauto. }
  assert (forall r, In r t -> String.eqb (r_id r) uuid = false
                              /\ String.eqb (r_code r) (Js.num_to_string n) = false)
    as Hfresh.
  { intros r Hr. unfold insert_allowed in Hins. rewrite forallb_forall in Hins.
    specialize (Hins r Hr). apply andb_true_iff in Hins.
    rewrite !negb_true_iff in Hins. exact Hins. }
  destruct (num_to_string_six n Hn) as [Hlen Hdigits].
  destruct (six_digits_valid _ Hlen Hdigits) as [Htrim Hvalid].
  split; [lia|]. split; [|split; [reflexivity|]].
  - cbn [pairing sessionMiddleware fst]. unfold status. simpl. rewrite List.filter_app.
    rewrite (filter_none (fun r => String.eqb (r_userId r) user) t) by exact Hothers.
    simpl. rewrite String.eqb_refl.
    destruct (_ <? now') eqn:E; [|reflexivity].
    apply Z.ltb_lt in E. unfold row in E. simpl in E. lia.
  - cbn [pairing sessionMiddleware]. unfold claim. fold (claim_ip xff xreal).
    pose proof (isRateLimited_table (claim_ip xff xreal) now' (set_table (t ++ [row]) s)) as Ht.
    pose proof (isRateLimited_env (claim_ip xff xreal) now' (set_table (t ++ [row]) s)) as Hw.
    destruct (isRateLimited (claim_ip xff xreal) now' _) as [limited s1]. simpl in Hfree, Ht, Hw.
    subst limited. simpl option_map. rewrite Htrim, Hvalid. simpl negb. cbv iota.
    simpl default. rewrite Ht, List.filter_app.
    rewrite (filter_none _ t).
    2:{ intros r Hr. destruct (Hfresh r Hr) as [_ Hc]. rewrite Hc. reflexivity. }
    simpl. rewrite String.eqb_refl.
    destruct (now' <? _) eqn:E; [|apply Z.ltb_ge in E; unfold row in E; simpl in E; lia].
    simpl. rewrite Hw. eexists. split; [reflexivity|].
    intros now2. apply status_paired. intros (r & Hr & Hu). simpl in Hr.
    apply filter_In in Hr. destruct Hr as [Hr Hid]. rewrite ?Ht in Hr.
    apply in_app_or in Hr. destruct Hr as [Hr|[<-|[]]].
    + specialize (Hothers r Hr). rewrite Hu, String.eqb_refl in Hothers. discriminate.
    + simpl in Hid. rewrite String.eqb_refl in Hid. discriminate.
Qed.

End PairingRoundTrip.

Lemma create_then_claim_witness :
  let s := Pairing.init None in
  let s1 := snd (Pairing.pairing (Some "alice") (Pairing.PostCreate 1000 123456 "id-1") s) in
  let claim := Pairing.PostClaim (Some "203.0.113.7") None (Some "123456") 2000
                                 (Some "droidclaw_k1") in
  301000 = 1000 + 300000
  /\ fst (Pairing.pairing (Some "alice") (Pairing.GetStatus 2000) s1)
     = Pairing.Status false (Some false)
  /\ Pairing.pairing None claim s1 = (Pairing.Error 401 "unauthorized", s1)
  /\ exists s2,
       Pairing.pairing (Some "alice") claim s1
       = (Pairing.Claimed "droidclaw_k1"
            (default "wss://tunnel.droidclaw.ai" (Pairing.WS_URL s)), s2)
       /\ forall now2,
            fst (Pairing.pairing (Some "alice") (Pairing.GetStatus now2) s2)
            = Pairing.Status true None.
Proof.
  intros s s1 claim.
  apply (create_then_claim s "alice" 1000 123456 "id-1" "123456" 301000 s1
           "alice" (Some "203.0.113.7") None 2000 "droidclaw_k1").
  - lia.
  - reflexivity.
  - lia.
  - reflexivity.
Defined.

(* ===================================================================== *)
(** * Further properties of the accessibility service                     *)
(* ===================================================================== *)

Section HitTest.
Import Nodes.

(** Induction over a node with its children. *)
Lemma Node_children_ind (P : Node -> Prop) :
  (forall rect c l e kids,
     (forall child, In child kids -> P child) -> P (mkNode rect c l e kids)) ->
  forall n, P n.
Proof.
  intros H. fix IH 1. intros [rect c l e kids]. apply H.
  induction kids as [|c0 kids IHk]; intros child Hin; [destruct Hin|].
  destruct Hin as [<-|Hin]; [apply IH|exact (IHk child Hin)].
Qed.

(** What [findNodeAtRecursive] answers for a node whose bounds hold the
    point, in terms of its answers for the children. *)
Lemma findNodeAtRecursive_children (node : Node) (x y : Z) :
  contains (boundsInScreen node) x y = true ->
  match findNodeAtRecursive node x y with
  | Some found =>
      (exists child, In child (children node)
                     /\ findNodeAtRecursive child x y = Some found)
      \/ (found = node /\ actionable node = true
          /\ forall child, In child (children node) ->
                           findNodeAtRecursive child x y = None)
  | None =>
      actionable node = false
      /\ forall child, In child (children node) ->
                       findNodeAtRecursive child x y = None
  end.
Proof.
  destruct node as [rect c l e kids]. simpl. intros Hin. rewrite Hin. simpl.
  unfold actionable. simpl.
  set (loop := fix loop (cs : list Node) : option Node :=
                 match cs with
                 | [] => None
                 | child :: cs' =>
                     match findNodeAtRecursive child x y with
                     | Some found => Some found
                     | None => loop cs'
                     end
                 end).
  assert (match loop kids with
          | Some found => exists child, In child kids
                                        /\ findNodeAtRecursive child x y = Some found
          | None => forall child, In child kids -> findNodeAtRecursive child x y = None
          end) as Hloop.
  { induction kids as [|c0 kids IH]; simpl; [intros child []|].
    destruct (findNodeAtRecursive c0 x y) as [found|] eqn:Hc0.
    - exists c0. split; [left; reflexivity|exact Hc0].
    - destruct (loop kids) as [found|].
      + destruct IH as (child & Hchild & Hf). exists child. split; [right; exact Hchild|exact Hf].
      + intros child [<-|Hchild]; [exact Hc0|exact (IH child Hchild)]. }
  destruct (loop kids) as [found|]; [left; exact Hloop|].
  destruct (c || l || e); [right|]; auto.
Qed.

Lemma findNodeAtRecursive_outside (node : Node) (x y : Z) :
  contains (boundsInScreen node) x y = false -> findNodeAtRecursive node x y = None.
Proof. destruct node as [rect c l e kids]. simpl. intros ->. reflexivity. Qed.

Lemma under_contains (x y : Z) (root n : Node) :
  under x y root n -> contains (boundsInScreen root) x y = true.
Proof. intros H. destruct H; assumption. Qed.

(** X24.  Hit testing: [findNodeAt] answers with a node that can be
    tapped, pressed long or edited, whose bounds hold the point as do
    the bounds of all its ancestors, and below which no such node is
    found: the deepest one wins.  It answers null exactly when there is
    no node that can be acted on and is reached from the root through
    bounds that hold the point; so a node is never found through an
    ancestor whose bounds leave the point out. *)
Theorem findNodeAtRecursive_deepest (x y : Z) (root : Node) :
  match findNodeAtRecursive root x y with
  | Some found =>
      under x y root found
      /\ actionable found = true
      /\ forall child, In child (children found) -> findNodeAtRecursive child x y = None
  | None => forall n, under x y root n -> actionable n = false
  end.
Proof.
  revert root. apply Node_children_ind. intros rect c l e kids IH.
  set (root := mkNode rect c l e kids) in *.
  destruct (contains (boundsInScreen root) x y) eqn:Hin.
  - pose proof (findNodeAtRecursive_children root x y Hin) as Hc.
    destruct (findNodeAtRecursive root x y) as [found|].
    + destruct Hc as [(child & Hchild & Hf)|(-> & Ha & Hnone)].
      * specialize (IH child Hchild). rewrite Hf in IH.
        destruct IH as (Hu & Ha & Hd). split; [|auto].
        exact (under_child x y root child found Hin Hchild Hu).
      * split; [apply under_here; exact Hin|]. auto.
    + destruct Hc as [Ha Hnone]. intros n Hu.
      inversion Hu as [n0 Hn|root0 child n0 Hr Hchild Hrest]; subst.
      * exact Ha.
      * specialize (IH child Hchild). rewrite (Hnone child Hchild) in IH.
        exact (IH n Hrest).
  - rewrite (findNodeAtRecursive_outside root x y Hin).
    intros n Hu. apply under_contains in Hu. congruence.
Qed.

End HitTest.

Section ScreenTreeBound.
Import A11y.
Context {E : Type}.
Implicit Types (s : Service E) (ds : list Z).

Lemma getScreenTree_from_bounded ds lastDelay : forall s,
  exists k,
    (k <= length ds)%nat
    /\ slept (snd (getScreenTree_from ds lastDelay s)) = slept s ++ firstn k ds
    /\ (lastScreenTree (snd (getScreenTree_from ds lastDelay s))
        = fst (getScreenTree_from ds lastDelay s)
        \/ (fst (getScreenTree_from ds lastDelay s) = []
            /\ k = length ds
            /\ lastScreenTree (snd (getScreenTree_from ds lastDelay s)) = lastScreenTree s))
    /\ (fst (getScreenTree_from ds lastDelay s) <> [] -> (k < length ds)%nat).
Proof.
  induction ds as [|d ds IH]; intros s; simpl.
  - exists 0%nat. simpl. rewrite List.app_nil_r. split; [lia|]. split; [reflexivity|].
    split; [right; auto|]. intros H. contradiction.
  - destruct (rootInActiveWindow E s) as [o s1] eqn:Hread.
    destruct (attempt_after_read s o s1 0 Hread) as (_ & _ & Hsl & Hlast).
    assert (exists k,
              (k <= length (d :: ds))%nat
              /\ slept (snd (getScreenTree_from ds lastDelay (delay E d s1)))
                 = slept s ++ firstn k (d :: ds)
              /\ (lastScreenTree (snd (getScreenTree_from ds lastDelay (delay E d s1)))
                  = fst (getScreenTree_from ds lastDelay (delay E d s1))
                  \/ (fst (getScreenTree_from ds lastDelay (delay E d s1)) = []
                      /\ k = length (d :: ds)
                      /\ lastScreenTree (snd (getScreenTree_from ds lastDelay (delay E d s1)))
                         = lastScreenTree s))
              /\ (fst (getScreenTree_from ds lastDelay (delay E d s1)) <> [] ->
                  (k < length (d :: ds))%nat)) as Hnext.
    { destruct (IH (delay E d s1)) as (k & Hk & Hs & Hl & Hne).
      exists (S k). simpl. split; [lia|]. split.
      - rewrite Hs. simpl. rewrite Hsl, <- app_assoc. reflexivity.
      - split; [|intros H; specialize (Hne H); lia].
        destruct Hl as [Hl|(Hr & -> & Hl)]; [left; exact Hl|right].
        simpl in Hl. rewrite Hlast in Hl. auto. }
    destruct o as [elements|]; [|exact Hnext].
    destruct (is_empty E elements && (d <? lastDelay)); [exact Hnext|].
    exists 0%nat. simpl. rewrite Hsl, List.app_nil_r. split; [lia|]. split; [reflexivity|].
    split; [left; reflexivity|]. intros _. lia.
Qed.

(** X25.  [getScreenTree] reads the root at most five times and waits
    at most for the five delays, 1,150 ms in all: what it has waited is
    a prefix of the delays.  What it returns is what it has stored in
    [lastScreenTree], except when it gives up after the last delay:
    then it returns the empty list and leaves [lastScreenTree] as it
    was.  When it returns elements it has not waited the last delay. *)
Theorem getScreenTree_bounded s :
  exists k,
    (k <= 5)%nat
    /\ slept (snd (getScreenTree s)) = slept s ++ firstn k [50; 100; 200; 300; 500]
    /\ fold_right Z.add 0 (firstn k [50; 100; 200; 300; 500]) <= 1150
    /\ (lastScreenTree (snd (getScreenTree s)) = fst (getScreenTree s)
        \/ (fst (getScreenTree s) = [] /\ k = 5%nat
            /\ lastScreenTree (snd (getScreenTree s)) = lastScreenTree s))
    /\ (fst (getScreenTree s) <> [] -> (k < 5)%nat).
Proof.
  unfold getScreenTree.
  destruct (getScreenTree_from_bounded delays (List.last delays 0) s)
    as (k & Hk & Hs & Hl & Hne).
  exists k. change (length delays) with 5%nat in *.
  change delays with [50; 100; 200; 300; 500] in *.
  split; [exact Hk|]. split; [exact Hs|]. split; [|split; [exact Hl|exact Hne]].
  do 6 (destruct k as [|k]; [simpl; lia|]). simpl in Hk. lia.
Qed.

End ScreenTreeBound.

(* ===================================================================== *)
(** * Further properties of the texts the skills parse                    *)
(* ===================================================================== *)

Section RegexFacts.
Import Js.

(** A match hands a later position of the text to the continuation. *)
Lemma run_reaches {A} (r : re) :
  forall (prev : option ascii) (s : list ascii)
         (k : option ascii -> list ascii -> option A) (x : A),
  run r prev s k = Some x ->
  exists prev' pre s', s = pre ++ s' /\ k prev' s' = Some x.
Proof.
  induction r as [|p|r1 IH1 r2 IH2|r1 IH1 r2 IH2|r1 IH1| | |]; intros prev s k x H; simpl in H.
  - exists prev, [], s. auto.
  - destruct s as [|c s']; [discriminate|]. destruct (p c); [|discriminate].
    exists (Some c), [c], s'. auto.
  - apply IH1 in H. destruct H as (p1 & pre1 & s1 & -> & H).
    apply IH2 in H. destruct H as (p2 & pre2 & s2 & -> & H).
    exists p2, (pre1 ++ pre2), s2. rewrite <- app_assoc. auto.
  - destruct (run r1 prev s k) as [y|] eqn:E.
    + inversion H; subst. exact (IH1 _ _ _ _ E).
    + exact (IH2 _ _ _ _ H).
  - revert H. generalize (length s) at 1. intros n. revert prev s x.
    induction n as [|n IHn]; intros prev s x H; simpl in H.
    + exists prev, [], s. auto.
    + match type of H with
      | match ?t with Some _ => _ | None => _ end = _ => destruct t as [y|] eqn:E
      end.
      * inversion H; subst. apply IH1 in E. destruct E as (p1 & pre1 & s1 & -> & E).
        destruct (length s1 <? length (pre1 ++ s1))%nat; [|discriminate].
        apply IHn in E. destruct E as (p2 & pre2 & s2 & -> & E).
        exists p2, (pre1 ++ pre2), s2. rewrite <- app_assoc. auto.
      * exists prev, [], s. auto.
  - destruct prev; [discriminate|]. exists None, [], s. auto.
  - destruct s; [|discriminate]. exists prev, [], []. auto.
  - destruct (xorb _ _); [|discriminate]. exists prev, [], s. auto.
Qed.

(** A search finds its match at some position of the text. *)
Lemma search_reaches {A} (r : re) (s : list ascii) :
  forall (prev : option ascii) (k : list ascii -> list ascii -> option A) (x : A),
  search r prev s k = Some x ->
  exists prev' skipped from,
    s = skipped ++ from /\ run r prev' from (fun _ rest => k from rest) = Some x.
Proof.
  induction s as [|c s IH]; intros prev k x H; simpl in H.
  - destruct (run r prev [] _) as [y|] eqn:E; [|discriminate].
    inversion H; subst. exists prev, [], []. auto.
  - destruct (run r prev (c :: s) _) as [y|] eqn:E.
    + inversion H; subst. exists prev, [], (c :: s). auto.
    + apply IH in H. destruct H as (p' & skipped & from & -> & H).
      exists p', (c :: skipped), from. auto.
Qed.

Lemma chars_str (l : list ascii) : chars (str l) = l.
Proof. apply list_ascii_of_string_of_list_ascii. Qed.

Lemma str_chars (s : string) : str (chars s) = s.
Proof. apply string_of_list_ascii_of_string. Qed.

Lemma matched_text (pre rest : list ascii) :
  firstn (length (pre ++ rest) - length rest) (pre ++ rest) = pre.
Proof.
  rewrite length_app, Nat.add_sub. rewrite firstn_app, Nat.sub_diag, firstn_all.
  simpl. apply List.app_nil_r.
Qed.

(** The text of a match is a piece of the text searched. *)
Lemma match0_piece (r : re) (s m : string) :
  match0 r s = Some m ->
  exists before after, chars s = before ++ chars m ++ after.
Proof.
  unfold match0. intros H. apply search_reaches in H.
  destruct H as (p' & skipped & from & Hs & H).
  apply run_reaches in H. destruct H as (p2 & pre & rest & -> & H).
  inversion H; subst m. rewrite matched_text, chars_str.
  exists skipped, rest. exact Hs.
Qed.

End RegexFacts.

Section ExtractEmail.
Import Js Skills.

(** X26.  The address [compose_email] extracts from a text is a piece
    of that text, and it holds an @ with at least one character before
    it. *)
Theorem extractEmail_piece (text e : string) :
  extractEmail text = Some e ->
  exists before after name host,
    chars text = before ++ chars e ++ after
    /\ chars e = name ++ "@"%char :: host
    /\ name <> [].
Proof.
  unfold extractEmail, match0. intros H. apply search_reaches in H.
  destruct H as (p' & skipped & from & Hs & H).
  unfold EMAIL_PATTERN in H.
  match type of H with
  | context [Seq (Chr "@"%char) ?t] => set (tail := t) in H; clearbody tail
  end.
  unfold Plus in H. cbn [run] in H.
  destruct from as [|c1 from1]; [discriminate|].
  destruct (email_local c1) eqn:Hc1; [|discriminate].
  apply (run_reaches (Star (Sym email_local))) in H.
  destruct H as (p1 & pre1 & s1 & Hfrom1 & H).
  unfold Chr in H. cbn [run] in H. destruct s1 as [|c2 s2]; [discriminate|].
  destruct (Ascii.eqb "@" c2) eqn:Hat; [|discriminate].
  apply Ascii.eqb_eq in Hat. subst c2.
  apply (run_reaches tail) in H.
  destruct H as (p3 & pre3 & rest & Hs2 & H).
  assert (c1 :: from1 = (c1 :: pre1 ++ "@"%char :: pre3) ++ rest) as Hfrom.
  { subst from1 s2. simpl. rewrite <- app_assoc. reflexivity. }
  rewrite Hfrom in H, Hs. rewrite matched_text in H.
  assert (e = str (c1 :: pre1 ++ "@"%char :: pre3)) as -> by congruence.
  rewrite chars_str. exists skipped, rest, (c1 :: pre1), pre3.
  split; [|split; [reflexivity|discriminate]].
  exact Hs.
Qed.

End ExtractEmail.

Lemma extractEmail_piece_witness :
  exists before after name host,
    Js.chars "send the notes to bob@example.com today"
    = before ++ Js.chars "bob@example.com" ++ after
    /\ Js.chars "bob@example.com" = name ++ "@"%char :: host
    /\ name <> [].
Proof.
  apply (extractEmail_piece "send the notes to bob@example.com today" "bob@example.com").
  vm_compute. reflexivity.
Defined.

Section FirstDigits.
Import Js Skills.

(** A search for digits passes over what is not a digit. *)
Lemma search_digits_skip {A} (pre : list ascii) :
  forall (prev : option ascii) (s : list ascii)
         (k : list ascii -> list ascii -> option A),
  (forall c, In c pre -> is_digit c = false) ->
  s <> [] ->
  exists prev', search (Plus (Sym is_digit)) prev (pre ++ s) k
                = search (Plus (Sym is_digit)) prev' s k.
Proof.
  induction pre as [|c pre IH]; intros prev s k Hpre Hs; [exists prev; reflexivity|].
  cbn [app search]. unfold Plus at 1. cbn [run].
  rewrite (Hpre c) by (left; reflexivity).
  apply IH; [intros c' Hc'; apply Hpre; right; exact Hc'|exact Hs].
Qed.

Lemma search_digits_none {A} (s : list ascii) :
  forall (prev : option ascii) (k : list ascii -> list ascii -> option A),
  (forall c, In c s -> is_digit c = false) ->
  search (Plus (Sym is_digit)) prev s k = None.
Proof.
  induction s as [|c s IH]; intros prev k Hs; [reflexivity|].
  cbn [search]. unfold Plus at 1. cbn [run].
  rewrite (Hs c) by (left; reflexivity).
  apply IH. intros c' Hc'. apply Hs. right. exact Hc'.
Qed.

Lemma run_plus_sym {A} (p : ascii -> bool) (prev : option ascii) (c : ascii)
    (s : list ascii) (k : option ascii -> list ascii -> option A) :
  run (Plus (Sym p)) prev (c :: s) k
  = if p c then run (Star (Sym p)) (Some c) s k else None.
Proof. reflexivity. Qed.

(** A greedy repetition of one character class takes the whole run. *)
Lemma star_greedy {A} (p : ascii -> bool) (post : list ascii)
    (k : option ascii -> list ascii -> option A) (x : A) :
  (forall c, head post = Some c -> p c = false) ->
  (forall prev, k prev post = Some x) ->
  forall (ds : list ascii) (prev : option ascii),
  (forall c, In c ds -> p c = true) ->
  run (Star (Sym p)) prev (ds ++ post) k = Some x.
Proof.
  intros Hpost Hk ds prev Hds. cbn [run].
  match goal with |- ?f ?n ?a ?b = _ => set (loop := f) end.
  assert (forall (n : nat) (ds : list ascii) (prev : option ascii),
            (forall c, In c ds -> p c = true) ->
            (length (ds ++ post) <= n)%nat ->
            loop n prev (ds ++ post) = Some x) as Hloop.
  { clear ds prev Hds. intros n ds. revert n.
    induction ds as [|d ds IH]; intros n prev Hds Hn.
    - destruct n as [|n]; simpl; [apply Hk|].
      destruct post as [|c post']; [apply Hk|].
      rewrite (Hpost c eq_refl). apply Hk.
    - destruct n as [|n]; [simpl in Hn; lia|].
      cbn [app]. unfold loop at 1. fold loop. cbn [run].
      rewrite (Hds d) by (left; reflexivity).
      assert ((length (ds ++ post) <? length (d :: ds ++ post))%nat = true) as ->
        by (apply Nat.ltb_lt; simpl; lia).
      rewrite IH; [reflexivity| |simpl in Hn; lia].
      intros c Hc. apply Hds. right. exact Hc. }
  apply Hloop; [exact Hds|lia].
Qed.

(** The first run of digits of a text. *)
Lemma match0_first_digits (raw : string) (pre ds post : list ascii) :
  chars raw = pre ++ ds ++ post ->
  (forall c, In c pre -> is_digit c = false) ->
  ds <> [] -> (forall c, In c ds -> is_digit c = true) ->
  (forall c, head post = Some c -> is_digit c = false) ->
  match0 (Plus (Sym is_digit)) raw = Some (str ds).
Proof.
  intros Hraw Hpre Hne Hds Hpost. unfold match0. rewrite Hraw.
  destruct (search_digits_skip pre None (ds ++ post)
              (fun from rest => Some (str (firstn (length from - length rest) from)))
              Hpre) as [prev' ->]; [destruct ds; [contradiction|discriminate]|].
  destruct ds as [|d ds]; [contradiction|].
  cbn [app search]. rewrite run_plus_sym.
  rewrite (Hds d) by (left; reflexivity).
  rewrite (star_greedy is_digit post _ (str (d :: ds))); [reflexivity|exact Hpost| |].
  - intros _. f_equal. f_equal.
    change (d :: ds ++ post) with ((d :: ds) ++ post). apply matched_text.
  - intros c Hc. apply Hds. right. exact Hc.
Qed.

Lemma to_number_exact (n : Z) : n < 2 ^ 53 -> to_number n = n.
Proof.
  intros Hn. unfold to_number.
  destruct (Z.ltb_spec n (2 ^ 53)) as [_|Hge]; [reflexivity|lia].
Qed.

Lemma to_number_infinite (n : Z) : NOT_FINITE_FROM <= n -> to_number n = 2 ^ 1024.
Proof.
  intros Hn. assert (2 ^ 53 < NOT_FINITE_FROM) as Hbig by reflexivity.
  unfold to_number.
  destruct (Z.ltb_spec n (2 ^ 53)) as [Hlt|_]; [lia|].
  fold NOT_FINITE_FROM.
  destruct (Z.leb_spec NOT_FINITE_FROM n) as [_|Hlt]; [reflexivity|lia].
Qed.

(** X27.  The ordinal [like_nth_comment] and [verify_nth_comment_like]
    read from a decision comes from the first run of digits of the
    query, or of the text when there is no query.  It is 3 when there is
    no digit.  Otherwise it is the number value of what the digits
    write, or 3 when that value is 0 or [Infinity]: for digits that
    write less than [2^53] the ordinal is the number they write, or 3
    for 0; for digits that write [2^1024 - 2^970] or more it is 3. *)
Theorem parseNthCommentIndex_first_digits (decision : ActionDecision) :
  let raw := match d_query decision with
             | Some q => q
             | None => default "" (d_text decision)
             end in
  ((forall c, In c (chars raw) -> is_digit c = false) ->
   parseNthCommentIndex decision = 3)
  /\ (forall pre ds post,
        chars raw = pre ++ ds ++ post ->
        (forall c, In c pre -> is_digit c = false) ->
        ds <> [] -> (forall c, In c ds -> is_digit c = true) ->
        (forall c, head post = Some c -> is_digit c = false) ->
        parseNthCommentIndex decision
        = (let n := to_number (parse_digits 0 ds) in
           if (n <? NOT_FINITE_FROM) && (0 <? n) then n else 3)
        /\ (parse_digits 0 ds < 2 ^ 53 ->
            parseNthCommentIndex decision
            = if 0 <? parse_digits 0 ds then parse_digits 0 ds else 3)
        /\ (NOT_FINITE_FROM <= parse_digits 0 ds ->
            parseNthCommentIndex decision = 3)).
Proof.
  intros raw. unfold parseNthCommentIndex. fold raw. split.
  - intros Hnone. unfold match0. rewrite search_digits_none by exact Hnone. reflexivity.
  - intros pre ds post Hraw Hpre Hne Hds Hpost.
    rewrite (match0_first_digits raw pre ds post Hraw Hpre Hne Hds Hpost).
    unfold parseInt. rewrite chars_str. cbv zeta.
    split; [reflexivity|]. split.
    + intros Hsmall. rewrite (to_number_exact _ Hsmall).
      assert (2 ^ 53 < NOT_FINITE_FROM) as Hbig by reflexivity.
      destruct (Z.ltb_spec (parse_digits 0 ds) NOT_FINITE_FROM) as [_|Hge]; [|lia].
      reflexivity.
    + intros Hhuge. rewrite (to_number_infinite _ Hhuge).
      assert (NOT_FINITE_FROM < 2 ^ 1024) as Hinf by reflexivity.
      destruct (Z.ltb_spec (2 ^ 1024) NOT_FINITE_FROM) as [Hlt|_]; [lia|]. reflexivity.
Qed.

End FirstDigits.

(** The third comment, a text without a number, the ordinal 0, and an
    ordinal above [2^53], which is read as the nearest double. *)
Example parseNthCommentIndex_examples :
  Skills.parseNthCommentIndex (decide_kind "like_nth_comment" (Some "like the 2nd comment")) = 2
  /\ Skills.parseNthCommentIndex (decide_kind "like_nth_comment" (Some "the top comment")) = 3
  /\ Skills.parseNthCommentIndex (decide_kind "like_nth_comment" (Some "comment 0")) = 3
  /\ Skills.parseNthCommentIndex
       (decide_kind "like_nth_comment" (Some "comment 9007199254740993"))
     = 9007199254740992.
Proof. repeat split; vm_compute; reflexivity. Qed.

(** ** compose_email *)

Section ComposeEmail.
Import Js Skills.
Variable cfg : Config.






End ComposeEmail.


(** ** The audio of a device, among the events of other devices *)

Section VoiceAudio.
Import Voice.
Implicit Types (s : State) (d : string).

Lemma recording_chunks_step d cs s e :
  recording_chunks d cs s -> keeps_session d e ->
  recording_chunks d (cs ++ chunks_for d [e]) (step s e).
Proof.
  intros (Hwf & (r & session & Ha & Hh & Hc) & Hp) Hkeep.
  split; [apply voice_wf_step; exact Hwf|].
  pose proof (wf_refs s Hwf r session Hh) as Hr.
  assert (forall d' r', d' <> d -> activeSessions s !! d' = Some r' -> r' <> r) as Hother.
  { intros d' r' Hd Ha' ->. apply Hd. exact (wf_injective s Hwf d' d r Ha' Ha). }
  destruct e as [ws' d' key'|d' decoded|ws' d' key'|d'|t|i res]; simpl in Hkeep |- *.
  - rewrite List.app_nil_r.
    destruct (cleanupSession_counters d' s) as (Hnr & _ & Hact).
    destruct (cleanupSession_keeps d' s) as (Hheap & Hpend & _).
    unfold handleVoiceStart. simpl. rewrite Hheap, Hpend, Hnr. split; [|exact Hp].
    exists r, session. rewrite lookup_insert_ne by congruence.
    rewrite Hact by congruence. rewrite !lookup_insert_ne by lia. auto.
  - unfold handleVoiceChunk. destruct (String.eqb_spec d' d) as [->|Hne].
    + assert (session_of d s = Some (r, session)) as -> by (apply session_of_Some; auto).
      simpl. split; [|exact Hp].
      eexists r, _. rewrite lookup_insert_eq. split; [exact Ha|]. split; [reflexivity|].
      simpl. rewrite Hc. reflexivity.
    + rewrite List.app_nil_r.
      destruct (session_of d' s) as [[r' session']|] eqn:Hso; simpl.
      * apply session_of_Some in Hso. destruct Hso as [Ha' _].
        split; [|exact Hp]. exists r, session.
        rewrite lookup_insert_ne by (intros ->; exact (Hother d' r Hne Ha' eq_refl)). auto.
      * split; [|exact Hp]. exists r, session. auto.
  - rewrite List.app_nil_r. unfold handleVoiceSend.
    destruct (session_of d' s) as [[r' session']|] eqn:Hso.
    2:{ split; [|exact Hp]. exists r, session. auto. }
    apply session_of_Some in Hso. destruct Hso as [Ha' _].
    pose proof (Hother d' r' Hkeep Ha') as Hne.
    assert (forall s1,
              s1 = match partialTimer session' with
                   | Some t =>
                       set_heap (<[r' := {| chunks := chunks session';
                                            totalBytes := totalBytes session';
                                            partialTimer := None;
                                            lastPartialOffset := lastPartialOffset session' |}]>
                                   (heap s)) (clearInterval t s)
                   | None => s
                   end ->
              activeSessions s1 = activeSessions s /\ heap s1 !! r = Some session
              /\ pending s1 = pending s) as Hs1.
    { intros s1 ->. destruct (partialTimer session'); simpl; [|auto].
      rewrite lookup_insert_ne by congruence. auto. }
    match goal with
    | |- context [if _ then set_pending _ ?x else _] =>
        destruct (Hs1 x eq_refl) as (Hact & Hheap & Hpend); clear Hs1
    end.
    destruct (MIN_AUDIO_BYTES <=? totalBytes session'); simpl.
    + split.
      * exists r, session. rewrite Hact. auto.
      * rewrite Hpend. apply List.Forall_app. split; [exact Hp|].
        constructor; [simpl; exact Hkeep|constructor].
    + split.
      * exists r, session. rewrite lookup_delete_ne by congruence. rewrite Hact. auto.
      * rewrite Hpend. exact Hp.
  - rewrite List.app_nil_r.
    destruct (cleanupSession_counters d' s) as (_ & _ & Hact).
    destruct (cleanupSession_keeps d' s) as (Hheap & Hpend & _).
    unfold handleVoiceCancel. rewrite Hheap, Hpend. split; [|exact Hp].
    exists r, session. rewrite Hact by congruence. auto.
  - rewrite List.app_nil_r. unfold partialTick.
    destruct (timers s !! t) as [c|]; [|split; [exists r, session; auto|exact Hp]].
    destruct (heap s !! c_session c) as [session'|];
      [|split; [exists r, session; auto|exact Hp]].
    destruct (totalBytes session' <=? lastPartialOffset session');
      [split; [exists r, session; auto|exact Hp]|].
    destruct (totalBytes session' <? MIN_AUDIO_BYTES);
      [split; [exists r, session; auto|exact Hp]|].
    simpl. split; [exists r, session; auto|].
    apply List.Forall_app. split; [exact Hp|]. constructor; [simpl; tauto|constructor].
  - rewrite List.app_nil_r.
    destruct (pending s !! i) as [k|] eqn:Hk; [|split; [exists r, session; auto|exact Hp]].
    assert (~ awaits_final_for d k) as Hnot.
    { rewrite List.Forall_forall in Hp. apply Hp. apply list_elem_of_In.
      eapply list_elem_of_lookup_2. exact Hk. }
    assert (Forall (fun k => ~ awaits_final_for d k)
                   (take i (pending s) ++ drop (S i) (pending s))) as Hp'.
    { apply List.Forall_app. split; [apply Forall_take|apply Forall_drop]; exact Hp. }
    destruct k as [ref ws' d' pcm|ws' d' pcm]; simpl.
    + destruct res as [text|]; [|split; [exists r, session; auto|exact Hp']].
      assert (exists session0,
                heap match heap s !! ref with
                     | Some session1 =>
                         set_heap (<[ref := {| chunks := chunks session1;
                                               totalBytes := totalBytes session1;
                                               partialTimer := partialTimer session1;
                                               lastPartialOffset := totalBytes session1 |}]>
                                     (heap s))
                                  (set_pending (take i (pending s) ++ drop (S i) (pending s)) s)
                     | None => set_pending (take i (pending s) ++ drop (S i) (pending s)) s
                     end !! r = Some session0
                /\ chunks session0 = cs) as (session0 & Hh0 & Hc0).
      { destruct (heap s !! ref) as [session1|] eqn:Href; simpl; [|eauto].
        destruct (decide (ref = r)) as [->|Hne].
        - rewrite lookup_insert_eq. eexists. split; [reflexivity|]. simpl. congruence.
        - rewrite lookup_insert_ne by congruence. eauto. }
      destruct (heap s !! ref) as [session1|]; simpl in *;
        destruct (Js.truthy text); simpl; (split; [exists r, session0; auto|exact Hp']).
    + simpl in Hnot. destruct res as [text|]; simpl;
        (split; [exists r, session; rewrite lookup_delete_ne by congruence; auto|exact Hp']).
Qed.

Lemma chunks_for_cons d e es : chunks_for d (e :: es) = chunks_for d [e] ++ chunks_for d es.
Proof.
  destruct e as [ws' d' key'|d' decoded|ws' d' key'|d'|t|i res]; simpl; try reflexivity.
  destruct (String.eqb d' d); reflexivity.
Qed.

Lemma recording_chunks_run d es : forall cs s,
  recording_chunks d cs s -> Forall (keeps_session d) es ->
  recording_chunks d (cs ++ chunks_for d es) (run s es).
Proof.
  induction es as [|e es IH]; intros cs s Hrec Hes.
  - simpl. rewrite List.app_nil_r. exact Hrec.
  - rewrite chunks_for_cons, app_assoc. simpl. apply IH; [|exact (Forall_inv_tail Hes)].
    apply recording_chunks_step; [exact Hrec|exact (Forall_inv Hes)].
Qed.

(** X29.  The audio of a device is kept whole and in order.  After
    [voice_start] for a device, in a state where no [voice_send] of
    that device is under way, and whatever happens then to other
    devices and to the timers and transcriptions, the session of the
    device holds exactly the chunks received for it since, in the order
    of arrival; and [voice_send] hands their concatenation to the
    transcription, when it is at least 3,200 bytes. *)
Theorem voice_audio_in_order s ws d key es ws2 key2 :
  voice_reachable s ->
  Forall (fun k => ~ awaits_final_for d k) (pending s) ->
  Forall (keeps_session d) es ->
  let s1 := run (handleVoiceStart ws d key s) es in
  exists r session,
    session_of d s1 = Some (r, session)
    /\ chunks session = chunks_for d es
    /\ totalBytes session = bytes (chunks_for d es)
    /\ (3200 <= bytes (chunks_for d es) ->
        pending (handleVoiceSend ws2 d key2 s1)
        = pending s1 ++ [AwaitFinal ws2 d (concatChunks (chunks_for d es))]).
Proof.
  intros Hs Hp Hes s1.
  assert (recording_chunks d [] (handleVoiceStart ws d key s)) as H0.
  { pose proof (voice_reachable_wf s Hs) as Hwf.
    split; [apply voice_wf_handleVoiceStart; exact Hwf|].
    destruct (cleanupSession_keeps d s) as (_ & Hpend & _).
    unfold handleVoiceStart. simpl. rewrite Hpend. split; [|exact Hp].
    eexists _, _. rewrite !lookup_insert_eq. split; [reflexivity|]. split; reflexivity. }
  destruct (recording_chunks_run d es [] _ H0 Hes) as (Hwf1 & (r & session & Ha & Hh & Hc) & _).
  fold s1 in Hwf1, Ha, Hh. simpl in Hc.
  assert (voice_reachable s1) as Hs1.
  { destruct Hs as [es0 ->]. exists (es0 ++ VoiceStart ws d key :: es).
    unfold s1. rewrite run_app. reflexivity. }
  destruct (proj1 (voice_counts_reachable s1 Hs1) r session Hh) as [Ht _].
  exists r, session.
  assert (session_of d s1 = Some (r, session)) as Hso by (apply session_of_Some; auto).
  split; [exact Hso|]. split; [exact Hc|]. split; [rewrite Ht, Hc; reflexivity|].
  intros Hlong. unfold handleVoiceSend. rewrite Hso.
  assert ((MIN_AUDIO_BYTES <=? totalBytes session) = true) as ->.
  { apply Z.leb_le. rewrite Ht, Hc. exact Hlong. }
  destruct (partialTimer session); simpl; rewrite Hc; reflexivity.
Qed.

End VoiceAudio.

Lemma voice_audio_in_order_witness :
  let s := Voice.run Voice.init [Voice.VoiceStart 7 "dev-2" "gsk";
                                 Voice.VoiceChunk "dev-2" chunk800] in
  let es := [Voice.VoiceChunk "dev-1" chunk800; Voice.VoiceChunk "dev-2" chunk800;
             Voice.Tick 0; Voice.VoiceChunk "dev-1" chunk800;
             Voice.VoiceSend 7 "dev-2" "gsk"; Voice.VoiceChunk "dev-1" chunk800;
             Voice.Resolve 0 (Some "hello"); Voice.VoiceChunk "dev-1" chunk800] in
  let s1 := Voice.run (Voice.handleVoiceStart 8 "dev-1" "gsk" s) es in
  exists r session,
    Voice.session_of "dev-1" s1 = Some (r, session)
    /\ Voice.chunks session = chunks_for "dev-1" es
    /\ Voice.totalBytes session = bytes (chunks_for "dev-1" es)
    /\ (3200 <= bytes (chunks_for "dev-1" es) ->
        Voice.pending (Voice.handleVoiceSend 9 "dev-1" "gsk" s1)
        = Voice.pending s1
          ++ [Voice.AwaitFinal 9 "dev-1" (Voice.concatChunks (chunks_for "dev-1" es))]).
Proof.
  intros s es.
  apply (voice_audio_in_order s 8 "dev-1" "gsk" es 9 "gsk").
  - eexists. reflexivity.
  - vm_compute. constructor.
  - repeat constructor; simpl; congruence.
Defined.

(** ** Voice sessions: a session started while [voice_send] waits *)

Section VoiceOrphan.
Import Voice.
Implicit Types (s : State) (d : string).

Lemma orphaned_cleanupSession t c d s :
  orphaned t c s -> orphaned t c (cleanupSession d s).
Proof.
  intros (Ht & Hlt & Hreg). unfold cleanupSession.
  destruct (session_of d s) as [[r session]|] eqn:Hso; [|repeat split; assumption].
  assert (forall s1, timers s1 !! t = Some c -> (t < next_timer s1)%nat ->
                     heap s1 = heap s -> activeSessions s1 = activeSessions s ->
                     orphaned t c (set_active (delete d (activeSessions s1)) s1)) as Hdel.
  { intros s1 Ht1 Hlt1 Hh Ha. split; [exact Ht1|]. split; [exact Hlt1|].
    intros d' r' session' Hso'. apply session_of_Some in Hso'. simpl in Hso'.
    destruct Hso' as [Ha' Hh']. rewrite Ha in Ha'. rewrite Hh in Hh'.
    apply lookup_delete_Some in Ha'. destruct Ha' as [_ Ha'].
    apply (Hreg d' r'). apply session_of_Some. auto. }
  destruct (partialTimer session) as [t'|] eqn:Hpt; [|apply Hdel; auto].
  apply Hdel; simpl; auto.
  rewrite lookup_delete_ne; [exact Ht|]. intros ->. exact (Hreg d r session Hso Hpt).
Qed.

(** A timer that is not the timer of a registered session is stopped
    by nothing: the handlers stop the timers of registered sessions
    only, and no session is registered a second time. *)
Lemma orphaned_step t c s e : orphaned t c s -> orphaned t c (step s e).
Proof.
  intros Horph. destruct e as [ws d key|d decoded|ws d key|d|t'|i r]; simpl.
  - pose proof (orphaned_cleanupSession t c d s Horph) as (Ht & Hlt & Hreg).
    unfold handleVoiceStart. split; [|split]; simpl.
    + rewrite lookup_insert_ne by lia. exact Ht.
    + lia.
    + intros d' r' session' Hso'. apply session_of_Some in Hso'. simpl in Hso'.
      destruct Hso' as [Ha' Hh'].
      destruct (decide (r' = next_ref (cleanupSession d s))) as [->|Hne].
      * rewrite lookup_insert_eq in Hh'. injection Hh' as <-. simpl. intros [= Heq]. lia.
      * rewrite !lookup_insert_ne in Hh' by congruence.
        destruct (decide (d' = d)) as [->|Hd].
        -- rewrite lookup_insert_eq in Ha'. congruence.
        -- rewrite lookup_insert_ne in Ha' by congruence.
           apply (Hreg d' r'). apply session_of_Some. auto.
  - destruct Horph as (Ht & Hlt & Hreg). unfold handleVoiceChunk.
    destruct (session_of d s) as [[r session]|] eqn:Hso; [|repeat split; assumption].
    split; [exact Ht|]. split; [exact Hlt|].
    intros d' r' session' Hso'. apply session_of_Some in Hso'. simpl in Hso'.
    destruct Hso' as [Ha' Hh'].
    destruct (decide (r' = r)) as [->|Hne].
    + rewrite lookup_insert_eq in Hh'. injection Hh' as <-. simpl.
      exact (Hreg d r session Hso).
    + rewrite lookup_insert_ne in Hh' by congruence.
      apply (Hreg d' r'). apply session_of_Some. auto.
  - destruct Horph as (Ht & Hlt & Hreg). unfold handleVoiceSend.
    destruct (session_of d s) as [[r session]|] eqn:Hso; [|repeat split; assumption].
    assert (orphaned t c
              match partialTimer session with
              | Some t0 =>
                  set_heap (<[r := {| chunks := chunks session; totalBytes := totalBytes session;
                                      partialTimer := None;
                                      lastPartialOffset := lastPartialOffset session |}]>
                              (heap s)) (clearInterval t0 s)
              | None => s
              end) as (Ht1 & Hlt1 & Hreg1).
    { destruct (partialTimer session) as [t0|] eqn:Hpt; [|repeat split; assumption].
      split; [|split; [exact Hlt|]].
      - simpl. rewrite lookup_delete_ne; [exact Ht|].
        intros ->. exact (Hreg d r session Hso Hpt).
      - intros d' r' session' Hso'. apply session_of_Some in Hso'. simpl in Hso'.
        destruct Hso' as [Ha' Hh'].
        destruct (decide (r' = r)) as [->|Hne].
        + rewrite lookup_insert_eq in Hh'. injection Hh' as <-. simpl. discriminate.
        + rewrite lookup_insert_ne in Hh' by congruence.
          apply (Hreg d' r'). apply session_of_Some. auto. }
    destruct (MIN_AUDIO_BYTES <=? totalBytes session).
    + split; [exact Ht1|]. split; [exact Hlt1|]. exact Hreg1.
    + split; [exact Ht1|]. split; [exact Hlt1|].
      intros d' r' session' Hso'. apply session_of_Some in Hso'. simpl in Hso'.
      destruct Hso' as [Ha' Hh']. apply lookup_delete_Some in Ha'. destruct Ha' as [_ Ha'].
      apply (Hreg1 d' r'). apply session_of_Some. auto.
  - apply orphaned_cleanupSession. exact Horph.
  - destruct Horph as (Ht & Hlt & Hreg). unfold partialTick.
    destruct (timers s !! t') as [c'|]; [|repeat split; assumption].
    destruct (heap s !! c_session c') as [session|]; [|repeat split; assumption].
    destruct (totalBytes session <=? lastPartialOffset session); [repeat split; assumption|].
    destruct (totalBytes session <? MIN_AUDIO_BYTES); repeat split; assumption.
  - destruct Horph as (Ht & Hlt & Hreg).
    destruct (pending s !! i) as [k|]; [|repeat split; assumption].
    set (s0 := set_pending (take i (pending s) ++ drop (S i) (pending s)) s).
    assert (orphaned t c s0) as Horph0 by (repeat split; assumption).
    destruct k as [ref ws d pcm|ws d pcm]; simpl.
    + destruct r as [text|]; [|exact Horph0].
      assert (orphaned t c
                match heap s0 !! ref with
                | Some session =>
                    set_heap (<[ref := {| chunks := chunks session;
                                          totalBytes := totalBytes session;
                                          partialTimer := partialTimer session;
                                          lastPartialOffset := totalBytes session |}]>
                                (heap s0)) s0
                | None => s0
                end) as Horph1.
      { destruct (heap s0 !! ref) as [session|] eqn:Href; [|exact Horph0].
        split; [exact Ht|]. split; [exact Hlt|].
        intros d' r' session' Hso'. apply session_of_Some in Hso'. simpl in Hso'.
        destruct Hso' as [Ha' Hh'].
        destruct (decide (r' = ref)) as [->|Hne].
        - rewrite lookup_insert_eq in Hh'. injection Hh' as <-. simpl.
          apply (Hreg d' ref). apply session_of_Some. auto.
        - rewrite lookup_insert_ne in Hh' by congruence.
          apply (Hreg d' r'). apply session_of_Some. auto. }
      destruct (Js.truthy text); exact Horph1.
    + assert (forall s1, orphaned t c s1 ->
                orphaned t c (set_active (delete d (activeSessions s1)) s1)) as Hdel.
      { intros s1 (Ht1 & Hlt1 & Hreg1). split; [exact Ht1|]. split; [exact Hlt1|].
        intros d' r' session' Hso'. apply session_of_Some in Hso'. simpl in Hso'.
        destruct Hso' as [Ha' Hh']. apply lookup_delete_Some in Ha'. destruct Ha' as [_ Ha'].
        apply (Hreg1 d' r'). apply session_of_Some. auto. }
      destruct r as [text|].
      * apply (Hdel (sendToDevice ws (transcript_final text) s0)). exact Horph0.
      * apply (Hdel (sendToDevice ws (transcript_final "")
                       (log ("[Voice] Final transcription failed for " +:+ d) s0))).
        exact Horph0.
Qed.

Lemma orphaned_run t c es : forall s, orphaned t c s -> orphaned t c (run s es).
Proof.
  induction es as [|e es IH]; intros s H; [exact H|].
  simpl. apply IH. apply orphaned_step. exact H.
Qed.

End VoiceOrphan.

(** C9, where the code departs from it.  A device starts a session,
    sends four chunks of 800 bytes and [voice_send], and starts a new
    session while the final transcription is awaited.  When the
    transcription completes, [voice_send] sends the final transcript
    and takes the device out of the registry: what it removes is the
    new session, whose timer it does not stop.  After [voice_send] has
    completed, the timer of that session is set, and whatever happens
    from then on it stays set. *)
Theorem voice_send_leaves_timer :
  let es := [Voice.VoiceStart 7 "pixel" "gsk";
             Voice.VoiceChunk "pixel" chunk800; Voice.VoiceChunk "pixel" chunk800;
             Voice.VoiceChunk "pixel" chunk800; Voice.VoiceChunk "pixel" chunk800;
             Voice.VoiceSend 7 "pixel" "gsk";
             Voice.VoiceStart 7 "pixel" "gsk";
             Voice.Resolve 0 (Some "turn on the lights")] in
  let s := Voice.run Voice.init es in
  let callback := {| Voice.c_session := 1; Voice.c_ws := 7; Voice.c_deviceId := "pixel";
                     Voice.c_apiKey := "gsk" |} in
  Voice.sent s = [(7%nat, Voice.transcript_final "turn on the lights")]
  /\ Voice.pending s = []
  /\ Voice.activeSessions s !! "pixel" = None
  /\ Voice.partialTimer <$> Voice.heap s !! 1%nat = Some (Some 1%nat)
  /\ Voice.timers s !! 1%nat = Some callback
  /\ forall es', Voice.timers (Voice.run s es') !! 1%nat = Some callback.
Proof.
  intros es s callback.
  assert (Voice.activeSessions s = ∅) as Hnone by (vm_compute; reflexivity).
  assert (orphaned 1 callback s) as Horph.
  { split; [vm_compute; reflexivity|]. split; [vm_compute; lia|].
    intros d r session Hso. apply session_of_Some in Hso. destruct Hso as [Ha _].
    rewrite Hnone, lookup_empty in Ha. discriminate. }
  split; [vm_compute; reflexivity|]. split; [vm_compute; reflexivity|].
  split; [rewrite Hnone; apply lookup_empty|].
  split; [vm_compute; reflexivity|]. split; [exact (proj1 Horph)|].
  intros es'. exact (proj1 (orphaned_run 1 callback es' s Horph)).
Qed.

(** A partial transcription that outlasts the timer interval: the next
    tick finds the offset of the last partial unchanged and starts a
    second transcription of the same audio, and both transcripts are
    sent. *)
Example voice_slow_transcription :
  let es := [Voice.VoiceStart 7 "pixel" "gsk";
             Voice.VoiceChunk "pixel" chunk800; Voice.VoiceChunk "pixel" chunk800;
             Voice.VoiceChunk "pixel" chunk800; Voice.Tick 0;
             Voice.VoiceChunk "pixel" chunk800; Voice.VoiceChunk "pixel" chunk800;
             Voice.Tick 0; Voice.Tick 0;
             Voice.Resolve 0 (Some "turn on the lights");
             Voice.Resolve 0 (Some "turn on the lights")] in
  Voice.sent (Voice.run Voice.init es)
  = [(7%nat, Voice.transcript_partial "turn on the lights");
     (7%nat, Voice.transcript_partial "turn on the lights")].
Proof. vm_compute. reflexivity. Qed.
